(** * FinBytes trading engine: indicators, signals, trade simulation

    A shallow embedding of [src/finbytes/analysis_engine.py] and
    [src/finbytes/backtest_engine.py].

    Numbers.  The Python code computes on IEEE doubles held in pandas
    Series.  Here a double is an exact rational, or one of the three
    special values (+inf, -inf, NaN): the arithmetic on series is exact,
    the special values and their propagation are modelled.  Zero has no
    sign; it behaves as +0.0.  A pandas Series is a list of such values,
    indexed by bar position.

    Two places depend on the last bit of a double.  Where the data is
    compared with a product by a decimal literal (the 2% band around a
    support or resistance level) the product is rounded to binary64
    ([round64]).  Where a figure is rounded to two decimals for a
    report, [round2] rounds the exact value, while the code rounds the
    double, which next to a half cent may go the other way; what is
    proved of the figures of a trade record is that each lies within one
    cent of the exact figure. *)

From Stdlib Require Import List ZArith QArith Qcanon Qround Bool Lia Lqa.
From Stdlib Require String.
From Stdlib Require Import Sorting.Sorted Sorting.Permutation.
Import ListNotations.

(* ================================================================== *)
(** ** Extended rationals standing for float64 *)
(* ================================================================== *)

Module Float.

Inductive fval : Type :=
  | Fin (q : Qc)
  | PInf
  | NInf
  | NaN.

Definition qz (z : Z) : Qc := Q2Qc (inject_Z z).
Definition qfrac (a : Z) (b : positive) : Qc := Q2Qc (a # b).
Definition fz (z : Z) : fval := Fin (qz z).

Definition Qc_eqb (x y : Qc) : bool := Qeq_bool x y.
Definition Qc_leb (x y : Qc) : bool := Qle_bool x y.
Definition Qc_ltb (x y : Qc) : bool := negb (Qle_bool y x).

Definition isnan (x : fval) : bool :=
  match x with NaN => true | _ => false end.

Definition notna (x : fval) : bool := negb (isnan x).

Definition isfinite (x : fval) : bool :=
  match x with Fin _ => true | _ => false end.

Definition fneg (x : fval) : fval :=
  match x with
  | Fin q => Fin (- q)
  | PInf => NInf
  | NInf => PInf
  | NaN => NaN
  end.

Definition fadd (x y : fval) : fval :=
  match x, y with
  | NaN, _ | _, NaN => NaN
  | Fin a, Fin b => Fin (a + b)
  | PInf, NInf | NInf, PInf => NaN
  | PInf, _ | _, PInf => PInf
  | NInf, _ | _, NInf => NInf
  end.

Definition fsub (x y : fval) : fval := fadd x (fneg y).

(** Sign of a finite value as seen by a multiplication or division with
    an infinity: [Some true] positive, [Some false] negative, [None] zero. *)
Definition qsign (q : Qc) : option bool :=
  if Qc_eqb q 0 then None else Some (Qc_ltb 0 q).

Definition inf_of (positive : bool) : fval := if positive then PInf else NInf.

Definition fmul (x y : fval) : fval :=
  match x, y with
  | NaN, _ | _, NaN => NaN
  | Fin a, Fin b => Fin (a * b)
  | Fin a, PInf | PInf, Fin a =>
      match qsign a with None => NaN | Some s => inf_of s end
  | Fin a, NInf | NInf, Fin a =>
      match qsign a with None => NaN | Some s => inf_of (negb s) end
  | PInf, PInf | NInf, NInf => PInf
  | PInf, NInf | NInf, PInf => NInf
  end.

Definition fdiv (x y : fval) : fval :=
  match x, y with
  | NaN, _ | _, NaN => NaN
  | Fin a, Fin b =>
      if Qc_eqb b 0
      then match qsign a with None => NaN | Some s => inf_of s end
      else Fin (a / b)
  | Fin _, PInf | Fin _, NInf => Fin 0
  | PInf, Fin b => inf_of (Qc_leb 0 b)
  | NInf, Fin b => inf_of (negb (Qc_leb 0 b))
  | _, _ => NaN
  end.

Definition fabs (x : fval) : fval :=
  match x with
  | Fin q => Fin (if Qc_ltb q 0 then - q else q)
  | PInf | NInf => PInf
  | NaN => NaN
  end.

(** Comparisons: every comparison with NaN is false. *)
Definition flt (x y : fval) : bool :=
  match x, y with
  | NaN, _ | _, NaN => false
  | Fin a, Fin b => Qc_ltb a b
  | Fin _, PInf => true
  | Fin _, NInf => false
  | PInf, _ => false
  | NInf, NInf => false
  | NInf, _ => true
  end.

Definition feqb (x y : fval) : bool :=
  match x, y with
  | Fin a, Fin b => Qc_eqb a b
  | PInf, PInf | NInf, NInf => true
  | _, _ => false
  end.

Definition fle (x y : fval) : bool := flt x y || feqb x y.
Definition fgt (x y : fval) : bool := flt y x.
Definition fge (x y : fval) : bool := fle y x.

(** [round(x, 2)]: to the nearest multiple of 1/100, ties to even, of
    the exact value. *)
Definition round_half_even (x : Qc) : Z :=
  let f := Qfloor x in
  let r := (x - qz f)%Qc in
  if Qc_ltb r (qfrac 1 2) then f
  else if Qc_ltb (qfrac 1 2) r then (f + 1)%Z
  else if Z.even f then f else (f + 1)%Z.

Definition round2q (x : Qc) : Qc :=
  (qz (round_half_even (x * qz 100)) / qz 100)%Qc.

Definition round2 (x : fval) : fval :=
  match x with
  | Fin q => Fin (round2q q)
  | other => other
  end.

(** *** Rounding to binary64 *)

Definition pow2 (e : Z) : Qc :=
  if (0 <=? e)%Z then qz (2 ^ e) else (/ qz (2 ^ (- e)))%Qc.

(** [floor (log2 x)] of a positive rational: the difference of the bit
    lengths of numerator and denominator, or one less. *)
Definition ilog2 (x : Qc) : Z :=
  let k := (Z.log2 (Qnum x) - Z.log2 (Zpos (Qden x)))%Z in
  if Qc_leb (pow2 k) x then k else (k - 1)%Z.

(** The double nearest to [x], ties to even: 53 significant bits,
    subnormal steps of 2^-1074 below 2^-1022, an infinity from 2^1024. *)
Definition round64 (x : Qc) : fval :=
  if Qc_eqb x 0 then Fin 0
  else
    let a := if Qc_ltb x 0 then (- x)%Qc else x in
    let e := Z.max (ilog2 a) (-1022) in
    let ulp := pow2 (e - 52) in
    let r := (qz (round_half_even (a / ulp)) * ulp)%Qc in
    if Qc_leb (pow2 1024) r then inf_of (Qc_ltb 0 x)
    else Fin (if Qc_ltb x 0 then - r else r)%Qc.

(** A decimal literal of the source, [a / b] as written: the double
    nearest to it. *)
Definition literal (a : Z) (b : positive) : fval := round64 (qfrac a b).

(** The product of two doubles. *)
Definition fmul64 (x y : fval) : fval :=
  match fmul x y with
  | Fin q => round64 q
  | other => other
  end.

(** Structural identity of two values (NaN is identical to NaN), used to
    compare whole series; it is not the float comparison [feqb]. *)
Definition fsame (x y : fval) : bool :=
  match x, y with
  | NaN, NaN => true
  | _, _ => feqb x y
  end.

Fixpoint series_same (xs ys : list fval) : bool :=
  match xs, ys with
  | [], [] => true
  | x :: xs', y :: ys' => fsame x y && series_same xs' ys'
  | _, _ => false
  end.

End Float.

(* ================================================================== *)
(** ** The pandas Series operations the engine relies on *)
(* ================================================================== *)

Module Pandas.
Import Float.

Definition Series := list fval.

(** [s.iloc[i]] for an index in range. *)
Definition iloc (s : Series) (i : nat) : fval := nth i s NaN.

(** Element-wise combination of two series over the same index. *)
Fixpoint map2 {A B C : Type} (f : A -> B -> C) (xs : list A) (ys : list B)
  : list C :=
  match xs, ys with
  | x :: xs', y :: ys' => f x y :: map2 f xs' ys'
  | _, _ => []
  end.

(** [mask.sum()] of a boolean series: the number of its true entries. *)
Definition mask_sum (mask : list bool) : nat :=
  fold_left (fun (n : nat) (b : bool) => if b then S n else n) mask 0%nat.

(** [s.shift(1)] *)
Definition shift1 (s : Series) : Series :=
  match s with
  | [] => []
  | _ :: _ => NaN :: removelast s
  end.

(** [s.diff()] *)
Definition diff (s : Series) : Series := map2 fsub s (shift1 s).

(** [s.pct_change()], for a series without missing values:
    [s / s.shift(1) - 1]. *)
Definition pct_change (s : Series) : Series :=
  map (fun r => fsub r (Fin 1)) (map2 fdiv s (shift1 s)).

(** [signals.replace(0, np.nan)] on an integer series. *)
Definition replace_zero_nan (signals : list Z) : Series :=
  map (fun z => if (z =? 0)%Z then NaN else fz z) signals.

(** [s.ffill()] *)
Fixpoint ffill_from (last : fval) (s : Series) : Series :=
  match s with
  | [] => []
  | x :: r =>
      let v := if isnan x then last else x in
      v :: ffill_from v r
  end.

Definition ffill (s : Series) : Series := ffill_from NaN s.

(** [s.fillna(v)] *)
Definition fillna (v : fval) (s : Series) : Series :=
  map (fun x => if isnan x then v else x) s.

(** [s.cumprod()]: a NaN entry is left NaN in the output and does not
    enter the running product. *)
Fixpoint cumprod_from (acc : fval) (s : Series) : Series :=
  match s with
  | [] => []
  | x :: r =>
      if isnan x then NaN :: cumprod_from acc r
      else let acc' := fmul acc x in acc' :: cumprod_from acc' r
  end.

Definition cumprod (s : Series) : Series := cumprod_from (Fin 1) s.

(** Python's built-in [sum], starting from the integer 0. *)
Definition fsum (l : list fval) : fval := fold_left fadd l (Fin 0).

(** Python's built-in [max] and [min] over an iterable with [default]:
    the first item is kept until a later one compares greater (less). *)
Definition py_extreme (better : fval -> fval -> bool) (l : list fval)
    (default : fval) : fval :=
  match l with
  | [] => default
  | x :: r => fold_left (fun m item => if better item m then item else m) r x
  end.

Definition py_max (l : list fval) (default : fval) : fval :=
  py_extreme fgt l default.

Definition py_min (l : list fval) (default : fval) : fval :=
  py_extreme flt l default.

(** Reductions that skip NaN: [s.mean()], [s.std()] (ddof = 1), [s.min()]. *)
Definition dropna (s : Series) : Series := filter notna s.

Definition mean (s : Series) : fval :=
  let v := dropna s in
  match v with
  | [] => NaN
  | _ :: _ => fdiv (fsum v) (fz (Z.of_nat (length v)))
  end.

Definition var (s : Series) : fval :=
  let v := dropna s in
  if (length v <=? 1)%nat then NaN
  else
    let m := mean s in
    fdiv (fsum (map (fun x => fmul (fsub x m) (fsub x m)) v))
         (fz (Z.of_nat (length v) - 1)).

Section Std.
(** [np.sqrt] on the non-negative rationals is taken as a parameter. *)
Variable sqrt_ : Qc -> Qc.

Definition fsqrt (x : fval) : fval :=
  match x with
  | Fin q => if Qc_ltb q 0 then NaN else Fin (sqrt_ q)
  | PInf => PInf
  | NInf | NaN => NaN
  end.

Definition std (s : Series) : fval := fsqrt (var s).
End Std.

Definition nanmin (s : Series) : fval := py_min (dropna s) NaN.
Definition nanmax (s : Series) : fval := py_max (dropna s) NaN.

(** [s.expanding().max()] *)
Definition expanding_max (s : Series) : Series :=
  map (fun i => nanmax (firstn (S i) s)) (seq 0 (length s)).

(** Trailing window of [w] values ending at position [i], when there are
    that many. *)
Definition window_at (w i : nat) (s : Series) : option (list fval) :=
  if (w <=? S i)%nat then Some (firstn w (skipn (S i - w) s)) else None.

(** [s.rolling(window=w).apply(f)] with the default [min_periods = w]:
    undefined until [w] observations are in the window, and whenever the
    window holds a NaN.  Each window is reduced on its own; pandas keeps
    a running sum, which gives the same value on finite entries, the
    only ones the engine feeds it. *)
Definition rolling_apply (w : nat) (f : list fval -> fval) (s : Series)
  : Series :=
  map (fun i =>
         match window_at w i s with
         | Some win => if forallb notna win then f win else NaN
         | None => NaN
         end)
      (seq 0 (length s)).

(** [s.rolling(window=w).mean()] *)
Definition rolling_mean (w : nat) (s : Series) : Series :=
  rolling_apply w (fun win => fdiv (fsum win) (fz (Z.of_nat w))) s.

(** The window of [s.rolling(window=w, center=True)] at position [i]:
    positions [i + 1 + offset - w .. i + offset] with
    [offset = (w - 1) // 2], clipped to the series. *)
Definition centered_window (w i : nat) (s : Series) : list fval :=
  let offset := ((Z.of_nat w - 1) / 2)%Z in
  let stop := (Z.of_nat i + 1 + offset)%Z in
  let start := (stop - Z.of_nat w)%Z in
  let clip z := Z.to_nat (Z.max 0 (Z.min z (Z.of_nat (length s)))) in
  firstn (clip stop - clip start) (skipn (clip start) s).

Definition rolling_center (w : nat) (f : list fval -> fval) (s : Series)
  : Series :=
  map (fun i =>
         let win := centered_window w i s in
         if (length (dropna win) <? w)%nat then NaN else f win)
      (seq 0 (length s)).

Definition rolling_center_max (w : nat) (s : Series) : Series :=
  rolling_center w nanmax s.

Definition rolling_center_min (w : nat) (s : Series) : Series :=
  rolling_center w nanmin s.

(** [s.ewm(span=span, adjust=False).mean()].  [span < 1] raises
    ValueError, modelled by [None].  The running state is the weighted
    average so far and the weight it carries. *)
Definition ewm_step (alpha : Qc) (st : fval * Qc) (cur : fval) : fval * Qc :=
  let '(weighted, old_wt) := st in
  if notna weighted then
    let old_wt := (old_wt * (1 - alpha))%Qc in
    if notna cur then
      let weighted' :=
        if feqb weighted cur then weighted
        else fdiv (fadd (fmul (Fin old_wt) weighted) (fmul (Fin alpha) cur))
                  (Fin (old_wt + alpha)%Qc) in
      (weighted', 1%Qc)
    else (weighted, old_wt)
  else if notna cur then (cur, old_wt)
  else (weighted, old_wt).

Fixpoint ewm_run (alpha : Qc) (st : fval * Qc) (s : Series) : Series :=
  match s with
  | [] => []
  | cur :: r =>
      let st' := ewm_step alpha st cur in
      fst st' :: ewm_run alpha st' r
  end.

Definition ewm_mean (span : nat) (s : Series) : option Series :=
  if (span <? 1)%nat then None
  else
    let alpha := (qz 2 / qz (Z.of_nat span + 1))%Qc in
    match s with
    | [] => Some []
    | x0 :: r => Some (x0 :: ewm_run alpha (x0, 1%Qc) r)
    end.

(** Comparison of two series, giving a boolean mask. *)
Definition gt_mask (a b : Series) : list bool := map2 fgt a b.
Definition lt_mask (a b : Series) : list bool := map2 flt a b.
Definition ge_mask (a b : Series) : list bool := map2 fge a b.
Definition le_mask (a b : Series) : list bool := map2 fle a b.
Definition and_mask (a b : list bool) : list bool := map2 andb a b.

(** [signals[mask] = v] *)
Definition assign_where (signals : list Z) (mask : list bool) (v : Z)
  : list Z :=
  map2 (fun s (m : bool) => if m then v else s) signals mask.

(** [s.where(cond, other)] *)
Definition where_ (s : Series) (cond : fval -> bool) (other : fval) : Series :=
  map (fun x => if cond x then x else other) s.

End Pandas.

(* ================================================================== *)
(** ** analysis_engine.py: class AnalysisEngine *)
(* ================================================================== *)

Module AnalysisEngine.
Import Float Pandas.

(** One row of the OHLCV DataFrame; the index entry is kept as the
    already formatted date.  Prices are finite by construction. *)
Record Bar : Type := mkBar {
  timestamp : String.string;
  Open : Qc;
  High : Qc;
  Low : Qc;
  Close : Qc;
  Volume : Qc
}.

Definition DataFrame := list Bar.

(** [self.df[column]] *)
Definition col (column : Bar -> Qc) (df : DataFrame) : Series :=
  map (fun b => Fin (column b)) df.

Definition bind {A B : Type} (m : option A) (k : A -> option B) : option B :=
  match m with
  | Some a => k a
  | None => None
  end.

Notation "x <- m ;; k" := (bind m (fun x => k))
  (at level 61, m at next level, right associativity).

(** [sma]: [self.df[column].rolling(window=period).mean()] *)
Definition sma (period : nat) (column : Bar -> Qc) (df : DataFrame) : Series :=
  rolling_mean period (col column df).

(** [ema]: [self.df[column].ewm(span=period, adjust=False).mean()] *)
Definition ema (period : nat) (column : Bar -> Qc) (df : DataFrame)
  : option Series :=
  ewm_mean period (col column df).

(** [np.arange(1, period + 1)] *)
Definition arange1 (period : nat) : list Z :=
  map (fun k => Z.of_nat k) (seq 1 period).

(** [np.dot(x, weights)] *)
Definition dot (x : list fval) (weights : list Z) : fval :=
  fsum (map2 fmul x (map fz weights)).

(** [wma]: rolling [np.dot(x, weights) / weights.sum()] *)
Definition wma (period : nat) (column : Bar -> Qc) (df : DataFrame) : Series :=
  let weights := arange1 period in
  rolling_apply period
    (fun x => fdiv (dot x weights) (fz (fold_left Z.add weights 0%Z)))
    (col column df).

Section Rsi.
(** Whether [import ta] succeeded, and what
    [ta.momentum.RSIIndicator(close, window=period).rsi()] returns: the
    third-party package is not part of the repository. *)
Variable TA_AVAILABLE : bool.
Variable RSIIndicator : Series -> nat -> Series.

Definition rsi (period : nat) (df : DataFrame) : Series :=
  if TA_AVAILABLE then RSIIndicator (col Close df) period
  else
    let delta := diff (col Close df) in
    let gain :=
      rolling_mean period (where_ delta (fun d => fgt d (Fin 0)) (Fin 0)) in
    let loss :=
      rolling_mean period
        (map fneg (where_ delta (fun d => flt d (Fin 0)) (Fin 0))) in
    let rs := map2 fdiv gain loss in
    map (fun r => fsub (fz 100) (fdiv (fz 100) (fadd (Fin 1) r))) rs.
End Rsi.

Record Macd : Type := mkMacd {
  macd_line : Series;
  signal_line : Series;
  histogram : Series
}.

Definition macd (fast slow signal : nat) (df : DataFrame) : option Macd :=
  ema_fast <- ema fast Close df ;;
  ema_slow <- ema slow Close df ;;
  let line := map2 fsub ema_fast ema_slow in
  sig <- ewm_mean signal line ;;
  Some (mkMacd line sig (map2 fsub line sig)).

(** [sorted(list(set(levels)))] on finite floats. *)
Fixpoint insert_sorted (x : Qc) (l : list Qc) : list Qc :=
  match l with
  | [] => [x]
  | y :: r => if Qc_leb x y then x :: l else y :: insert_sorted x r
  end.

Definition sorted (l : list Qc) : list Qc := fold_right insert_sorted [] l.

Definition set_list (l : list Qc) : list Qc := nodup Qc_eq_dec l.

(** [((col >= level * 0.98) & (col <= level * 1.02)).sum()]: the two
    products are doubles, the two comparisons give boolean series over
    the bars, and the sum counts the bars where both hold. *)
Definition touches (column : Bar -> Qc) (level : Qc) (df : DataFrame) : nat :=
  let low := fmul64 (Fin level) (literal 98 100) in
  let high := fmul64 (Fin level) (literal 102 100) in
  mask_sum (map2 andb (map (fun x => fge x low) (col column df))
                      (map (fun x => fle x high) (col column df))).

(** One of the two loops of [find_support_resistance]:
    [for i in range(window, len(self.df) - window)] over [column], against
    the centred rolling extreme [ext]. *)
Definition scan_levels (window min_touches : nat) (column : Bar -> Qc)
    (ext : Series) (df : DataFrame) : list Qc :=
  flat_map
    (fun i =>
       match nth_error df i with
       | Some b =>
           if feqb (Fin (column b)) (iloc ext i) then
             let level := column b in
             if (min_touches <=? touches column level df)%nat
             then [level] else []
           else []
       | None => []
       end)
    (seq window (List.length df - window - window)).

Record Levels : Type := mkLevels {
  support : list Qc;
  resistance : list Qc
}.

Definition find_support_resistance (window min_touches : nat) (df : DataFrame)
  : Levels :=
  let highs := rolling_center_max window (col High df) in
  let lows := rolling_center_min window (col Low df) in
  let resistance_levels := scan_levels window min_touches High highs df in
  let support_levels := scan_levels window min_touches Low lows df in
  let resistance_levels := firstn 5 (rev (sorted (set_list resistance_levels))) in
  let support_levels := firstn 5 (sorted (set_list support_levels)) in
  mkLevels support_levels resistance_levels.

(** *** The remaining indicators of the class *)

(** [_validate_data]: the required columns missing from [columns], in
    the order of [required]; a non-empty list is raised as ValueError
    ([inl]). *)
Module Columns.
Import String.

Definition required : list string :=
  ["Open"; "High"; "Low"; "Close"; "Volume"]%string.

Definition _validate_data (columns : list string) : list string + unit :=
  let missing :=
    filter (fun c => negb (existsb (String.eqb c) columns)) required in
  match missing with
  | [] => inr tt
  | _ :: _ => inl missing
  end.

End Columns.

(** [s.rolling(window=w).min()] and [.max()] *)
Definition rolling_min (w : nat) (s : Series) : Series :=
  rolling_apply w nanmin s.

Definition rolling_max (w : nat) (s : Series) : Series :=
  rolling_apply w nanmax s.

Record Stochastic : Type := mkStochastic {
  stoch_k : Series;
  stoch_d : Series
}.

(** [stochastic] *)
Definition stochastic (k_period d_period : nat) (df : DataFrame)
  : Stochastic :=
  let low_min := rolling_min k_period (col Low df) in
  let high_max := rolling_max k_period (col High df) in
  let k_percent :=
    map (fun x => fmul (fz 100) x)
        (map2 fdiv (map2 fsub (col Close df) low_min)
                   (map2 fsub high_max low_min)) in
  let d_percent := rolling_mean d_period k_percent in
  mkStochastic k_percent d_percent.

Record Bands : Type := mkBands {
  upper : Series;
  middle : Series;
  lower : Series
}.

Section Volatility.
Variable sqrt_ : Qc -> Qc.

(** [s.rolling(window=w).std()], with ddof = 1. *)
Definition rolling_std (w : nat) (s : Series) : Series :=
  rolling_apply w (fun win => fsqrt sqrt_ (var win)) s.

(** [bollinger_bands] *)
Definition bollinger_bands (period : nat) (std_dev : Qc) (df : DataFrame)
  : Bands :=
  let sma_ := sma period Close df in
  let std_ := rolling_std period (col Close df) in
  let width := map (fun s => fmul s (Fin std_dev)) std_ in
  mkBands (map2 fadd sma_ width) sma_ (map2 fsub sma_ width).
End Volatility.

(** [ranges.max(axis=1)] over three aligned series: the largest of the
    entries of a row that are not NaN. *)
Fixpoint row_max3 (a b c : Series) : Series :=
  match a, b, c with
  | x :: a', y :: b', z :: c' => nanmax [x; y; z] :: row_max3 a' b' c'
  | _, _, _ => []
  end.

(** The local [true_range] of [atr]. *)
Definition true_range (df : DataFrame) : Series :=
  let prev_close := shift1 (col Close df) in
  let high_low := map2 fsub (col High df) (col Low df) in
  let high_close := map fabs (map2 fsub (col High df) prev_close) in
  let low_close := map fabs (map2 fsub (col Low df) prev_close) in
  row_max3 high_low high_close low_close.

(** [atr] *)
Definition atr (period : nat) (df : DataFrame) : Series :=
  rolling_mean period (true_range df).

(** [volume_sma] *)
Definition volume_sma (period : nat) (df : DataFrame) : Series :=
  rolling_mean period (col Volume df).

(** [np.sign] *)
Definition fsign (x : fval) : fval :=
  match x with
  | Fin q => if Qc_ltb 0 q then fz 1 else if Qc_ltb q 0 then fz (-1) else fz 0
  | PInf => fz 1
  | NInf => fz (-1)
  | NaN => NaN
  end.

(** [s.cumsum()]: a NaN entry stays NaN and does not enter the sum. *)
Fixpoint cumsum_from (acc : fval) (s : Series) : Series :=
  match s with
  | [] => []
  | x :: r =>
      if isnan x then NaN :: cumsum_from acc r
      else let acc' := fadd acc x in acc' :: cumsum_from acc' r
  end.

Definition cumsum (s : Series) : Series := cumsum_from (Fin 0) s.

(** [obv] *)
Definition obv (df : DataFrame) : Series :=
  cumsum (fillna (Fin 0)
            (map2 fmul (map fsign (diff (col Close df))) (col Volume df))).

Record Patterns : Type := mkPatterns {
  doji : list nat;
  hammer : list nat;
  engulfing_bullish : list nat;
  engulfing_bearish : list nat
}.

Definition qabs (x : Qc) : Qc := if Qc_ltb x 0 then (- x)%Qc else x.

(** Python's [max(a, b)] and [min(a, b)] on two floats. *)
Definition qmax (a b : Qc) : Qc := if Qc_ltb a b then b else a.
Definition qmin (a b : Qc) : Qc := if Qc_ltb b a then b else a.

(** Body of the loop of [detect_patterns] at bar [i], with the previous
    bar [p] and the current bar [b]. *)
Definition pattern_step (p b : Bar) (i : nat) (patterns : Patterns)
  : Patterns :=
  let open_price := Open b in
  let close_price := Close b in
  let high_price := High b in
  let low_price := Low b in
  let body := qabs (close_price - open_price) in
  let upper_shadow := (high_price - qmax open_price close_price)%Qc in
  let lower_shadow := (qmin open_price close_price - low_price)%Qc in
  let total_range := (high_price - low_price)%Qc in
  let patterns :=
    if Qc_ltb 0 total_range && Qc_ltb (body / total_range) (qfrac 1 10)
    then mkPatterns (doji patterns ++ [i]) (hammer patterns)
           (engulfing_bullish patterns) (engulfing_bearish patterns)
    else patterns in
  let patterns :=
    if Qc_ltb (qz 2 * body) lower_shadow && Qc_ltb upper_shadow body
       && Qc_ltb open_price close_price
    then mkPatterns (doji patterns) (hammer patterns ++ [i])
           (engulfing_bullish patterns) (engulfing_bearish patterns)
    else patterns in
  if (0 <? i)%nat then
    let prev_open := Open p in
    let prev_close := Close p in
    let patterns :=
      if Qc_ltb prev_close prev_open && Qc_ltb open_price close_price
         && Qc_ltb open_price prev_close && Qc_ltb prev_open close_price
      then mkPatterns (doji patterns) (hammer patterns)
             (engulfing_bullish patterns ++ [i]) (engulfing_bearish patterns)
      else patterns in
    if Qc_ltb prev_open prev_close && Qc_ltb close_price open_price
       && Qc_ltb prev_close open_price && Qc_ltb close_price prev_open
    then mkPatterns (doji patterns) (hammer patterns)
           (engulfing_bullish patterns) (engulfing_bearish patterns ++ [i])
    else patterns
  else patterns.

(** [detect_patterns]: [for i in range(1, len(self.df))]. *)
Definition detect_patterns (df : DataFrame) : Patterns :=
  fold_left
    (fun patterns i =>
       match nth_error df (i - 1), nth_error df i with
       | Some p, Some b => pattern_step p b i patterns
       | _, _ => patterns
       end)
    (seq 1 (List.length df - 1))
    (mkPatterns [] [] [] []).

Record Statistics : Type := mkStatistics {
  mean_return : fval;
  std_return : fval;
  sharpe_ratio : fval;
  max_gain : fval;
  max_loss : fval;
  volatility : fval;
  current_price : fval;
  price_change_pct : fval
}.

Record Indicators : Type := mkIndicators {
  ind_rsi : option fval;
  ind_sma_20 : option fval;
  ind_sma_50 : option fval
}.

Record Summary : Type := mkSummary {
  statistics : Statistics;
  support_resistance : Levels;
  patterns : Patterns;
  indicators : Indicators
}.

(** [s.iloc[-1]] and [s.iloc[0]]; IndexError ([None]) on an empty
    series. *)
Definition iloc_end (s : Series) : option fval :=
  match s with
  | [] => None
  | _ :: _ => Some (last s NaN)
  end.

Definition iloc_first (s : Series) : option fval :=
  match s with
  | [] => None
  | x :: _ => Some x
  end.

Section Summary.
Variable sqrt_ : Qc -> Qc.
Variable TA_AVAILABLE : bool.
Variable RSIIndicator : Series -> nat -> Series.

(** [calculate_statistics]; [None] is the IndexError of
    [self.df['Close'].iloc[-1]] on an empty history. *)
Definition calculate_statistics (df : DataFrame) : option Statistics :=
  let returns := dropna (pct_change (col Close df)) in
  let sharpe :=
    if fgt (std sqrt_ returns) (Fin 0)
    then fmul (fdiv (mean returns) (std sqrt_ returns))
              (Fin (sqrt_ (qz 252)))
    else Fin 0 in
  last_close <- iloc_end (col Close df) ;;
  first_close <- iloc_first (col Close df) ;;
  Some (mkStatistics (mean returns) (std sqrt_ returns) sharpe
          (nanmax returns) (nanmin returns)
          (fmul (std sqrt_ returns) (Fin (sqrt_ (qz 252))))
          last_close
          (fmul (fdiv (fsub last_close first_close) first_close) (fz 100))).

(** [get_summary] *)
Definition get_summary (df : DataFrame) : option Summary :=
  stats <- calculate_statistics df ;;
  let levels := find_support_resistance 5 2 df in
  let pats := detect_patterns df in
  rsi_last <-
    (if (14 <=? List.length df)%nat
     then option_map Some
            (iloc_end (rsi TA_AVAILABLE RSIIndicator 14 df))
     else Some None) ;;
  sma_20 <-
    (if (20 <=? List.length df)%nat
     then option_map Some (iloc_end (sma 20 Close df))
     else Some None) ;;
  sma_50 <-
    (if (50 <=? List.length df)%nat
     then option_map Some (iloc_end (sma 50 Close df))
     else Some None) ;;
  Some (mkSummary stats levels pats (mkIndicators rsi_last sma_20 sma_50)).
End Summary.

End AnalysisEngine.

(* ================================================================== *)
(** ** backtest_engine.py: class BacktestEngine *)
(* ================================================================== *)

Module BacktestEngine.
Import Float Pandas AnalysisEngine.

(** One entry of [trades_detail]. *)
Record Trade : Type := mkTrade {
  trade_number : nat;
  entry_date : String.string;
  exit_date : String.string;
  entry_price : fval;
  exit_price : fval;
  entry_idx : nat;
  exit_idx : nat;
  pnl_pct : fval;
  pnl_amount : fval;
  duration_periods : nat;
  win : bool
}.

(** The loop variables [in_position], [entry_idx], [entry_price_val] and
    [entry_date] of [_calculate_trades]: the last three are assigned
    together with [in_position = True] and read only while it holds. *)
Inductive Position : Type :=
  | FLAT
  | LONG (entry_idx : nat) (entry_price_val : fval) (entry_date : String.string).

Definition in_position (p : Position) : bool :=
  match p with FLAT => false | LONG _ _ _ => true end.

(** The dictionary returned by [simple_backtest]. *)
Record Result : Type := mkResult {
  total_return_pct : fval;
  sharpe : fval;
  max_dd_pct : fval;
  trades : nat;
  win_rate_pct : fval;
  equity_curve : Series;
  returns : Series;
  trades_detail : list Trade;
  final_equity : fval;
  avg_win_pct : fval;
  avg_loss_pct : fval;
  largest_win_pct : fval;
  largest_loss_pct : fval;
  winning_trades : nat;
  losing_trades : nat
}.

(** [s.iloc[-1]]; IndexError on an empty series. *)
Definition iloc_last (s : Series) : option fval :=
  match s with
  | [] => None
  | _ :: _ => Some (last s NaN)
  end.

Section Engine.
(** [np.sqrt], and the two attributes of [self]. *)
Variable sqrt_ : Qc -> Qc.
Variable df : DataFrame.
Variable initial_capital : Qc.

Definition index_at (i : nat) : String.string :=
  nth i (map timestamp df) String.EmptyString.

(** Body of the loop of [_calculate_trades] at bar [i].  The figures
    of a record are the exact values rounded by [round2]. *)
Definition trade_step (positions entry_price exit_price : Series)
    (st : list Trade * Position) (i : nat) : list Trade * Position :=
  let '(trades, position) := st in
  if feqb (iloc positions i) (fz 1) && negb (in_position position) then
    (trades, LONG i (iloc entry_price i) (index_at i))
  else if feqb (iloc positions i) (fz (-1)) && in_position position then
    match position with
    | LONG entry_idx entry_price_val entry_date =>
        let exit_price_val := iloc exit_price i in
        let exit_date := index_at i in
        let pnl :=
          fmul (fdiv (fsub exit_price_val entry_price_val) entry_price_val)
               (fz 100) in
        let pnl_amount := fsub exit_price_val entry_price_val in
        let duration := (i - entry_idx)%nat in
        (trades ++
           [mkTrade (List.length trades + 1) entry_date exit_date
              (round2 entry_price_val) (round2 exit_price_val)
              entry_idx i (round2 pnl) (round2 pnl_amount) duration
              (fgt pnl (Fin 0))],
         FLAT)
    | FLAT => st
    end
  else st.

Definition _calculate_trades (positions entry_price exit_price : Series)
  : list Trade :=
  fst (fold_left (trade_step positions entry_price exit_price)
         (seq 0 (List.length positions)) ([], FLAT)).

Definition _calculate_sharpe (returns : Series) (risk_free_rate : fval)
  : fval :=
  if (List.length returns =? 0)%nat || feqb (std sqrt_ returns) (Fin 0)
  then Fin 0
  else
    let excess_returns :=
      map (fun r => fsub r (fdiv risk_free_rate (fz 252))) returns in
    fdiv (fmul (Fin (sqrt_ (qz 252))) (mean excess_returns))
         (std sqrt_ returns).

Definition _calculate_max_drawdown (equity : Series) : fval :=
  if (List.length equity =? 0)%nat then Fin 0
  else
    let running_max := expanding_max equity in
    let drawdown :=
      map2 (fun e m => fmul (fdiv (fsub e m) m) (fz 100))
           equity running_max in
    fabs (nanmin drawdown).

Definition _calculate_win_rate (trades : list Trade) : fval :=
  if (List.length trades =? 0)%nat then Fin 0
  else
    let wins := List.length (filter win trades) in
    fmul (fdiv (fz (Z.of_nat wins)) (fz (Z.of_nat (List.length trades))))
         (fz 100).

(** [positions = signals.replace(0, np.nan).ffill().fillna(0)] *)
Definition positions_of (signals : list Z) : Series :=
  fillna (Fin 0) (ffill (replace_zero_nan signals)).

(** The local variables [strategy_returns] and [equity] of
    [simple_backtest]. *)
Definition strategy_returns_of (signals : list Z) (exit_price : Series)
  : Series :=
  let positions := positions_of signals in
  let returns := pct_change exit_price in
  map2 fmul (shift1 positions) returns.

Definition equity_of (signals : list Z) (exit_price : Series) : Series :=
  map (fun x => fmul x (Fin initial_capital))
      (cumprod (map (fun r => fadd (Fin 1) r)
                    (strategy_returns_of signals exit_price))).

(** The block headed "Calculate additional trade statistics":
    [(avg_win, avg_loss, largest_win, largest_loss)]. *)
Definition trade_statistics (trades : list Trade)
  : fval * fval * fval * fval :=
  let winning_trades := filter win trades in
  let losing_trades := filter (fun t => negb (win t)) trades in
  match trades with
  | _ :: _ =>
      (match winning_trades with
       | _ :: _ =>
           fdiv (fsum (map pnl_pct winning_trades))
                (fz (Z.of_nat (List.length winning_trades)))
       | [] => Fin 0
       end,
       match losing_trades with
       | _ :: _ =>
           fdiv (fsum (map pnl_pct losing_trades))
                (fz (Z.of_nat (List.length losing_trades)))
       | [] => Fin 0
       end,
       py_max (map pnl_pct trades) (Fin 0),
       py_min (map pnl_pct trades) (Fin 0))
  | [] => (Fin 0, Fin 0, Fin 0, Fin 0)
  end.

(** [simple_backtest].  [signals] is indexed like [self.df] (every
    caller builds it with [index=self.df.index]).  [None] stands for
    the IndexError of [equity.iloc[-1]] on an empty history. *)
Definition simple_backtest (signals : list Z)
    (entry_price exit_price : option Series) : option Result :=
  let entry_price :=
    match entry_price with None => col Close df | Some p => p end in
  let exit_price :=
    match exit_price with None => col Close df | Some p => p end in
  let positions := positions_of signals in
  let strategy_returns := strategy_returns_of signals exit_price in
  let equity := equity_of signals exit_price in
  match iloc_last equity with
  | None => None
  | Some final =>
      let total_return :=
        fmul (fsub (fdiv final (Fin initial_capital)) (Fin 1)) (fz 100) in
      let total_return_pct := total_return in
      let trades := _calculate_trades positions entry_price exit_price in
      let sharpe := _calculate_sharpe strategy_returns (Fin 0) in
      let max_drawdown := _calculate_max_drawdown equity in
      let win_rate := _calculate_win_rate trades in
      let winning_trades := filter win trades in
      let losing_trades := filter (fun t => negb (win t)) trades in
      let '(avg_win, avg_loss, largest_win, largest_loss) :=
        trade_statistics trades in
      Some
        (mkResult total_return_pct sharpe max_drawdown
           (List.length trades) win_rate equity strategy_returns trades
           final (round2 avg_win) (round2 avg_loss) (round2 largest_win)
           (round2 largest_loss)
           (match trades with
            | _ :: _ => List.length winning_trades | [] => 0%nat end)
           (match trades with
            | _ :: _ => List.length losing_trades | [] => 0%nat end))
  end.

(** The signal series built by [sma_crossover_backtest] (the first,
    level-based assignment to [signals] is overwritten before use). *)
Definition sma_crossover_signals (fast_period slow_period : nat) : list Z :=
  let fast_sma := sma fast_period Close df in
  let slow_sma := sma slow_period Close df in
  let crossover_up :=
    and_mask (gt_mask fast_sma slow_sma)
             (le_mask (shift1 fast_sma) (shift1 slow_sma)) in
  let crossover_down :=
    and_mask (lt_mask fast_sma slow_sma)
             (ge_mask (shift1 fast_sma) (shift1 slow_sma)) in
  let signals := repeat 0%Z (List.length df) in
  let signals := assign_where signals crossover_up 1%Z in
  let signals := assign_where signals crossover_down (-1)%Z in
  signals.

Definition sma_crossover_backtest (fast_period slow_period : nat)
  : option Result :=
  simple_backtest (sma_crossover_signals fast_period slow_period) None None.

(** The signal series built by [macd_crossover_backtest]; [None] when
    [macd] raises. *)
Definition macd_crossover_signals (fast slow signal : nat)
  : option (list Z) :=
  macd_data <- macd fast slow signal df ;;
  let macd_line := macd_line macd_data in
  let signal_line := signal_line macd_data in
  let signals := repeat 0%Z (List.length df) in
  let bullish_cross :=
    and_mask (gt_mask macd_line signal_line)
             (le_mask (shift1 macd_line) (shift1 signal_line)) in
  let bearish_cross :=
    and_mask (lt_mask macd_line signal_line)
             (ge_mask (shift1 macd_line) (shift1 signal_line)) in
  let signals := assign_where signals bullish_cross 1%Z in
  let signals := assign_where signals bearish_cross (-1)%Z in
  Some signals.

Definition macd_crossover_backtest (fast slow signal : nat)
  : option Result :=
  signals <- macd_crossover_signals fast slow signal ;;
  simple_backtest signals None None.

End Engine.

Section Strategies.
Variable sqrt_ : Qc -> Qc.
Variable TA_AVAILABLE : bool.
Variable RSIIndicator : Series -> nat -> Series.
Variable df : DataFrame.
Variable initial_capital : Qc.

(** The signal series built by [rsi_strategy_backtest]; the RSI series
    is indexed like [self.df]. *)
Definition rsi_strategy_signals (rsi_period : nat)
    (oversold overbought : Qc) : list Z :=
  let rsi_ := rsi TA_AVAILABLE RSIIndicator rsi_period df in
  let signals := repeat 0%Z (List.length df) in
  let signals :=
    assign_where signals (map (fun x => flt x (Fin oversold)) rsi_) 1%Z in
  let signals :=
    assign_where signals (map (fun x => fgt x (Fin overbought)) rsi_)
      (-1)%Z in
  signals.

Definition rsi_strategy_backtest (rsi_period : nat)
    (oversold overbought : Qc) : option Result :=
  simple_backtest sqrt_ df initial_capital
    (rsi_strategy_signals rsi_period oversold overbought) None None.

(** [signals.iloc[i] = v] for [i] in range. *)
Fixpoint iloc_set (signals : list Z) (i : nat) (v : Z) : list Z :=
  match signals, i with
  | [], _ => []
  | _ :: r, O => v :: r
  | x :: r, S j => x :: iloc_set r j v
  end.

(** Body of the loop of [custom_strategy_backtest] at bar [i]; the two
    conditions are the caller's functions of the data and the bar. *)
Definition custom_step (entry_condition exit_condition
                          : DataFrame -> nat -> bool)
    (st : list Z * Z) (i : nat) : list Z * Z :=
  let '(signals, position) := st in
  if (position =? 0)%Z && entry_condition df i then
    (iloc_set signals i 1%Z, 1%Z)
  else if (position =? 1)%Z && exit_condition df i then
    (iloc_set signals i (-1)%Z, 0%Z)
  else st.

(** The signal series built by [custom_strategy_backtest]:
    [for i in range(1, len(self.df))]. *)
Definition custom_strategy_signals (entry_condition exit_condition
                                      : DataFrame -> nat -> bool)
  : list Z :=
  fst (fold_left (custom_step entry_condition exit_condition)
         (seq 1 (List.length df - 1))
         (repeat 0%Z (List.length df), 0%Z)).

Definition custom_strategy_backtest (entry_condition exit_condition
                                       : DataFrame -> nat -> bool)
  : option Result :=
  simple_backtest sqrt_ df initial_capital
    (custom_strategy_signals entry_condition exit_condition) None None.
End Strategies.

End BacktestEngine.

(* ================================================================== *)
(** ** Vocabulary of the properties *)
(* ================================================================== *)

Module Spec.
Import Float Pandas AnalysisEngine BacktestEngine.

(** *** Crossover signals *)

(** The mask construction that [sma_crossover_backtest] and
    [macd_crossover_backtest] both spell out, over two series [A] and [B]
    of [n] bars. *)
Definition crossover (A B : Series) (n : nat) : list Z :=
  let up := and_mask (gt_mask A B) (le_mask (shift1 A) (shift1 B)) in
  let down := and_mask (lt_mask A B) (ge_mask (shift1 A) (shift1 B)) in
  assign_where (assign_where (repeat 0%Z n) up 1%Z) down (-1)%Z.

(** Upward transition at bar [i]: [A[i] > B[i]] and [A[i-1] <= B[i-1]]. *)
Definition entry_at (A B : Series) (i : nat) : bool :=
  (1 <=? i)%nat && fgt (iloc A i) (iloc B i)
  && fle (iloc A (i - 1)) (iloc B (i - 1)).

(** Downward transition at bar [i]: [A[i] < B[i]] and [A[i-1] >= B[i-1]]. *)
Definition exit_at (A B : Series) (i : nat) : bool :=
  (1 <=? i)%nat && flt (iloc A i) (iloc B i)
  && fge (iloc A (i - 1)) (iloc B (i - 1)).

(** The two series are comparable and different at bar [j]. *)
Definition apart (A B : Series) (j : nat) : bool :=
  flt (iloc A j) (iloc B j) || flt (iloc B j) (iloc A j).

(** What a signal series has to satisfy against [A] and [B]. *)
Definition crossover_exact (A B : Series) (signals : list Z) : Prop :=
  forall i,
    (nth i signals 0%Z = 1%Z <-> entry_at A B i = true) /\
    (nth i signals 0%Z = (-1)%Z <-> exit_at A B i = true) /\
    (nth i signals 0%Z = 0%Z
     <-> entry_at A B i = false /\ exit_at A B i = false).

(** Between two signals of one direction the series are, at some bar,
    not on the side the signals cross to; and when they never touch in
    between, the opposite signal occurs in between. *)
Definition crossover_alternates (A B : Series) (signals : list Z) : Prop :=
  forall i k, (i < k)%nat ->
    (nth i signals 0%Z = 1%Z -> nth k signals 0%Z = 1%Z ->
       (exists j, (i < j < k)%nat /\ fle (iloc A j) (iloc B j) = true) /\
       ((forall j, (i < j < k)%nat -> apart A B j = true) ->
        exists j, (i < j < k)%nat /\ nth j signals 0%Z = (-1)%Z)) /\
    (nth i signals 0%Z = (-1)%Z -> nth k signals 0%Z = (-1)%Z ->
       (exists j, (i < j < k)%nat /\ fge (iloc A j) (iloc B j) = true) /\
       ((forall j, (i < j < k)%nat -> apart A B j = true) ->
        exists j, (i < j < k)%nat /\ nth j signals 0%Z = 1%Z)).

(** *** RSI by simple rolling means, in the words of the specification *)

Definition price_at (c : list Qc) (j : nat) : Qc := nth j c 0%Qc.

(** Positive part of the close-to-close change into bar [j]; the first bar
    has no change. *)
Definition up_move (c : list Qc) (j : nat) : Qc :=
  match j with
  | O => 0%Qc
  | S j' =>
      let d := (price_at c j - price_at c j')%Qc in
      if Qc_ltb 0 d then d else 0%Qc
  end.

(** Magnitude of the negative part. *)
Definition down_move (c : list Qc) (j : nat) : Qc :=
  match j with
  | O => 0%Qc
  | S j' =>
      let d := (price_at c j - price_at c j')%Qc in
      if Qc_ltb d 0 then (- d)%Qc else 0%Qc
  end.

Definition qsum (l : list Qc) : Qc := fold_left Qcplus l 0%Qc.

(** Arithmetic mean of [f] over the [period] bars ending at bar [i]. *)
Definition simple_mean (f : nat -> Qc) (period i : nat) : Qc :=
  (qsum (map f (seq (S i - period) period)) / qz (Z.of_nat period))%Qc.

Definition rsi_simple (period : nat) (c : list Qc) (i : nat) : fval :=
  if (S i <? period)%nat then NaN
  else
    let ratio :=
      fdiv (Fin (simple_mean (up_move c) period i))
           (Fin (simple_mean (down_move c) period i)) in
    fsub (fz 100) (fdiv (fz 100) (fadd (Fin 1) ratio)).

(** The RSI of the third-party [ta] package, which is not part of the
    repository: Wilder smoothing, that is an exponential average of the
    gains and of the losses with [alpha = 1 / window], undefined for the
    first [window - 1] bars, and 100 where the average loss is zero. *)
Definition mask_prefix (k : nat) (s : Series) : Series :=
  repeat NaN (Nat.min k (List.length s)) ++ skipn k s.

Definition RSIIndicator_wilder (close : Series) (window : nat) : Series :=
  let d := diff close in
  let up := where_ d (fun x => fgt x (Fin 0)) (Fin 0) in
  let dn := map fneg (where_ d (fun x => flt x (Fin 0)) (Fin 0)) in
  match ewm_mean (2 * window - 1) up, ewm_mean (2 * window - 1) dn with
  | Some emaup, Some emadn =>
      let emaup := mask_prefix (window - 1) emaup in
      let emadn := mask_prefix (window - 1) emadn in
      map2 (fun u n =>
              if feqb n (Fin 0) then fz 100
              else fsub (fz 100) (fdiv (fz 100) (fadd (Fin 1) (fdiv u n))))
           emaup emadn
  | _, _ => []
  end.

(** *** Support and resistance *)

(** The detection as the specification words it: the centred rolling
    extreme is taken over [2 * window + 1] bars. *)
Definition find_support_resistance_2w1 (window min_touches : nat)
    (df : DataFrame) : Levels :=
  let highs := rolling_center_max (2 * window + 1) (col High df) in
  let lows := rolling_center_min (2 * window + 1) (col Low df) in
  mkLevels
    (firstn 5 (sorted (set_list
       (scan_levels window min_touches Low lows df))))
    (firstn 5 (rev (sorted (set_list
       (scan_levels window min_touches High highs df))))).

(** First and last bar of the centred window of [window] bars at bar [i]. *)
Definition window_lo (window i : nat) : nat :=
  (i - (window - 1 - (window - 1) / 2))%nat.

Definition window_hi (window i : nat) : nat := (i + (window - 1) / 2)%nat.

(** [x] lies within 2% of [level]: not below the double [level * 0.98]
    and not above the double [level * 1.02]. *)
Definition within_2pct (level x : Qc) : Prop :=
  fle (fmul64 (Fin level) (literal 98 100)) (Fin x) = true /\
  fle (Fin x) (fmul64 (Fin level) (literal 102 100)) = true.

(** At least [n] bars of the history have their [column] value within 2%
    of [level]. *)
Definition touched_by (n : nat) (column : Bar -> Qc) (level : Qc)
    (df : DataFrame) : Prop :=
  exists bars : list nat,
    NoDup bars /\ (n <= List.length bars)%nat /\
    forall j, In j bars ->
      exists b, nth_error df j = Some b /\ within_2pct level (column b).

(** [l] is the [column] value of an interior bar that is extreme (for the
    order [le]) among the bars of its centred window and is touched by at
    least [min_touches] bars. *)
Definition level_of (le : Qc -> Qc -> Prop) (column : Bar -> Qc)
    (window min_touches : nat) (df : DataFrame) (l : Qc) : Prop :=
  exists i b,
    (window <= i < List.length df - window)%nat /\
    nth_error df i = Some b /\ column b = l /\
    (forall j b', (window_lo window i <= j <= window_hi window i)%nat ->
                  nth_error df j = Some b' -> le (column b') l) /\
    touched_by min_touches column l df.

Definition resistance_level := level_of Qcle High.
Definition support_level := level_of (fun x y => Qcle y x) Low.

(** [out] holds the (at most five) first elements, in the strict order
    [before], of the levels satisfying [P]. *)
Definition first_five (before : Qc -> Qc -> Prop) (P : Qc -> Prop)
    (out : list Qc) : Prop :=
  (List.length out <= 5)%nat /\
  StronglySorted before out /\
  (forall l, In l out -> P l) /\
  (forall l, P l -> In l out \/
     (List.length out = 5%nat /\ forall x, In x out -> before x l)).

(** *** Trades against the signal stream *)

Definition close_at (df : DataFrame) (i : nat) : fval := iloc (col Close df) i.

(** Percent change of the equity curve between two bars. *)
Definition equity_change_pct (equity : Series) (i j : nat) : fval :=
  fmul (fsub (fdiv (iloc equity j) (iloc equity i)) (Fin 1)) (fz 100).

(** A figure [r] reported for the value [x], which the code rounds to
    two decimals: [r] is less than one cent away from [x]; a value that
    is not finite is reported as it is. *)
Definition within_a_cent (x r : fval) : Prop :=
  match x, r with
  | Fin q, Fin p => (q - qfrac 1 100 < p)%Qc /\ (p < q + qfrac 1 100)%Qc
  | _, _ => r = x
  end.

(** The trade enters on a bar with a signal 1, exits on a later bar with
    a signal -1, and reports the closes of these two bars. *)
Definition trade_on_signal_bars (df : DataFrame) (signals : list Z)
    (t : Trade) : Prop :=
  (entry_idx t < exit_idx t < List.length df)%nat /\
  nth (entry_idx t) signals 0%Z = 1%Z /\
  nth (exit_idx t) signals 0%Z = (-1)%Z /\
  within_a_cent (close_at df (entry_idx t)) (entry_price t) /\
  within_a_cent (close_at df (exit_idx t)) (exit_price t).

(** The value of the account at a bar: the equity curve, and the initial
    capital at bar 0, where the curve has no value. *)
Definition account_at (cap : Qc) (equity : Series) (i : nat) : fval :=
  match i with
  | O => Fin cap
  | S _ => iloc equity i
  end.

(** From the entry bar of the trade to its exit bar the account changes
    by the percentage [p] between the closes of the two bars, and [p] is
    the percentage the trade reports. *)
Definition trade_matches_equity (df : DataFrame) (cap : Qc)
    (equity : Series) (t : Trade) : Prop :=
  exists a p : Qc,
    account_at cap equity (entry_idx t) = Fin a /\
    fmul (fdiv (fsub (close_at df (exit_idx t)) (close_at df (entry_idx t)))
               (close_at df (entry_idx t)))
         (fz 100) = Fin p /\
    iloc equity (exit_idx t) = Fin (a + a * p / qz 100) /\
    within_a_cent (Fin p) (pnl_pct t).

(** State of the loop of [_calculate_trades] after the bars before [n]. *)
Definition trades_after (df : DataFrame) (P EP XP : Series) (n : nat)
  : list Trade * Position :=
  fold_left (trade_step df P EP XP) (seq 0 n) ([], FLAT).

(** The loop invariant of [_calculate_trades] after the bars before [n]:
    what each recorded trade and the open position say about the position
    series [P] and the price series [EP] and [XP]. *)
Definition trade_from_positions (P EP XP : Series) (n : nat) (t : Trade)
  : Prop :=
  (entry_idx t < exit_idx t < n)%nat /\
  feqb (iloc P (entry_idx t)) (fz 1) = true /\
  (entry_idx t = 0%nat \/ feqb (iloc P (entry_idx t - 1)) (fz 1) = false) /\
  feqb (iloc P (exit_idx t)) (fz (-1)) = true /\
  feqb (iloc P (exit_idx t - 1)) (fz (-1)) = false /\
  entry_price t = round2 (iloc EP (entry_idx t)) /\
  exit_price t = round2 (iloc XP (exit_idx t)) /\
  pnl_pct t =
    round2 (fmul (fdiv (fsub (iloc XP (exit_idx t)) (iloc EP (entry_idx t)))
                       (iloc EP (entry_idx t)))
                 (fz 100)).

Definition position_consistent (P EP : Series) (n : nat) (pos : Position)
  : Prop :=
  match pos with
  | FLAT => n = 0%nat \/ feqb (iloc P (n - 1)) (fz 1) = false
  | LONG e p _ =>
      (e < n)%nat /\ feqb (iloc P e) (fz 1) = true /\
      (e = 0%nat \/ feqb (iloc P (e - 1)) (fz 1) = false) /\
      p = iloc EP e /\
      feqb (iloc P (n - 1)) (fz (-1)) = false
  end.

End Spec.

(* ================================================================== *)
(** ** Small price histories used as concrete inputs *)
(* ================================================================== *)

Module Examples.
Import Float Pandas AnalysisEngine.

(** A bar whose open, high, low and close are all [c]. *)
Definition flat_bar (c : Qc) : Bar :=
  mkBar String.EmptyString c c c c (qz 0).

(** Histories of such bars, from integer and from rational closes. *)
Definition history (closes : list Z) : DataFrame :=
  map (fun z => flat_bar (qz z)) closes.

Definition history_q (closes : list Qc) : DataFrame := map flat_bar closes.

(** Stands for [np.sqrt] in concrete runs whose checked fields do not
    depend on it (it maps 0 to 0, as a square root does). *)
Definition ident (q : Qc) : Qc := q.

End Examples.

(* ================================================================== *)
(** ** Vocabulary of the further properties *)
(* ================================================================== *)

Module Props.
Import Float Pandas AnalysisEngine BacktestEngine Spec.

(** *** The trade log *)

(** The entry and exit bars a state machine driven by the raw signals
    produces from bar [i] on: flat until a signal 1, long until a signal
    -1; a 1 while long, a -1 while flat and any other value change
    nothing.  [held] is the entry bar while long. *)
Fixpoint round_trips_from (i : nat) (held : option nat) (signals : list Z)
  : list (nat * nat) :=
  match signals with
  | [] => []
  | z :: rest =>
      match held with
      | None =>
          if (z =? 1)%Z then round_trips_from (S i) (Some i) rest
          else round_trips_from (S i) None rest
      | Some e =>
          if (z =? -1)%Z then (e, i) :: round_trips_from (S i) None rest
          else round_trips_from (S i) (Some e) rest
      end
  end.

Definition round_trips (signals : list Z) : list (nat * nat) :=
  round_trips_from 0 None signals.

Definition trade_bars (t : Trade) : nat * nat := (entry_idx t, exit_idx t).

(** The series a price argument of [simple_backtest] stands for. *)
Definition price_or_close (df : DataFrame) (p : option Series) : Series :=
  match p with None => col Close df | Some s => s end.

(** A pair of bars against the signals: a signal 1 at the first, a
    signal -1 at the second, and no signal -1 in between. *)
Definition first_exit_after (signals : list Z) (t : nat * nat) : Prop :=
  (fst t < snd t < List.length signals)%nat /\
  nth (fst t) signals 0%Z = 1%Z /\
  nth (snd t) signals 0%Z = (-1)%Z /\
  forall j, (fst t < j < snd t)%nat -> nth j signals 0%Z <> (-1)%Z.

(** A trade against two series [A] and [B]: entered where [A] crosses
    above [B], left at the first bar after it where [A] crosses below. *)
Definition between_crossings (A B : Series) (t : Trade) : Prop :=
  (entry_idx t < exit_idx t)%nat /\
  entry_at A B (entry_idx t) = true /\
  exit_at A B (exit_idx t) = true /\
  forall j, (entry_idx t < j < exit_idx t)%nat -> exit_at A B j = false.

(** The equity of a single purchase at bar [k] that is never sold. *)
Definition hold_value (cap : Qc) (closes : list Qc) (k i : nat) : Qc :=
  if (i <=? k)%nat then cap
  else (cap * price_at closes i / price_at closes k)%Qc.

Definition held_bar (p : Position) : option nat :=
  match p with
  | FLAT => None
  | LONG e _ _ => Some e
  end.

(** What one record of the trade log tells, against the two price series
    [EP] and [XP] it was built from: its duration, the prices at its two
    bars, the percentage and the amount between them, each figure
    within a cent, and the sign of the percentage as the win flag. *)
Definition record_of_bars (EP XP : Series) (t : Trade) : Prop :=
  let pnl :=
    fmul (fdiv (fsub (iloc XP (exit_idx t)) (iloc EP (entry_idx t)))
               (iloc EP (entry_idx t)))
         (fz 100) in
  (entry_idx t < exit_idx t)%nat /\
  duration_periods t = (exit_idx t - entry_idx t)%nat /\
  within_a_cent (iloc EP (entry_idx t)) (entry_price t) /\
  within_a_cent (iloc XP (exit_idx t)) (exit_price t) /\
  within_a_cent pnl (pnl_pct t) /\
  within_a_cent (fsub (iloc XP (exit_idx t)) (iloc EP (entry_idx t)))
                (pnl_amount t) /\
  win t = fgt pnl (Fin 0).

(** The same record in the exact arithmetic of the model, where each
    figure is the exact value rounded to two decimals, ties to even. *)
Definition trade_record (EP XP : Series) (t : Trade) : Prop :=
  let pnl :=
    fmul (fdiv (fsub (iloc XP (exit_idx t)) (iloc EP (entry_idx t)))
               (iloc EP (entry_idx t)))
         (fz 100) in
  (entry_idx t < exit_idx t)%nat /\
  duration_periods t = (exit_idx t - entry_idx t)%nat /\
  entry_price t = round2 (iloc EP (entry_idx t)) /\
  exit_price t = round2 (iloc XP (exit_idx t)) /\
  pnl_pct t = round2 pnl /\
  pnl_amount t =
    round2 (fsub (iloc XP (exit_idx t)) (iloc EP (entry_idx t))) /\
  win t = fgt pnl (Fin 0).

(** A trade whose (rounded) percentage is finite and has the sign its
    win flag tells. *)
Definition signed_trade (t : Trade) : Prop :=
  exists p, pnl_pct t = Fin p /\
            (win t = true -> (0 <= p)%Qc) /\
            (win t = false -> (p <= 0)%Qc).

(** Trades are numbered from 1 in the order of the log, and each one
    starts after the one before it has ended. *)
Definition trades_in_sequence (T : list Trade) : Prop :=
  map trade_number T = seq 1 (List.length T) /\
  StronglySorted (fun t t' => (exit_idx t < entry_idx t')%nat) T.

(** Invariant of the loop of [_calculate_trades] after the bars before
    [n], on the records and their order. *)
Definition log_invariant (EP XP : Series) (n : nat)
    (st : list Trade * Position) : Prop :=
  Forall (trade_record EP XP) (fst st) /\
  trades_in_sequence (fst st) /\
  Forall (fun t => (exit_idx t < n)%nat) (fst st) /\
  match snd st with
  | FLAT => True
  | LONG e p _ =>
      (e < n)%nat /\ p = iloc EP e /\
      Forall (fun t => (exit_idx t < e)%nat) (fst st)
  end.

(** *** Ranges *)

(** [x] lies between [lo] and [hi]. *)
Definition within (lo hi : Qc) (x : Qc) : Prop := (lo <= x <= hi)%Qc.

(** A series entry is undefined or a finite value between [lo] and [hi]. *)
Definition nan_or_within (lo hi : Qc) (x : fval) : Prop :=
  x = NaN \/ exists q, x = Fin q /\ within lo hi q.

(** *** Bollinger bands *)

(** The sample variance (divisor [period - 1]) of the prices [c] of the
    [period] bars ending at bar [i]: the squared distances of these
    prices from their mean, summed and divided. *)
Definition window_variance (c : list Qc) (period i : nat) : Qc :=
  let m := simple_mean (price_at c) period i in
  (qsum (map (fun j => (price_at c j - m) * (price_at c j - m))
             (seq (S i - period) period))
   / qz (Z.of_nat period - 1))%Qc.

(** *** Exponential average *)

(** The smoothing factor of [ewm(span=span)]: 2 / (span + 1). *)
Definition smoothing (span : nat) : Qc := (qz 2 / qz (Z.of_nat span + 1))%Qc.

(** *** On-balance volume *)

(** The sign with which the volume of a bar enters the running total,
    from the change [d] of the close into that bar. *)
Definition flow_sign (d : Qc) : Z :=
  if Qc_ltb 0 d then 1%Z else if Qc_ltb d 0 then (-1)%Z else 0%Z.

(** *** Candlestick patterns, bar by bar *)







(** *** Signals of the custom strategy *)

(** The non-zero entries of a signal series alternate between 1 and -1,
    starting with 1 when [long] is false. *)
Fixpoint alternates (long : bool) (signals : list Z) : bool :=
  match signals with
  | [] => true
  | z :: rest =>
      if (z =? 0)%Z then alternates long rest
      else if (z =? 1)%Z then negb long && alternates true rest
      else if (z =? -1)%Z then long && alternates false rest
      else false
  end.

Definition count_exits (signals : list Z) : nat :=
  List.length (filter (fun z => (z =? -1)%Z) signals).

End Props.
(* ================================================================== *)
(** ** Facts about the number model *)
(* ================================================================== *)

Module FloatFacts.
Import Float.

Lemma Qc_eqb_eq (x y : Qc) : Qc_eqb x y = true <-> x = y.
Proof.
  unfold Qc_eqb. rewrite Qeq_bool_iff. split.
  - apply Qc_is_canon.
  - intros ->. reflexivity.
Qed.

Lemma Qc_eqb_neq (x y : Qc) : Qc_eqb x y = false <-> x <> y.
Proof.
  rewrite <- Qc_eqb_eq. destruct (Qc_eqb x y); split; congruence.
Qed.

Lemma Qc_leb_le (x y : Qc) : Qc_leb x y = true <-> (x <= y)%Qc.
Proof. unfold Qc_leb, Qcle. apply Qle_bool_iff. Qed.

Lemma Qc_ltb_lt (x y : Qc) : Qc_ltb x y = true <-> (x < y)%Qc.
Proof.
  unfold Qc_ltb, Qclt. rewrite negb_true_iff.
  split; intro H.
  - apply Qnot_le_lt. intro L. apply Qle_bool_iff in L. congruence.
  - destruct (Qle_bool y x) eqn:E; [|reflexivity].
    apply Qle_bool_iff in E. exfalso. exact (Qlt_not_le _ _ H E).
Qed.

Lemma Qc_ltb_ge (x y : Qc) : Qc_ltb x y = false <-> (y <= x)%Qc.
Proof.
  unfold Qc_ltb. rewrite negb_false_iff. apply Qc_leb_le.
Qed.

Lemma qz_inj (a b : Z) : qz a = qz b -> a = b.
Proof.
  unfold qz. intro H.
  assert (E : (inject_Z a == inject_Z b)%Q).
  { rewrite <- (Qred_correct (inject_Z a)), <- (Qred_correct (inject_Z b)).
    change (Qred (inject_Z a)) with (this (Q2Qc (inject_Z a))).
    change (Qred (inject_Z b)) with (this (Q2Qc (inject_Z b))).
    rewrite H. reflexivity. }
  unfold Qeq in E. simpl in E. lia.
Qed.

Lemma qz_pos_neq0 (n : nat) : (1 <= n)%nat -> qz (Z.of_nat n) <> 0%Qc.
Proof.
  intros H E. change 0%Qc with (qz 0) in E. apply qz_inj in E. lia.
Qed.

Lemma fsame_eq (x y : fval) : fsame x y = true -> x = y.
Proof.
  destruct x, y; simpl; try discriminate; try reflexivity.
  intro H. apply Qc_eqb_eq in H. now subst.
Qed.

Lemma series_same_eq (xs ys : list fval) : series_same xs ys = true -> xs = ys.
Proof.
  revert ys. induction xs as [|x xs IH]; intros [|y ys]; simpl;
    try discriminate; try reflexivity.
  intro H. apply andb_true_iff in H as [H1 H2].
  apply fsame_eq in H1. apply IH in H2. now subst.
Qed.

Lemma feqb_eq (x y : fval) : feqb x y = true -> x = y.
Proof.
  destruct x, y; simpl; try discriminate; try reflexivity.
  intro H. apply Qc_eqb_eq in H. now subst.
Qed.

Lemma feqb_Fin (a b : Qc) : feqb (Fin a) (Fin b) = true <-> a = b.
Proof. simpl. apply Qc_eqb_eq. Qed.

Lemma fz_inj (a b : Z) : feqb (fz a) (fz b) = true -> a = b.
Proof. unfold fz. rewrite feqb_Fin. apply qz_inj. Qed.

Lemma fadd_nan_r (x : fval) : fadd x NaN = NaN.
Proof. now destruct x. Qed.

Lemma fdiv_Fin (a b : Qc) : b <> 0%Qc -> fdiv (Fin a) (Fin b) = Fin (a / b).
Proof.
  intro H. simpl. apply Qc_eqb_neq in H. now rewrite H.
Qed.

Lemma flt_fle_excl (x y : fval) : flt x y = true -> fle y x = false.
Proof.
  unfold fle. destruct x, y; simpl; try discriminate; try reflexivity.
  intro H. apply Qc_ltb_lt in H.
  apply orb_false_iff. split.
  - apply Qc_ltb_ge. now apply Qclt_le_weak.
  - apply Qc_eqb_neq. intro E. subst. exact (Qclt_not_eq _ _ H eq_refl).
Qed.

Lemma flt_asym (x y : fval) : flt x y = true -> flt y x = false.
Proof.
  intro H. apply flt_fle_excl in H. unfold fle in H.
  now apply orb_false_iff in H.
Qed.

End FloatFacts.

(* ================================================================== *)
(** ** Facts about the Series operations *)
(* ================================================================== *)

Module PandasFacts.
Import Float Pandas FloatFacts.

Lemma iloc_overflow (s : Series) (i : nat) :
  (List.length s <= i)%nat -> iloc s i = NaN.
Proof. intro H. unfold iloc. now apply nth_overflow. Qed.

Lemma map2_length {A B C : Type} (f : A -> B -> C) xs ys :
  List.length (map2 f xs ys) = Nat.min (List.length xs) (List.length ys).
Proof.
  revert ys. induction xs as [|x xs IH]; intros [|y ys]; simpl; auto.
Qed.

Lemma nth_map2 {A B C : Type} (f : A -> B -> C) xs ys i dx dy d :
  (i < List.length xs)%nat -> (i < List.length ys)%nat ->
  nth i (map2 f xs ys) d = f (nth i xs dx) (nth i ys dy).
Proof.
  revert ys i. induction xs as [|x xs IH]; intros [|y ys] [|i]; simpl;
    intros H1 H2; try lia; auto.
  apply IH; lia.
Qed.

Lemma removelast_length {A : Type} (l : list A) :
  List.length (removelast l) = pred (List.length l).
Proof.
  rewrite removelast_firstn_len, length_firstn. lia.
Qed.

Lemma shift1_length (s : Series) : List.length (shift1 s) = List.length s.
Proof.
  destruct s as [|x r]; [reflexivity|].
  unfold shift1. cbn [List.length]. rewrite removelast_length.
  reflexivity.
Qed.

Lemma nth_removelast {A : Type} (l : list A) (i : nat) (d : A) :
  (S i < List.length l)%nat -> nth i (removelast l) d = nth i l d.
Proof.
  revert i. induction l as [|x l IH]; intros i H; simpl in H; [lia|].
  destruct l as [|y l]; [simpl in H; lia|].
  destruct i as [|i]; [reflexivity|].
  change (removelast (x :: y :: l)) with (x :: removelast (y :: l)).
  cbn [nth]. apply IH. simpl in *. lia.
Qed.

Lemma iloc_shift1_0 (s : Series) : iloc (shift1 s) 0 = NaN.
Proof. now destruct s. Qed.

Lemma iloc_shift1_S (s : Series) (i : nat) :
  (S i < List.length s)%nat -> iloc (shift1 s) (S i) = iloc s i.
Proof.
  intro H. destruct s as [|x r]; [simpl in H; lia|].
  unfold shift1, iloc. rewrite <- (nth_removelast (x :: r) i NaN H).
  reflexivity.
Qed.

Lemma iloc_map (f : fval -> fval) (s : Series) (i : nat) :
  (i < List.length s)%nat -> iloc (map f s) i = f (iloc s i).
Proof.
  intro H. unfold iloc.
  rewrite (nth_indep _ NaN (f NaN)) by (now rewrite length_map).
  apply map_nth.
Qed.

Lemma iloc_map_seq (f : nat -> fval) (n i : nat) :
  (i < n)%nat -> iloc (map f (seq 0 n)) i = f i.
Proof.
  intro H. unfold iloc.
  rewrite (nth_indep _ NaN (f 0%nat)) by (now rewrite length_map, length_seq).
  rewrite map_nth, seq_nth by lia. reflexivity.
Qed.

Lemma nth_assign_where (signals : list Z) (mask : list bool) (v : Z) (i : nat) :
  (i < List.length signals)%nat -> (i < List.length mask)%nat ->
  nth i (assign_where signals mask v) 0%Z =
  if nth i mask false then v else nth i signals 0%Z.
Proof.
  intros H1 H2. unfold assign_where.
  now rewrite (nth_map2 _ _ _ i 0%Z false 0%Z) by assumption.
Qed.

Lemma assign_where_length signals mask v :
  List.length (assign_where signals mask v) =
  Nat.min (List.length signals) (List.length mask).
Proof. apply map2_length. Qed.

Lemma rolling_apply_length w f s :
  List.length (rolling_apply w f s) = List.length s.
Proof. unfold rolling_apply. now rewrite length_map, length_seq. Qed.

Lemma ewm_run_length alpha st s :
  List.length (ewm_run alpha st s) = List.length s.
Proof.
  revert st. induction s as [|x r IH]; intro st; simpl; [reflexivity|].
  now rewrite IH.
Qed.

Lemma ewm_mean_length span s out :
  ewm_mean span s = Some out -> List.length out = List.length s.
Proof.
  unfold ewm_mean. destruct (span <? 1)%nat; [discriminate|].
  destruct s as [|x r]; intro H; inversion H; subst; simpl; [reflexivity|].
  now rewrite ewm_run_length.
Qed.

End PandasFacts.

(* ================================================================== *)
(** ** Crossover signals *)
(* ================================================================== *)

Module CrossoverFacts.
Import Float Pandas AnalysisEngine BacktestEngine Spec FloatFacts PandasFacts.

Lemma exit_is_entry_swapped (A B : Series) (i : nat) :
  exit_at A B i = entry_at B A i.
Proof. reflexivity. Qed.

Lemma entry_exit_exclusive (A B : Series) (i : nat) :
  entry_at A B i = true -> exit_at A B i = false.
Proof.
  unfold entry_at, exit_at, fgt. intro H.
  apply andb_true_iff in H as [H _]. apply andb_true_iff in H as [_ H].
  apply flt_asym in H. rewrite H. now rewrite andb_false_r.
Qed.

Lemma entry_at_overflow (A B : Series) (i : nat) :
  (List.length A <= i)%nat -> entry_at A B i = false.
Proof.
  intro H. unfold entry_at, fgt. rewrite (iloc_overflow A) by assumption.
  simpl. destruct (iloc B i); now rewrite andb_false_r.
Qed.

Lemma exit_at_overflow (A B : Series) (i : nat) :
  (List.length B <= i)%nat -> exit_at A B i = false.
Proof. rewrite exit_is_entry_swapped. apply entry_at_overflow. Qed.

(** A transition mask, bar by bar. *)
Lemma transition_mask_nth (f g : fval -> fval -> bool) (A B : Series) (i : nat) :
  g NaN NaN = false ->
  List.length A = List.length B -> (i < List.length A)%nat ->
  nth i (and_mask (map2 f A B) (map2 g (shift1 A) (shift1 B))) false =
  (1 <=? i)%nat && f (iloc A i) (iloc B i)
  && g (iloc A (i - 1)) (iloc B (i - 1)).
Proof.
  intros Hg HL Hi. unfold and_mask.
  rewrite (nth_map2 _ _ _ i false false false)
    by (rewrite map2_length, ?shift1_length; lia).
  rewrite (nth_map2 f A B i NaN NaN false) by lia.
  rewrite (nth_map2 g _ _ i NaN NaN false) by (rewrite shift1_length; lia).
  fold (iloc A i) (iloc B i) (iloc (shift1 A) i) (iloc (shift1 B) i).
  destruct i as [|j].
  - rewrite !iloc_shift1_0, Hg. simpl. now rewrite andb_false_r.
  - rewrite !iloc_shift1_S by lia.
    replace (S j - 1)%nat with j by lia. reflexivity.
Qed.

Lemma crossover_length (A B : Series) (n : nat) :
  List.length A = n -> List.length B = n ->
  List.length (crossover A B n) = n.
Proof.
  intros HA HB. unfold crossover, and_mask, gt_mask, lt_mask, le_mask, ge_mask.
  rewrite ?assign_where_length, ?map2_length, ?repeat_length,
    ?map2_length, ?shift1_length. lia.
Qed.

Lemma nth_repeat_zero (n i : nat) : nth i (repeat 0%Z n) 0%Z = 0%Z.
Proof.
  revert i. induction n as [|n IH]; intros [|i]; simpl; auto.
Qed.

Lemma crossover_nth (A B : Series) (n i : nat) :
  List.length A = n -> List.length B = n ->
  nth i (crossover A B n) 0%Z =
  if exit_at A B i then (-1)%Z else if entry_at A B i then 1%Z else 0%Z.
Proof.
  intros HA HB. destruct (Nat.lt_ge_cases i n) as [Hi|Hi].
  - unfold crossover.
    assert (Lup : List.length (and_mask (gt_mask A B)
                     (le_mask (shift1 A) (shift1 B))) = n).
    { unfold and_mask, gt_mask, le_mask.
      rewrite !map2_length, !shift1_length. lia. }
    assert (Ldn : List.length (and_mask (lt_mask A B)
                     (ge_mask (shift1 A) (shift1 B))) = n).
    { unfold and_mask, lt_mask, ge_mask.
      rewrite !map2_length, !shift1_length. lia. }
    rewrite nth_assign_where
      by (rewrite ?assign_where_length, ?repeat_length; lia).
    rewrite nth_assign_where by (rewrite ?repeat_length; lia).
    rewrite nth_repeat_zero.
    unfold gt_mask, lt_mask, le_mask, ge_mask.
    rewrite (transition_mask_nth flt fge A B i) by (reflexivity || lia).
    rewrite (transition_mask_nth fgt fle A B i) by (reflexivity || lia).
    reflexivity.
  - rewrite nth_overflow by (rewrite crossover_length; lia).
    rewrite exit_at_overflow, entry_at_overflow by lia. reflexivity.
Qed.

Lemma crossover_is_exact (A B : Series) (n : nat) :
  List.length A = n -> List.length B = n ->
  crossover_exact A B (crossover A B n).
Proof.
  intros HA HB i. rewrite (crossover_nth A B n i HA HB).
  destruct (entry_at A B i) eqn:En.
  - rewrite (entry_exit_exclusive A B i En).
    repeat split; intros; try discriminate; try easy.
  - destruct (exit_at A B i); repeat split; intros; try discriminate; easy.
Qed.

(** After a bar with [A > B], if [A < B] holds [d + 1] bars later and the
    series never touch in between, a downward transition lies in between. *)
Lemma first_crossing_back (A B : Series) (i d : nat) :
  flt (iloc B i) (iloc A i) = true ->
  flt (iloc A (i + S d)) (iloc B (i + S d)) = true ->
  (forall j, (i < j < i + S d)%nat -> apart A B j = true) ->
  exists j, (i < j <= i + S d)%nat /\ exit_at A B j = true.
Proof.
  intros Hi. induction d as [|d IH]; intros Hk Hap.
  - exists (i + 1)%nat. split; [lia|].
    unfold exit_at. replace (i + 1 - 1)%nat with i by lia.
    replace (1 <=? i + 1)%nat with true by (symmetry; apply Nat.leb_le; lia).
    rewrite Hk. unfold fge, fle. now rewrite Hi.
  - destruct (flt (iloc A (i + S d)) (iloc B (i + S d))) eqn:E.
    + destruct IH as [j [Hj Hx]]; [reflexivity | intros; apply Hap; lia |].
      exists j. split; [lia | assumption].
    + exists (i + S (S d))%nat. split; [lia|].
      assert (Hp : apart A B (i + S d) = true) by (apply Hap; lia).
      unfold apart in Hp. rewrite E in Hp. simpl in Hp.
      unfold exit_at.
      replace (i + S (S d) - 1)%nat with (i + S d)%nat by lia.
      replace (1 <=? i + S (S d))%nat with true
        by (symmetry; apply Nat.leb_le; lia).
      rewrite Hk. unfold fge, fle. now rewrite Hp.
Qed.

(** Two upward transitions at [i < k]. *)
Lemma between_two_entries (A B : Series) (i k : nat) :
  (i < k)%nat -> entry_at A B i = true -> entry_at A B k = true ->
  (exists j, (i < j < k)%nat /\ fle (iloc A j) (iloc B j) = true) /\
  ((forall j, (i < j < k)%nat -> apart A B j = true) ->
   exists j, (i < j < k)%nat /\ exit_at A B j = true).
Proof.
  intros Hik Hi Hk. unfold entry_at, fgt in Hi, Hk.
  apply andb_true_iff in Hi as [Hi _]. apply andb_true_iff in Hi as [_ Hi].
  apply andb_true_iff in Hk as [Hk Hk1]. apply andb_true_iff in Hk as [_ Hk].
  assert (Hne : (k - 1)%nat <> i).
  { intro E. rewrite E in Hk1. apply flt_fle_excl in Hi. congruence. }
  split.
  - exists (k - 1)%nat. split; [lia | assumption].
  - intro Hap.
    assert (Hp : apart A B (k - 1) = true) by (apply Hap; lia).
    assert (Hlt : flt (iloc A (k - 1)) (iloc B (k - 1)) = true).
    { unfold apart in Hp. apply orb_true_iff in Hp as [Hp|Hp]; [assumption|].
      apply flt_fle_excl in Hp. congruence. }
    destruct (first_crossing_back A B i (k - 1 - i - 1)) as [j [Hj Hx]].
    + assumption.
    + replace (i + S (k - 1 - i - 1))%nat with (k - 1)%nat by lia. assumption.
    + intros j Hj. apply Hap. lia.
    + exists j. split; [lia | assumption].
Qed.

Lemma apart_sym (A B : Series) (j : nat) : apart A B j = apart B A j.
Proof. unfold apart. apply orb_comm. Qed.

Lemma exact_alternates (A B : Series) (signals : list Z) :
  crossover_exact A B signals -> crossover_alternates A B signals.
Proof.
  intros Hex i k Hik. split; intros Si Sk.
  - apply (proj1 (Hex i)) in Si. apply (proj1 (Hex k)) in Sk.
    destruct (between_two_entries A B i k Hik Si Sk) as [H1 H2].
    split; [assumption|]. intro Hap. destruct (H2 Hap) as [j [Hj Hx]].
    exists j. split; [assumption|]. now apply (proj1 (proj2 (Hex j))).
  - apply (proj1 (proj2 (Hex i))) in Si. apply (proj1 (proj2 (Hex k))) in Sk.
    rewrite exit_is_entry_swapped in Si, Sk.
    destruct (between_two_entries B A i k Hik Si Sk) as [H1 H2].
    split; [assumption|]. intro Hap.
    destruct H2 as [j [Hj Hx]].
    { intros j Hj. rewrite <- apart_sym. now apply Hap. }
    exists j. split; [assumption|].
    apply (proj2 (proj1 (Hex j))). exact Hx.
Qed.

Lemma sma_length (period : nat) (column : Bar -> Qc) (df : DataFrame) :
  List.length (sma period column df) = List.length df.
Proof. unfold sma, rolling_mean, col. now rewrite rolling_apply_length, length_map. Qed.

Lemma sma_crossover_is_crossover (df : DataFrame) (fast slow : nat) :
  sma_crossover_signals df fast slow =
  crossover (sma fast Close df) (sma slow Close df) (List.length df).
Proof. reflexivity. Qed.

Lemma macd_lengths (fast slow signal : nat) (df : DataFrame) (m : Macd) :
  macd fast slow signal df = Some m ->
  List.length (macd_line m) = List.length df /\
  List.length (signal_line m) = List.length df.
Proof.
  unfold macd, ema, bind.
  destruct (ewm_mean fast (col Close df)) as [ef|] eqn:Ef; [|discriminate].
  destruct (ewm_mean slow (col Close df)) as [es|] eqn:Es; [|discriminate].
  destruct (ewm_mean signal (map2 fsub ef es)) as [sg|] eqn:Eg; [|discriminate].
  intro H. inversion H; subst; clear H. simpl.
  apply ewm_mean_length in Ef, Es, Eg.
  unfold col in Ef, Es. rewrite length_map in Ef, Es.
  rewrite map2_length in Eg |- *. lia.
Qed.

Lemma macd_crossover_is_crossover (df : DataFrame) (fast slow signal : nat) :
  macd_crossover_signals df fast slow signal =
  match macd fast slow signal df with
  | Some m => Some (crossover (macd_line m) (signal_line m) (List.length df))
  | None => None
  end.
Proof.
  unfold macd_crossover_signals, bind.
  destruct (macd fast slow signal df); reflexivity.
Qed.

End CrossoverFacts.

(* ================================================================== *)
(** ** Moving averages *)
(* ================================================================== *)

Module MovingAverageFacts.
Import Float Pandas AnalysisEngine FloatFacts PandasFacts.

Lemma iloc_rolling_apply (w : nat) (f : list fval -> fval) (s : Series) (i : nat) :
  (i < List.length s)%nat ->
  iloc (rolling_apply w f s) i =
  match window_at w i s with
  | Some win => if forallb notna win then f win else NaN
  | None => NaN
  end.
Proof.
  intro H. unfold rolling_apply.
  now rewrite (iloc_map_seq
    (fun i => match window_at w i s with
              | Some win => if forallb notna win then f win else NaN
              | None => NaN
              end)).
Qed.

Lemma rolling_apply_prefix (w : nat) (f : list fval -> fval) (s : Series) (i : nat) :
  (i < w - 1)%nat -> iloc (rolling_apply w f s) i = NaN.
Proof.
  intro H. destruct (Nat.lt_ge_cases i (List.length s)) as [Hi|Hi].
  - rewrite iloc_rolling_apply by assumption. unfold window_at.
    replace (w <=? S i)%nat with false; [reflexivity|].
    symmetry. apply Nat.leb_gt. lia.
  - apply iloc_overflow. now rewrite rolling_apply_length.
Qed.

Lemma rolling_apply_short (w : nat) (f : list fval -> fval) (s : Series) (i : nat) :
  (List.length s < w)%nat -> iloc (rolling_apply w f s) i = NaN.
Proof.
  intro H. destruct (Nat.lt_ge_cases i (List.length s)) as [Hi|Hi].
  - apply rolling_apply_prefix. lia.
  - apply iloc_overflow. now rewrite rolling_apply_length.
Qed.

Lemma ewm_weight_one (alpha : Qc) : (1 * (1 - alpha) + alpha)%Qc = 1%Qc.
Proof. ring. Qed.

Lemma Qc_one_neq_zero : 1%Qc <> 0%Qc.
Proof. apply Qc_eqb_neq. reflexivity. Qed.

Lemma ewm_step_finite (alpha w c : Qc) :
  exists w', ewm_step alpha (Fin w, 1%Qc) (Fin c) = (Fin w', 1%Qc).
Proof.
  unfold ewm_step. cbn [notna isnan negb].
  destruct (feqb (Fin w) (Fin c)).
  - now exists w.
  - cbn [fmul fadd]. rewrite fdiv_Fin.
    + eexists. reflexivity.
    + rewrite ewm_weight_one. exact Qc_one_neq_zero.
Qed.

Lemma ewm_run_finite (alpha : Qc) (qs : list Qc) (w : Qc) (i : nat) :
  (i < List.length qs)%nat ->
  isfinite (iloc (ewm_run alpha (Fin w, 1%Qc) (map Fin qs)) i) = true.
Proof.
  revert w i. induction qs as [|c qs IH]; intros w i Hi; simpl in Hi; [lia|].
  cbn [map ewm_run].
  destruct (ewm_step_finite alpha w c) as [w' E]. rewrite E. cbn [fst].
  destruct i as [|i]; [reflexivity|].
  unfold iloc. cbn [nth]. apply IH. lia.
Qed.

Lemma ewm_mean_finite (span : nat) (qs : list Qc) :
  (1 <= span)%nat ->
  exists e, ewm_mean span (map Fin qs) = Some e /\
            List.length e = List.length qs /\
            forall i, (i < List.length qs)%nat -> isfinite (iloc e i) = true.
Proof.
  intro H. unfold ewm_mean.
  replace (span <? 1)%nat with false by (symmetry; apply Nat.ltb_ge; lia).
  destruct qs as [|q qs].
  - exists []. repeat split. intros i Hi. simpl in Hi. lia.
  - cbn [map]. eexists. split; [reflexivity|]. split.
    + cbn [List.length]. now rewrite ewm_run_length, length_map.
    + intros [|i] Hi; [reflexivity|].
      unfold iloc. cbn [nth]. apply ewm_run_finite. simpl in Hi. lia.
Qed.

End MovingAverageFacts.

(* ================================================================== *)
(** ** RSI *)
(* ================================================================== *)

Module RsiFacts.
Import Float Pandas AnalysisEngine Spec FloatFacts PandasFacts MovingAverageFacts.

Lemma fold_fadd_Fin (l : list Qc) (a : Qc) :
  fold_left fadd (map Fin l) (Fin a) = Fin (fold_left Qcplus l a).
Proof.
  revert a. induction l as [|x l IH]; intro a; [reflexivity|].
  cbn [map fold_left fadd]. apply IH.
Qed.

Lemma fsum_Fin (l : list Qc) : fsum (map Fin l) = Fin (qsum l).
Proof. apply fold_fadd_Fin. Qed.

Lemma forallb_notna_Fin (l : list Qc) : forallb notna (map Fin l) = true.
Proof. induction l as [|x l IH]; [reflexivity|]. exact IH. Qed.

Lemma firstn_seq_le (w k m : nat) :
  (w <= m)%nat -> firstn w (seq k m) = seq k w.
Proof.
  revert k m. induction w as [|w IH]; intros k m H; [reflexivity|].
  destruct m as [|m]; [lia|]. cbn [seq firstn]. f_equal. apply IH. lia.
Qed.

(** The trailing window of a series given bar by bar. *)
Lemma window_of_map_seq (f : nat -> Qc) (n w i : nat) :
  (i < n)%nat -> (w <= S i)%nat ->
  firstn w (skipn (S i - w) (map f (seq 0 n))) = map f (seq (S i - w) w).
Proof.
  intros Hi Hw. rewrite skipn_map, firstn_map, skipn_seq.
  rewrite firstn_seq_le by lia. reflexivity.
Qed.

Lemma iloc_rolling_mean_finite (f : nat -> Qc) (n w i : nat) :
  (1 <= w)%nat -> (i < n)%nat ->
  iloc (rolling_mean w (map Fin (map f (seq 0 n)))) i =
  if (S i <? w)%nat then NaN else Fin (simple_mean f w i).
Proof.
  intros Hw Hi. unfold rolling_mean.
  rewrite iloc_rolling_apply by (now rewrite !length_map, length_seq).
  unfold window_at.
  destruct (S i <? w)%nat eqn:E.
  - apply Nat.ltb_lt in E.
    replace (w <=? S i)%nat with false by (symmetry; apply Nat.leb_gt; lia).
    reflexivity.
  - apply Nat.ltb_ge in E.
    replace (w <=? S i)%nat with true by (symmetry; apply Nat.leb_le; lia).
    rewrite skipn_map, firstn_map, forallb_notna_Fin, fsum_Fin.
    rewrite window_of_map_seq by assumption.
    unfold fz. rewrite fdiv_Fin by (now apply qz_pos_neq0). reflexivity.
Qed.

Lemma col_as_prices (column : Bar -> Qc) (df : DataFrame) :
  col column df = map Fin (map column df).
Proof. unfold col. now rewrite map_map. Qed.

Lemma iloc_prices (c : list Qc) (i : nat) :
  (i < List.length c)%nat -> iloc (map Fin c) i = Fin (price_at c i).
Proof.
  intro H. unfold iloc, price_at.
  rewrite (nth_indep _ NaN (Fin 0%Qc)) by (now rewrite length_map).
  apply map_nth.
Qed.

Lemma diff_length (s : Series) : List.length (diff s) = List.length s.
Proof. unfold diff. rewrite map2_length, shift1_length. lia. Qed.

Lemma iloc_diff_0 (s : Series) : iloc (diff s) 0 = NaN.
Proof.
  destruct s as [|x r]; [reflexivity|]. unfold diff, shift1, iloc. simpl.
  apply fadd_nan_r.
Qed.

Lemma iloc_diff_S (c : list Qc) (j : nat) :
  (S j < List.length c)%nat ->
  iloc (diff (map Fin c)) (S j) =
  Fin (price_at c (S j) - price_at c j).
Proof.
  intro H. unfold diff, iloc.
  rewrite (nth_map2 fsub _ _ (S j) NaN NaN NaN)
    by (rewrite ?shift1_length, length_map; lia).
  fold (iloc (map Fin c) (S j)) (iloc (shift1 (map Fin c)) (S j)).
  rewrite iloc_shift1_S by (rewrite length_map; lia).
  rewrite !iloc_prices by lia. reflexivity.
Qed.

Lemma gains_series (c : list Qc) :
  where_ (diff (map Fin c)) (fun d => fgt d (Fin 0)) (Fin 0) =
  map Fin (map (up_move c) (seq 0 (List.length c))).
Proof.
  apply (nth_ext _ _ NaN NaN).
  - unfold where_. now rewrite !length_map, diff_length, length_map, length_seq.
  - intros i Hi. unfold where_ in *.
    rewrite length_map, diff_length, length_map in Hi.
    fold (iloc (map (fun x => if fgt x (Fin 0) then x else Fin 0)
                    (diff (map Fin c))) i).
    rewrite iloc_map by (now rewrite diff_length, length_map).
    rewrite map_map.
    fold (iloc (map (fun j => Fin (up_move c j)) (seq 0 (List.length c))) i).
    rewrite (iloc_map_seq (fun j => Fin (up_move c j)) (List.length c) i Hi).
    destruct i as [|j].
    + now rewrite iloc_diff_0.
    + rewrite iloc_diff_S by assumption. cbn [up_move fgt flt].
      now destruct (Qc_ltb 0 (price_at c (S j) - price_at c j)).
Qed.

Lemma losses_series (c : list Qc) :
  map fneg (where_ (diff (map Fin c)) (fun d => flt d (Fin 0)) (Fin 0)) =
  map Fin (map (down_move c) (seq 0 (List.length c))).
Proof.
  apply (nth_ext _ _ NaN NaN).
  - unfold where_. now rewrite !length_map, diff_length, length_map, length_seq.
  - intros i Hi. unfold where_ in *.
    rewrite !length_map, diff_length, length_map in Hi.
    rewrite map_map.
    fold (iloc (map (fun x => fneg (if flt x (Fin 0) then x else Fin 0))
                    (diff (map Fin c))) i).
    rewrite iloc_map by (now rewrite diff_length, length_map).
    rewrite map_map.
    fold (iloc (map (fun j => Fin (down_move c j)) (seq 0 (List.length c))) i).
    rewrite (iloc_map_seq (fun j => Fin (down_move c j)) (List.length c) i Hi).
    destruct i as [|j].
    + now rewrite iloc_diff_0.
    + rewrite iloc_diff_S by assumption. cbn [down_move flt].
      now destruct (Qc_ltb (price_at c (S j) - price_at c j) 0).
Qed.

Lemma rsi_manual_at (R : Series -> nat -> Series) (period : nat)
    (df : DataFrame) (i : nat) :
  (1 <= period)%nat -> (i < List.length df)%nat ->
  iloc (rsi false R period df) i = rsi_simple period (map Close df) i.
Proof.
  intros Hp Hi. unfold rsi, rsi_simple.
  rewrite col_as_prices, gains_series, losses_series, length_map.
  assert (Lg : List.length (rolling_mean period (map Fin
                 (map (up_move (map Close df)) (seq 0 (List.length df)))))
               = List.length df).
  { unfold rolling_mean. now rewrite rolling_apply_length, !length_map, length_seq. }
  assert (Ll : List.length (rolling_mean period (map Fin
                 (map (down_move (map Close df)) (seq 0 (List.length df)))))
               = List.length df).
  { unfold rolling_mean. now rewrite rolling_apply_length, !length_map, length_seq. }
  rewrite iloc_map by (rewrite map2_length; lia).
  unfold iloc at 1.
  rewrite (nth_map2 fdiv _ _ i NaN NaN NaN) by lia.
  fold (iloc (rolling_mean period (map Fin
          (map (up_move (map Close df)) (seq 0 (List.length df))))) i).
  fold (iloc (rolling_mean period (map Fin
          (map (down_move (map Close df)) (seq 0 (List.length df))))) i).
  rewrite !iloc_rolling_mean_finite by assumption.
  destruct (S i <? period)%nat; reflexivity.
Qed.

End RsiFacts.

(* ================================================================== *)
(** ** Positions and the trade log *)
(* ================================================================== *)

Module TradeFacts.
Import Float Pandas AnalysisEngine BacktestEngine Spec FloatFacts PandasFacts.

Lemma replace_zero_nan_length (signals : list Z) :
  List.length (replace_zero_nan signals) = List.length signals.
Proof. apply length_map. Qed.

Lemma ffill_from_length (last : fval) (s : Series) :
  List.length (ffill_from last s) = List.length s.
Proof.
  revert last. induction s as [|x r IH]; intro last; simpl; [reflexivity|].
  now rewrite IH.
Qed.

Lemma positions_length (signals : list Z) :
  List.length (positions_of signals) = List.length signals.
Proof.
  unfold positions_of, fillna, ffill.
  now rewrite length_map, ffill_from_length, replace_zero_nan_length.
Qed.

(** A held value is the bar's own signal when there is one, and the value
    held at the previous bar otherwise. *)
Lemma iloc_ffill_from (last : fval) (signals : list Z) (i : nat) :
  (i < List.length signals)%nat ->
  iloc (ffill_from last (replace_zero_nan signals)) i =
  if (nth i signals 0 =? 0)%Z then
    match i with
    | O => last
    | S j => iloc (ffill_from last (replace_zero_nan signals)) j
    end
  else fz (nth i signals 0%Z).
Proof.
  revert last i. induction signals as [|z r IH]; intros last i Hi;
    [simpl in Hi; lia|].
  cbn [replace_zero_nan map ffill_from].
  fold (replace_zero_nan r).
  destruct i as [|j].
  - cbn [iloc nth]. unfold iloc. cbn [nth]. now destruct (z =? 0)%Z.
  - unfold iloc. cbn [nth].
    fold (iloc (ffill_from (if isnan (if (z =? 0)%Z then NaN else fz z)
                            then last else if (z =? 0)%Z then NaN else fz z)
                           (replace_zero_nan r)) j).
    rewrite IH by (simpl in Hi; lia).
    destruct (nth j r 0 =? 0)%Z; [|reflexivity].
    destruct j; reflexivity.
Qed.

Lemma positions_step (signals : list Z) (i : nat) :
  (i < List.length signals)%nat ->
  iloc (positions_of signals) i =
  if (nth i signals 0 =? 0)%Z then
    match i with
    | O => Fin 0
    | S j => iloc (positions_of signals) j
    end
  else fz (nth i signals 0%Z).
Proof.
  intro Hi. unfold positions_of, fillna, ffill.
  rewrite iloc_map by (now rewrite ffill_from_length, replace_zero_nan_length).
  rewrite iloc_ffill_from by assumption.
  destruct (nth i signals 0 =? 0)%Z; [|reflexivity].
  destruct i as [|j]; [reflexivity|].
  now rewrite iloc_map
    by (rewrite ffill_from_length, replace_zero_nan_length; lia).
Qed.

(** A position that becomes 1 (or -1) at a bar does so by that bar's signal. *)
Lemma position_turns_on_signal (signals : list Z) (i : nat) (v : Z) :
  v <> 0%Z -> (i < List.length signals)%nat ->
  feqb (iloc (positions_of signals) i) (fz v) = true ->
  (i = 0%nat \/ feqb (iloc (positions_of signals) (i - 1)) (fz v) = false) ->
  nth i signals 0%Z = v.
Proof.
  intros Hv Hi H1 H0. rewrite positions_step in H1 by assumption.
  destruct (nth i signals 0 =? 0)%Z.
  - exfalso. destruct i as [|j].
    + change (Fin 0) with (fz 0) in H1. apply fz_inj in H1. congruence.
    + destruct H0 as [H0|H0]; [lia|].
      replace (S j - 1)%nat with j in H0 by lia. congruence.
  - now apply fz_inj.
Qed.

Section Loop.
Variable df : DataFrame.
Variables P EP XP : Series.

Let run := trades_after df P EP XP.

Lemma run_S (n : nat) : run (S n) = trade_step df P EP XP (run n) n.
Proof.
  unfold run, trades_after. rewrite seq_S, fold_left_app. reflexivity.
Qed.

Lemma trade_from_positions_mono (n m : nat) (t : Trade) :
  (n <= m)%nat -> trade_from_positions P EP XP n t ->
  trade_from_positions P EP XP m t.
Proof.
  unfold trade_from_positions. intros H [H1 H2]. split; [lia | assumption].
Qed.

Lemma run_invariant (n : nat) :
  Forall (trade_from_positions P EP XP n) (fst (run n)) /\
  position_consistent P EP n (snd (run n)).
Proof.
  induction n as [|n [IHt IHp]].
  - split; [constructor | now left].
  - rewrite run_S. destruct (run n) as [trades pos]. cbn [fst snd] in *.
    assert (Ht : Forall (trade_from_positions P EP XP (S n)) trades).
    { eapply Forall_impl; [|exact IHt].
      intros t. apply trade_from_positions_mono. lia. }
    unfold trade_step.
    destruct (feqb (iloc P n) (fz 1)) eqn:E1.
    + (* the position series reads 1 *)
      assert (Em : feqb (iloc P n) (fz (-1)) = false).
      { apply feqb_eq in E1. rewrite E1. reflexivity. }
      destruct pos as [|e p d]; cbn [in_position negb andb].
      * cbn [fst snd]. split; [assumption|].
        cbn [position_consistent]. replace (S n - 1)%nat with n by lia.
        repeat split; try assumption; try lia.
      * rewrite Em. cbn [andb fst snd]. split; [assumption|].
        cbn [position_consistent] in *.
        replace (S n - 1)%nat with n by lia.
        destruct IHp as (H1 & H2 & H3 & H4 & _).
        repeat split; try assumption; lia.
    + cbn [andb].
      destruct (feqb (iloc P n) (fz (-1))) eqn:E2.
      * destruct pos as [|e p d]; cbn [in_position andb].
        -- cbn [fst snd]. split; [assumption|].
           cbn [position_consistent]. right.
           now replace (S n - 1)%nat with n by lia.
        -- cbn [fst snd]. cbn [position_consistent] in IHp.
           destruct IHp as (H1 & H2 & H3 & H4 & H5).
           split.
           ++ apply Forall_app. split; [assumption|].
              constructor; [|constructor].
              unfold trade_from_positions.
              cbn [entry_idx exit_idx entry_price exit_price pnl_pct].
              subst p. repeat split; try assumption; lia.
           ++ cbn [position_consistent]. right.
              now replace (S n - 1)%nat with n by lia.
      * destruct pos as [|e p d]; cbn [in_position andb fst snd].
        -- split; [assumption|]. cbn [position_consistent]. right.
           now replace (S n - 1)%nat with n by lia.
        -- split; [assumption|]. cbn [position_consistent] in *.
           replace (S n - 1)%nat with n by lia.
           destruct IHp as (H1 & H2 & H3 & H4 & _).
           repeat split; try assumption; lia.
Qed.
End Loop.

Lemma calculate_trades_invariant (df : DataFrame) (P EP XP : Series) :
  Forall (trade_from_positions P EP XP (List.length P))
         (_calculate_trades df P EP XP).
Proof. exact (proj1 (run_invariant df P EP XP (List.length P))). Qed.

(** What [simple_backtest] returns, field by field, on the default
    prices. *)
Lemma simple_backtest_fields (sqrt_ : Qc -> Qc) (df : DataFrame) (cap : Qc)
    (signals : list Z) (r : Result) :
  simple_backtest sqrt_ df cap signals None None = Some r ->
  equity_curve r = equity_of cap signals (col Close df) /\
  returns r = strategy_returns_of signals (col Close df) /\
  trades_detail r =
    _calculate_trades df (positions_of signals) (col Close df) (col Close df) /\
  iloc_last (equity_of cap signals (col Close df)) = Some (final_equity r).
Proof.
  unfold simple_backtest.
  destruct (iloc_last (equity_of cap signals (col Close df))) as [final|];
    [|discriminate].
  destruct (trade_statistics _) as [[[a b] c] d].
  intro H. inversion H; subst; clear H. cbn. repeat split.
Qed.

End TradeFacts.

(* ================================================================== *)
(** ** Support and resistance *)
(* ================================================================== *)

Module LevelFacts.
Import Float Pandas AnalysisEngine Spec FloatFacts PandasFacts RsiFacts.

(** *** [sorted], [set] and the cap at five *)

Lemma insert_sorted_perm (x : Qc) (l : list Qc) :
  Permutation (insert_sorted x l) (x :: l).
Proof.
  induction l as [|y r IH]; simpl; [reflexivity|].
  destruct (Qc_leb x y); [reflexivity|].
  rewrite IH. apply perm_swap.
Qed.

Lemma sorted_perm (l : list Qc) : Permutation (sorted l) l.
Proof.
  induction l as [|x l IH]; simpl; [reflexivity|].
  rewrite insert_sorted_perm. now constructor.
Qed.

Lemma Qc_leb_false (x y : Qc) : Qc_leb x y = false -> (y <= x)%Qc.
Proof.
  intro H. apply Qclt_le_weak. apply Qcnot_le_lt. intro L.
  apply Qc_leb_le in L. congruence.
Qed.

Lemma insert_sorted_sorted (x : Qc) (l : list Qc) :
  StronglySorted Qcle l -> StronglySorted Qcle (insert_sorted x l).
Proof.
  induction l as [|y r IH]; intro H; simpl.
  - repeat constructor.
  - destruct (Qc_leb x y) eqn:E.
    + apply Qc_leb_le in E. constructor; [assumption|].
      constructor; [assumption|].
      apply StronglySorted_inv in H as [_ H].
      eapply Forall_impl; [|exact H]. intros z Hz.
      now apply Qcle_trans with y.
    + apply Qc_leb_false in E.
      apply StronglySorted_inv in H as [Hs Hf].
      constructor; [now apply IH|].
      assert (Hp : Permutation (x :: r) (insert_sorted x r))
        by (symmetry; apply insert_sorted_perm).
      rewrite <- Hp. now constructor.
Qed.

Lemma sorted_sorted (l : list Qc) : StronglySorted Qcle (sorted l).
Proof.
  induction l as [|x l IH]; simpl; [constructor|].
  now apply insert_sorted_sorted.
Qed.

Lemma sorted_strict (l : list Qc) :
  StronglySorted Qcle l -> NoDup l -> StronglySorted Qclt l.
Proof.
  induction 1 as [|x l Hs IH Hf]; intro Hn; [constructor|].
  apply NoDup_cons_iff in Hn as [Hx Hn].
  constructor; [now apply IH|].
  rewrite Forall_forall in *. intros y Hy.
  destruct (Qcle_lt_or_eq _ _ (Hf y Hy)) as [L|E]; [assumption|].
  subst. contradiction.
Qed.

Lemma StronglySorted_app_inv {A : Type} (R : A -> A -> Prop) (a b : list A) :
  StronglySorted R (a ++ b) ->
  StronglySorted R a /\ StronglySorted R b /\
  forall x y, In x a -> In y b -> R x y.
Proof.
  induction a as [|h a IH]; simpl; intro H.
  - repeat split; [constructor | assumption | intros x y []].
  - apply StronglySorted_inv in H as [Hs Hf].
    destruct (IH Hs) as (Ha & Hb & Hab).
    rewrite Forall_forall in Hf.
    repeat split; try assumption.
    + constructor; [assumption|]. rewrite Forall_forall.
      intros y Hy. apply Hf. apply in_app_iff. now left.
    + intros x y [->|Hx] Hy.
      * apply Hf. apply in_app_iff. now right.
      * now apply Hab.
Qed.

Lemma StronglySorted_rev {A : Type} (R : A -> A -> Prop) (l : list A) :
  StronglySorted R l -> StronglySorted (fun x y => R y x) (rev l).
Proof.
  induction 1 as [|x l Hs IH Hf]; simpl; [constructor|].
  induction (rev l) as [|y r IHr] eqn:E in IH, Hf |- *.
  - simpl. repeat constructor.
  - assert (Hin : forall z, In z (y :: r) -> R x z).
    { intros z Hz. rewrite Forall_forall in Hf. apply Hf.
      apply in_rev. rewrite E. exact Hz. }
    clear E Hf IHr.
    revert Hin IH. generalize (y :: r). clear y r.
    intros m Hin Hm. induction m as [|y m IHm]; simpl.
    + repeat constructor.
    + apply StronglySorted_inv in Hm as [Hm1 Hm2].
      constructor.
      * apply IHm; [|assumption]. intros z Hz. apply Hin. now right.
      * apply Forall_app. split; [assumption|].
        constructor; [|constructor]. apply Hin. now left.
Qed.

Lemma first_five_of_sorted (before : Qc -> Qc -> Prop) (P : Qc -> Prop)
    (L : list Qc) :
  StronglySorted before L -> (forall l, In l L <-> P l) ->
  first_five before P (firstn 5 L).
Proof.
  intros Hs HP. rewrite <- (firstn_skipn 5 L) in Hs.
  apply StronglySorted_app_inv in Hs as (Ha & _ & Hab).
  unfold first_five. repeat split.
  - apply firstn_le_length.
  - assumption.
  - intros l Hl. apply HP. rewrite <- (firstn_skipn 5 L).
    apply in_app_iff. now left.
  - intros l Hl. apply HP in Hl. rewrite <- (firstn_skipn 5 L) in Hl.
    apply in_app_iff in Hl as [Hl|Hl]; [now left|]. right. split.
    + rewrite length_firstn.
      destruct (Nat.le_gt_cases (List.length L) 5) as [Hlen|Hlen]; [|lia].
      rewrite skipn_all2 in Hl by assumption. destruct Hl.
    + intros x Hx. now apply Hab.
Qed.

Lemma set_list_sorted_strict (l : list Qc) :
  StronglySorted Qclt (sorted (set_list l)) /\
  forall x, In x (sorted (set_list l)) <-> In x l.
Proof.
  split.
  - apply sorted_strict; [apply sorted_sorted|].
    apply (Permutation_NoDup (l := set_list l)).
    + symmetry. apply sorted_perm.
    + apply NoDup_nodup.
  - intro x. unfold set_list. rewrite <- (nodup_In Qc_eq_dec l x). split.
    + apply Permutation_in. apply sorted_perm.
    + apply Permutation_in. symmetry. apply sorted_perm.
Qed.

End LevelFacts.

Module ExtremeFacts.
Import Float Pandas AnalysisEngine Spec FloatFacts PandasFacts RsiFacts LevelFacts.

(** *** The centred window at an interior bar *)

Lemma centered_window_interior (w i : nat) (s : Series) :
  (1 <= w)%nat -> (w <= i)%nat -> (i + w < List.length s)%nat ->
  centered_window w i s = firstn w (skipn (window_lo w i) s).
Proof.
  intros Hw Hi Hn. unfold centered_window, window_lo.
  assert (Hoff : ((Z.of_nat w - 1) / 2)%Z = Z.of_nat ((w - 1) / 2)).
  { rewrite Nat2Z.inj_div, Nat2Z.inj_sub by lia. reflexivity. }
  rewrite Hoff.
  assert (Hd : ((w - 1) / 2 <= w - 1)%nat) by (apply Nat.Div0.div_le_upper_bound; lia).
  set (off := ((w - 1) / 2)%nat) in *.
  replace (Z.to_nat (Z.max 0 (Z.min (Z.of_nat i + 1 + Z.of_nat off)
                                    (Z.of_nat (List.length s)))))
    with (i + 1 + off)%nat by lia.
  replace (Z.to_nat (Z.max 0 (Z.min (Z.of_nat i + 1 + Z.of_nat off - Z.of_nat w)
                                    (Z.of_nat (List.length s)))))
    with (i - (w - 1 - off))%nat by lia.
  f_equal. lia.
Qed.

Lemma dropna_Fin (l : list Qc) : dropna (map Fin l) = map Fin l.
Proof.
  unfold dropna. induction l as [|x l IH]; [reflexivity|].
  cbn. now rewrite IH.
Qed.

(** Members of a slice are the entries at its positions. *)
Lemma in_slice {A : Type} (l : list A) (lo w : nat) (y : A) :
  In y (firstn w (skipn lo l)) <->
  exists j, (lo <= j < lo + w)%nat /\ nth_error l j = Some y.
Proof.
  split.
  - intro H. apply In_nth_error in H as [k Hk].
    assert (Hkw : (k < w)%nat).
    { assert (Hlen : (k < List.length (firstn w (skipn lo l)))%nat)
        by (apply nth_error_Some; congruence).
      rewrite length_firstn in Hlen. lia. }
    rewrite nth_error_firstn in Hk.
    replace (k <? w)%nat with true in Hk by (symmetry; apply Nat.ltb_lt; lia).
    rewrite nth_error_skipn in Hk.
    exists (lo + k)%nat. split; [lia | assumption].
  - intros [j [Hj Hy]].
    apply (nth_error_In _ (j - lo)).
    rewrite nth_error_firstn.
    replace (j - lo <? w)%nat with true by (symmetry; apply Nat.ltb_lt; lia).
    rewrite nth_error_skipn. now replace (lo + (j - lo))%nat with j by lia.
Qed.

(** *** Counting the touches of a level *)

Lemma mask_sum_count (mask : list bool) :
  mask_sum mask = List.length (filter (fun b => b) mask).
Proof.
  unfold mask_sum.
  assert (H : forall n, fold_left (fun (n : nat) (b : bool) => if b then S n else n)
                          mask n
                        = (n + List.length (filter (fun b => b) mask))%nat).
  { induction mask as [|b mask IH]; intro n; [cbn; lia|].
    cbn [fold_left filter]. rewrite IH. destruct b; cbn [List.length]; lia. }
  apply H.
Qed.

Lemma and_of_masks {A : Type} (f g : A -> bool) (l : list A) :
  map2 andb (map f l) (map g l) = map (fun x => f x && g x) l.
Proof.
  induction l as [|x l IH]; [reflexivity|]. cbn [map map2]. now rewrite IH.
Qed.

Lemma count_of_mask {A : Type} (p : A -> bool) (l : list A) :
  List.length (filter (fun b => b) (map p l)) = List.length (filter p l).
Proof.
  induction l as [|x l IH]; [reflexivity|].
  cbn [map filter]. destruct (p x); cbn [List.length]; now rewrite IH.
Qed.

(** The positions of the bars that pass a test. *)
Lemma count_by_position {A : Type} (p : A -> bool) (l : list A) :
  List.length
    (filter (fun j => match nth_error l j with
                      | Some b => p b
                      | None => false
                      end) (seq 0 (List.length l)))
  = List.length (filter p l).
Proof.
  induction l as [|x l IH]; [reflexivity|].
  cbn [List.length seq filter nth_error].
  rewrite <- seq_shift.
  assert (E : forall js,
             List.length
               (filter (fun j => match nth_error (x :: l) j with
                                 | Some b => p b
                                 | None => false
                                 end) (map S js))
             = List.length
                 (filter (fun j => match nth_error l j with
                                   | Some b => p b
                                   | None => false
                                   end) js)).
  { induction js as [|j js IHj]; [reflexivity|].
    cbn [map filter nth_error].
    destruct (nth_error l j) as [b|]; [destruct (p b)|];
      cbn [List.length]; now rewrite IHj. }
  destruct (p x); cbn [List.length]; now rewrite E, IH.
Qed.

Lemma touches_count (column : Bar -> Qc) (level : Qc) (df : DataFrame) :
  touches column level df =
  List.length
    (filter (fun b =>
               fle (fmul64 (Fin level) (literal 98 100)) (Fin (column b))
               && fle (Fin (column b)) (fmul64 (Fin level) (literal 102 100)))
            df).
Proof.
  unfold touches, col. cbv zeta. rewrite !map_map.
  rewrite (and_of_masks
             (fun b => fge (Fin (column b))
                           (fmul64 (Fin level) (literal 98 100)))
             (fun b => fle (Fin (column b))
                           (fmul64 (Fin level) (literal 102 100)))).
  rewrite mask_sum_count, count_of_mask. reflexivity.
Qed.

(** The count reaches [n] exactly when [n] distinct bars lie within 2%
    of the level. *)
Lemma touches_spec (n : nat) (column : Bar -> Qc) (level : Qc)
    (df : DataFrame) :
  (n <= touches column level df)%nat <-> touched_by n column level df.
Proof.
  rewrite touches_count, <- count_by_position.
  set (p := fun b : Bar =>
              fle (fmul64 (Fin level) (literal 98 100)) (Fin (column b))
              && fle (Fin (column b))
                     (fmul64 (Fin level) (literal 102 100))).
  set (hits := filter (fun j => match nth_error df j with
                                | Some b => p b
                                | None => false
                                end) (seq 0 (List.length df))).
  assert (Hin : forall j,
             In j hits <->
             exists b, nth_error df j = Some b /\
                       within_2pct level (column b)).
  { intro j. unfold hits. rewrite filter_In, in_seq. split.
    - intros [_ H]. destruct (nth_error df j) as [b|]; [|discriminate].
      exists b. split; [reflexivity|]. unfold p in H.
      now apply andb_true_iff in H.
    - intros (b & Hb & H1 & H2). split.
      + split; [lia|]. apply nth_error_Some. congruence.
      + rewrite Hb. unfold p. now rewrite H1, H2. }
  split.
  - intro H. exists hits. split; [|split].
    + apply NoDup_filter, seq_NoDup.
    + exact H.
    + intros j Hj. now apply Hin.
  - intros (bars & Hnd & Hn & Hb).
    apply Nat.le_trans with (List.length bars); [exact Hn|].
    apply NoDup_incl_length; [exact Hnd|].
    intros j Hj. apply Hin. now apply Hb.
Qed.

Section Extreme.
(** [better item m] decides whether [item] replaces the running extreme
    [m]; [le y M] says that [M] is at least as extreme as [y]. *)
Variable better : fval -> fval -> bool.
Variable le : Qc -> Qc -> Prop.
Hypothesis le_refl : forall x, le x x.
Hypothesis le_trans : forall x y z, le x y -> le y z -> le x z.
Hypothesis le_antisym : forall x y, le x y -> le y x -> x = y.
Hypothesis better_true : forall q m, better (Fin q) (Fin m) = true -> le m q.
Hypothesis better_false : forall q m, better (Fin q) (Fin m) = false -> le q m.

Lemma fold_extreme (r : list Qc) (a : Qc) :
  exists M,
    fold_left (fun m item => if better item m then item else m)
              (map Fin r) (Fin a) = Fin M /\
    In M (a :: r) /\ forall y, In y (a :: r) -> le y M.
Proof.
  revert a. induction r as [|q r IH]; intro a.
  - exists a. repeat split; [now left|]. intros y [->|[]]. apply le_refl.
  - cbn [map fold_left]. destruct (better (Fin q) (Fin a)) eqn:E.
    + destruct (IH q) as (M & HM & Hin & Hle). exists M.
      split; [assumption|]. split.
      * right. exact Hin.
      * intros y [->|Hy]; [|now apply Hle].
        apply le_trans with q; [now apply better_true|].
        apply Hle. now left.
    + destruct (IH a) as (M & HM & Hin & Hle). exists M.
      split; [assumption|]. split.
      * destruct Hin as [->|Hin]; [now left | now right; right].
      * intros y [->|[->|Hy]].
        -- apply Hle. now left.
        -- apply le_trans with a; [now apply better_false|].
           apply Hle. now left.
        -- apply Hle. now right.
Qed.

Lemma extreme_of_window (l : list Qc) (c : Qc) :
  In c l ->
  (feqb (Fin c) (py_extreme better (dropna (map Fin l)) NaN) = true <->
   forall y, In y l -> le y c).
Proof.
  intro Hc. rewrite dropna_Fin.
  destruct l as [|a r]; [destruct Hc|].
  cbn [map py_extreme].
  destruct (fold_extreme r a) as (M & HM & Hin & Hle). rewrite HM.
  rewrite feqb_Fin. split.
  - intros -> y Hy. now apply Hle.
  - intro H. apply le_antisym; [now apply Hle | now apply H].
Qed.

Lemma extreme_at_interior (w i : nat) (column : Bar -> Qc) (df : DataFrame)
    (b : Bar) :
  (1 <= w)%nat -> (w <= i < List.length df - w)%nat ->
  nth_error df i = Some b ->
  (feqb (Fin (column b))
        (iloc (rolling_center w
                 (fun win => py_extreme better (dropna win) NaN)
                 (col column df)) i) = true <->
   forall j b', (window_lo w i <= j <= window_hi w i)%nat ->
                nth_error df j = Some b' -> le (column b') (column b)).
Proof.
  intros Hw Hi Hb. unfold rolling_center.
  rewrite (iloc_map_seq
    (fun i => let win := centered_window w i (col column df) in
              if (List.length (dropna win) <? w)%nat then NaN
              else py_extreme better (dropna win) NaN))
    by (unfold col; rewrite length_map; lia).
  cbv zeta.
  rewrite centered_window_interior
    by (unfold col; rewrite ?length_map; lia).
  rewrite col_as_prices, skipn_map, firstn_map.
  assert (Hd : ((w - 1) / 2 <= w - 1)%nat)
    by (apply Nat.Div0.div_le_upper_bound; lia).
  assert (Hlen : List.length
            (firstn w (skipn (window_lo w i) (map column df))) = w).
  { rewrite length_firstn, length_skipn, length_map.
    unfold window_lo. lia. }
  rewrite dropna_Fin at 1. rewrite length_map, Hlen, Nat.ltb_irrefl.
  rewrite extreme_of_window.
  - split.
    + intros H j b' Hj Hb'. apply H. apply in_slice.
      exists j. split.
      * unfold window_lo, window_hi in *. lia.
      * now rewrite nth_error_map, Hb'.
    + intros H y Hy. apply in_slice in Hy as [j [Hj Hy]].
      rewrite nth_error_map in Hy.
      destruct (nth_error df j) as [b'|] eqn:Eb; [|discriminate].
      inversion Hy; subst. apply (H j b'); [|assumption].
      unfold window_lo, window_hi in *. lia.
  - apply in_slice. exists i. split.
    + unfold window_lo. lia.
    + now rewrite nth_error_map, Hb.
Qed.

Lemma scan_levels_spec (w m : nat) (column : Bar -> Qc) (df : DataFrame)
    (l : Qc) :
  (1 <= w)%nat ->
  (In l (scan_levels w m column
           (rolling_center w
              (fun win => py_extreme better (dropna win) NaN)
              (col column df)) df) <->
   level_of le column w m df l).
Proof.
  intro Hw. unfold scan_levels, level_of. rewrite in_flat_map. split.
  - intros [i [Hi Hl]]. apply in_seq in Hi.
    destruct (nth_error df i) as [b|] eqn:Eb; [|destruct Hl].
    destruct (feqb (Fin (column b)) _) eqn:Ef; [|destruct Hl].
    destruct (m <=? touches column (column b) df)%nat eqn:Et;
      [|destruct Hl].
    destruct Hl as [<-|[]].
    exists i, b. repeat split; try lia.
    + assumption.
    + apply (extreme_at_interior w i column df b); try assumption; lia.
    + apply touches_spec. now apply Nat.leb_le.
  - intros (i & b & Hi & Hb & <- & Hext & Ht).
    exists i. split; [apply in_seq; lia|].
    rewrite Hb.
    replace (feqb (Fin (column b)) _) with true.
    + replace (m <=? touches column (column b) df)%nat with true
        by (symmetry; apply Nat.leb_le; now apply touches_spec).
      now left.
    + symmetry.
      apply (extreme_at_interior w i column df b); try assumption; lia.
Qed.
End Extreme.

Lemma resistance_scan (w m : nat) (df : DataFrame) (l : Qc) :
  (1 <= w)%nat ->
  (In l (scan_levels w m High (rolling_center_max w (col High df)) df) <->
   resistance_level w m df l).
Proof.
  intro Hw. unfold resistance_level.
  apply (scan_levels_spec fgt Qcle); try assumption.
  - apply Qcle_refl.
  - apply Qcle_trans.
  - apply Qcle_antisym.
  - intros q m0 H. apply Qclt_le_weak. now apply Qc_ltb_lt.
  - intros q m0 H. now apply Qc_ltb_ge.
Qed.

Lemma support_scan (w m : nat) (df : DataFrame) (l : Qc) :
  (1 <= w)%nat ->
  (In l (scan_levels w m Low (rolling_center_min w (col Low df)) df) <->
   support_level w m df l).
Proof.
  intro Hw. unfold support_level.
  apply (scan_levels_spec flt (fun x y => Qcle y x)); try assumption.
  - apply Qcle_refl.
  - intros x y z H1 H2. now apply Qcle_trans with y.
  - intros x y H1 H2. now apply Qcle_antisym.
  - intros q m0 H. apply Qclt_le_weak. now apply Qc_ltb_lt.
  - intros q m0 H. now apply Qc_ltb_ge.
Qed.

(** The band ends are doubles.  A high that is the double 1.02 touches
    the level 1.0: the upper end of its band is the double 1.0 * 1.02,
    which lies above the rational 102/100. *)
Lemma band_end_is_a_double :
  literal 102 100 = Fin (qfrac 2296835809958953 2251799813685248) /\
  (qfrac 102 100 < qfrac 2296835809958953 2251799813685248)%Qc /\
  touches High 1%Qc
    [Examples.flat_bar (qfrac 2296835809958953 2251799813685248)] = 1%nat.
Proof.
  split; [apply fsame_eq; vm_compute; reflexivity|].
  split; vm_compute; reflexivity.
Qed.

End ExtremeFacts.

(* ================================================================== *)
(** ** The simulator on whole histories *)
(* ================================================================== *)

Module BacktestFacts.
Import Float Pandas AnalysisEngine BacktestEngine Spec Examples.
Import FloatFacts PandasFacts TradeFacts.

Ltac series_eval := apply series_same_eq; vm_compute; reflexivity.
Ltac value_eval := apply fsame_eq; vm_compute; reflexivity.

Lemma strategy_returns_length (signals : list Z) (prices : Series) :
  List.length signals = List.length prices ->
  List.length (strategy_returns_of signals prices) = List.length prices.
Proof.
  intro H. unfold strategy_returns_of, pct_change.
  rewrite map2_length, shift1_length, positions_length, length_map,
    map2_length, shift1_length. lia.
Qed.

Lemma cumprod_from_length (acc : fval) (s : Series) :
  List.length (cumprod_from acc s) = List.length s.
Proof.
  revert acc. induction s as [|x r IH]; intro acc; simpl; [reflexivity|].
  destruct (isnan x); simpl; now rewrite IH.
Qed.

Lemma equity_length (cap : Qc) (signals : list Z) (prices : Series) :
  List.length signals = List.length prices ->
  List.length (equity_of cap signals prices) = List.length prices.
Proof.
  intro H. unfold equity_of, cumprod.
  now rewrite length_map, cumprod_from_length, length_map,
    strategy_returns_length.
Qed.

Lemma strategy_returns_head (signals : list Z) (prices : Series) :
  iloc (strategy_returns_of signals prices) 0 = NaN.
Proof.
  unfold strategy_returns_of.
  destruct (Nat.eq_dec (List.length (map2 fmul (shift1 (positions_of signals))
                                      (pct_change prices))) 0) as [E|E].
  - apply iloc_overflow. lia.
  - rewrite map2_length, shift1_length in E.
    unfold iloc. rewrite (nth_map2 fmul _ _ 0 NaN NaN NaN)
      by (rewrite ?shift1_length; lia).
    fold (iloc (shift1 (positions_of signals)) 0).
    now rewrite iloc_shift1_0.
Qed.

Lemma equity_head (cap : Qc) (signals : list Z) (prices : Series) :
  iloc (equity_of cap signals prices) 0 = NaN.
Proof.
  unfold equity_of.
  pose proof (strategy_returns_head signals prices) as H.
  destruct (strategy_returns_of signals prices) as [|x r]; [reflexivity|].
  unfold iloc in H. cbn [nth] in H. subst x. reflexivity.
Qed.

Lemma simple_backtest_total (sqrt_ : Qc -> Qc) (df : DataFrame) (cap : Qc)
    (signals : list Z) :
  df <> [] -> List.length signals = List.length df ->
  exists r, simple_backtest sqrt_ df cap signals None None = Some r.
Proof.
  intros Hne HL. unfold simple_backtest.
  assert (Hlen : List.length (equity_of cap signals (col Close df))
                 = List.length df).
  { rewrite equity_length; unfold col; rewrite length_map; auto. }
  destruct (equity_of cap signals (col Close df)) as [|e es] eqn:E.
  - destruct df; [congruence | simpl in Hlen; lia].
  - cbn [iloc_last]. destruct (trade_statistics _) as [[[a b] c] d].
    eexists. reflexivity.
Qed.

(** The summary fields of the result, in terms of the trade log and the
    two series. *)
Lemma simple_backtest_summary (sqrt_ : Qc -> Qc) (df : DataFrame) (cap : Qc)
    (signals : list Z) (r : Result) :
  simple_backtest sqrt_ df cap signals None None = Some r ->
  let T := _calculate_trades df (positions_of signals)
             (col Close df) (col Close df) in
  let sr := strategy_returns_of signals (col Close df) in
  let eq := equity_of cap signals (col Close df) in
  trades r = List.length T /\
  win_rate_pct r = _calculate_win_rate T /\
  sharpe r = _calculate_sharpe sqrt_ sr (Fin 0) /\
  max_dd_pct r = _calculate_max_drawdown eq /\
  total_return_pct r =
    fmul (fsub (fdiv (final_equity r) (Fin cap)) (Fin 1)) (fz 100) /\
  avg_win_pct r = round2 (let '(a, _, _, _) := trade_statistics T in a) /\
  avg_loss_pct r = round2 (let '(_, b, _, _) := trade_statistics T in b) /\
  largest_win_pct r = round2 (let '(_, _, c, _) := trade_statistics T in c) /\
  largest_loss_pct r = round2 (let '(_, _, _, d) := trade_statistics T in d) /\
  winning_trades r =
    match T with _ :: _ => List.length (filter win T) | [] => 0%nat end /\
  losing_trades r =
    match T with
    | _ :: _ => List.length (filter (fun t => negb (win t)) T)
    | [] => 0%nat
    end.
Proof.
  unfold simple_backtest.
  destruct (iloc_last (equity_of cap signals (col Close df))) as [final|];
    [|discriminate].
  destruct (trade_statistics _) as [[[a b] c] d].
  intro H. inversion H; subst; clear H. cbn. repeat split.
Qed.

End BacktestFacts.

(* ================================================================== *)
(** ** Execution lag and compounding *)
(* ================================================================== *)

Module LagFacts.
Import Float Pandas AnalysisEngine BacktestEngine Spec Examples.
Import FloatFacts PandasFacts RsiFacts TradeFacts BacktestFacts.

Lemma pct_change_length (s : Series) :
  List.length (pct_change s) = List.length s.
Proof.
  unfold pct_change. rewrite length_map, map2_length, shift1_length. lia.
Qed.

Lemma iloc_pct_change_S (s : Series) (i : nat) :
  (S i < List.length s)%nat ->
  iloc (pct_change s) (S i) = fsub (fdiv (iloc s (S i)) (iloc s i)) (Fin 1).
Proof.
  intro H. unfold pct_change.
  rewrite iloc_map by (rewrite map2_length, shift1_length; lia).
  unfold iloc at 1.
  rewrite (nth_map2 fdiv _ _ (S i) NaN NaN NaN)
    by (rewrite ?shift1_length; lia).
  fold (iloc s (S i)) (iloc (shift1 s) (S i)).
  now rewrite iloc_shift1_S.
Qed.

Lemma iloc_strategy_returns_S (signals : list Z) (prices : Series) (i : nat) :
  List.length signals = List.length prices ->
  (S i < List.length prices)%nat ->
  iloc (strategy_returns_of signals prices) (S i) =
  fmul (iloc (positions_of signals) i)
       (fsub (fdiv (iloc prices (S i)) (iloc prices i)) (Fin 1)).
Proof.
  intros HL Hi. unfold strategy_returns_of, iloc at 1.
  rewrite (nth_map2 fmul _ _ (S i) NaN NaN NaN)
    by (rewrite ?shift1_length, ?positions_length, ?pct_change_length; lia).
  fold (iloc (shift1 (positions_of signals)) (S i)).
  fold (iloc (pct_change prices) (S i)).
  rewrite iloc_shift1_S by (rewrite positions_length; lia).
  now rewrite iloc_pct_change_S.
Qed.

(** Positions at a bar depend on the signals up to that bar only. *)
Lemma positions_agree (s s' : list Z) (i : nat) :
  (i < List.length s)%nat -> (i < List.length s')%nat ->
  (forall j, (j <= i)%nat -> nth j s' 0%Z = nth j s 0%Z) ->
  iloc (positions_of s') i = iloc (positions_of s) i.
Proof.
  induction i as [|i IH]; intros H1 H2 Hs.
  - rewrite !positions_step by assumption. now rewrite Hs.
  - rewrite (positions_step s') by assumption.
    rewrite (positions_step s) by assumption.
    rewrite Hs by lia. rewrite IH; [reflexivity | lia | lia |].
    intros j Hj. apply Hs. lia.
Qed.

Lemma positions_finite (s : list Z) (i : nat) :
  (i < List.length s)%nat -> exists q, iloc (positions_of s) i = Fin q.
Proof.
  induction i as [|i IH]; intro H; rewrite positions_step by assumption.
  - destruct (nth 0 s 0 =? 0)%Z; eexists; reflexivity.
  - destruct (nth (S i) s 0 =? 0)%Z; [apply IH; lia | eexists; reflexivity].
Qed.

Lemma returns_agree (s s' : list Z) (prices : Series) (i k : nat) :
  List.length s = List.length prices ->
  List.length s' = List.length prices ->
  (forall j, (j < i)%nat -> nth j s' 0%Z = nth j s 0%Z) ->
  (k <= i)%nat ->
  iloc (strategy_returns_of s' prices) k = iloc (strategy_returns_of s prices) k.
Proof.
  intros H1 H2 Hs Hk. destruct k as [|k].
  - now rewrite !strategy_returns_head.
  - destruct (Nat.lt_ge_cases (S k) (List.length prices)) as [Hlt|Hge].
    + rewrite !iloc_strategy_returns_S by assumption.
      rewrite (positions_agree s s' k); [reflexivity | lia | lia |].
      intros j Hj. apply Hs. lia.
    + rewrite !iloc_overflow; [reflexivity | |];
        rewrite strategy_returns_length; assumption.
Qed.

(** *** Compounding *)

Lemma cumprod_from_step (s : Series) (acc : fval) (i : nat) :
  (S i < List.length s)%nat ->
  notna (iloc s i) = true -> notna (iloc s (S i)) = true ->
  iloc (cumprod_from acc s) (S i) =
  fmul (iloc (cumprod_from acc s) i) (iloc s (S i)).
Proof.
  revert acc i. induction s as [|x r IH]; intros acc i Hl H0 H1;
    [simpl in Hl; lia|].
  destruct i as [|i].
  - destruct r as [|y r']; [simpl in Hl; lia|].
    unfold iloc in *. cbn [nth] in *. cbn [cumprod_from].
    unfold notna in H0, H1. apply negb_true_iff in H0, H1.
    rewrite H0. cbn [cumprod_from]. rewrite H1. reflexivity.
  - unfold iloc in *. cbn [nth] in H0, H1. cbn [cumprod_from].
    destruct (isnan x); cbn [nth]; apply IH; simpl in Hl; try lia; assumption.
Qed.

Lemma cumprod_second (x y : fval) (r : Series) :
  isnan x = true -> isfinite y = true ->
  iloc (cumprod (x :: y :: r)) 1 = y.
Proof.
  intros Hx Hy. unfold cumprod. cbn [cumprod_from]. rewrite Hx.
  destruct y as [q| | |]; try discriminate.
  cbn [cumprod_from isnan]. unfold iloc. cbn [nth fmul].
  f_equal. ring.
Qed.

Lemma cumprod_at_1 (s : Series) :
  (1 < List.length s)%nat ->
  isnan (iloc s 0) = true -> isfinite (iloc s 1) = true ->
  iloc (cumprod s) 1 = iloc s 1.
Proof.
  intros Hl H0 H1. destruct s as [|x [|y r]]; try (simpl in Hl; lia).
  now apply cumprod_second.
Qed.

Section Compounding.
Variable df : DataFrame.
Variable cap : Qc.
Variable signals : list Z.
Hypothesis closes_nonzero : Forall (fun b => Close b <> 0%Qc) df.
Hypothesis same_length : List.length signals = List.length df.

Let n := List.length df.
Let sr := strategy_returns_of signals (col Close df).
Let growth := map (fun r => fadd (Fin 1) r) sr.

Lemma close_finite_nonzero (i : nat) :
  (i < n)%nat ->
  exists q, iloc (col Close df) i = Fin q /\ q <> 0%Qc.
Proof.
  intro Hi. rewrite col_as_prices, iloc_prices by (now rewrite length_map).
  eexists. split; [reflexivity|].
  unfold price_at.
  assert (F : Forall (fun q => q <> 0%Qc) (map Close df))
    by (now apply Forall_map).
  rewrite Forall_forall in F. apply F. apply nth_In. now rewrite length_map.
Qed.

Lemma sr_length : List.length sr = n.
Proof.
  unfold sr. rewrite strategy_returns_length; unfold col;
    rewrite length_map; auto.
Qed.

Lemma sr_finite (i : nat) :
  (S i < n)%nat -> exists q, iloc sr (S i) = Fin q.
Proof.
  intro Hi. unfold sr.
  rewrite iloc_strategy_returns_S
    by (unfold col; rewrite length_map; auto).
  destruct (positions_finite signals i) as [p Hp]; [lia|].
  destruct (close_finite_nonzero (S i) Hi) as (a & Ha & _).
  destruct (close_finite_nonzero i) as (b & Hb & Hb0); [lia|].
  rewrite Hp, Ha, Hb, fdiv_Fin by assumption.
  eexists. reflexivity.
Qed.

Lemma growth_at (i : nat) :
  (i < n)%nat -> iloc growth i = fadd (Fin 1) (iloc sr i).
Proof.
  intro Hi. unfold growth. apply iloc_map. now rewrite sr_length.
Qed.

Lemma growth_finite (i : nat) :
  (S i < n)%nat -> exists q, iloc growth (S i) = Fin q.
Proof.
  intro Hi. rewrite growth_at by assumption.
  destruct (sr_finite i Hi) as [q Hq]. rewrite Hq.
  eexists. reflexivity.
Qed.

Lemma growth_head : isnan (iloc growth 0) = true.
Proof.
  destruct (Nat.eq_dec n 0) as [E|E].
  - rewrite iloc_overflow; [reflexivity|].
    unfold growth. rewrite length_map, sr_length. lia.
  - rewrite growth_at by lia. unfold sr.
    now rewrite strategy_returns_head.
Qed.

Lemma cumprod_growth_step (i : nat) :
  (S (S i) < n)%nat ->
  iloc (cumprod growth) (S (S i)) =
  fmul (iloc (cumprod growth) (S i)) (iloc growth (S (S i))).
Proof.
  intro Hi. unfold cumprod. apply cumprod_from_step.
  - unfold growth. rewrite length_map, sr_length. lia.
  - destruct (growth_finite i) as [q Hq]; [lia|]. now rewrite Hq.
  - destruct (growth_finite (S i)) as [q Hq]; [lia|]. now rewrite Hq.
Qed.

Lemma cumprod_growth_first :
  (1 < n)%nat -> iloc (cumprod growth) 1 = iloc growth 1.
Proof.
  intro Hn. apply cumprod_at_1.
  - unfold growth. rewrite length_map, sr_length. lia.
  - apply growth_head.
  - destruct (growth_finite 0) as [q Hq]; [lia|]. now rewrite Hq.
Qed.

Lemma cumprod_growth_finite (i : nat) :
  (S i < n)%nat -> exists q, iloc (cumprod growth) (S i) = Fin q.
Proof.
  induction i as [|i IH]; intro Hi.
  - rewrite cumprod_growth_first by lia. now apply growth_finite.
  - rewrite cumprod_growth_step by assumption.
    destruct IH as [a Ha]; [lia|].
    destruct (growth_finite (S i) Hi) as [b Hb].
    rewrite Ha, Hb. eexists. reflexivity.
Qed.

Lemma equity_at (i : nat) :
  (i < n)%nat ->
  iloc (equity_of cap signals (col Close df)) i =
  fmul (iloc (cumprod growth) i) (Fin cap).
Proof.
  intro Hi. unfold equity_of. fold sr. fold growth.
  apply iloc_map. unfold cumprod.
  rewrite cumprod_from_length. unfold growth.
  now rewrite length_map, sr_length.
Qed.

Lemma equity_seed :
  (1 < n)%nat ->
  iloc (equity_of cap signals (col Close df)) 1 =
  fmul (Fin cap) (fadd (Fin 1) (iloc sr 1)).
Proof.
  intro Hn. rewrite equity_at, cumprod_growth_first, growth_at by lia.
  destruct (sr_finite 0) as [q Hq]; [lia|]. rewrite Hq.
  cbn [fadd fmul]. f_equal. ring.
Qed.

Lemma equity_step (i : nat) :
  (S (S i) < n)%nat ->
  iloc (equity_of cap signals (col Close df)) (S (S i)) =
  fmul (iloc (equity_of cap signals (col Close df)) (S i))
       (fadd (Fin 1) (iloc sr (S (S i)))).
Proof.
  intro Hi. rewrite !equity_at, cumprod_growth_step by lia.
  rewrite growth_at by lia.
  destruct (cumprod_growth_finite i) as [a Ha]; [lia|].
  destruct (sr_finite (S i) Hi) as [q Hq]. rewrite Ha, Hq.
  cbn [fadd fmul]. f_equal. ring.
Qed.

Lemma equity_finite (i : nat) :
  (S i < n)%nat ->
  isfinite (iloc (equity_of cap signals (col Close df)) (S i)) = true.
Proof.
  intro Hi. rewrite equity_at by assumption.
  destruct (cumprod_growth_finite i Hi) as [a Ha]. now rewrite Ha.
Qed.
End Compounding.

End LagFacts.

(* ================================================================== *)
(** ** Histories without any signal *)
(* ================================================================== *)

Module FlatFacts.
Import Float Pandas AnalysisEngine BacktestEngine Spec Examples.
Import FloatFacts PandasFacts RsiFacts TradeFacts BacktestFacts LagFacts.

Lemma last_iloc (s : Series) :
  s <> [] -> last s NaN = iloc s (List.length s - 1).
Proof.
  induction s as [|x r IH]; [congruence|]. intros _.
  destruct r as [|y r']; [reflexivity|].
  change (last (x :: y :: r') NaN) with (last (y :: r') NaN).
  rewrite IH by discriminate. unfold iloc. cbn [List.length].
  replace (S (S (List.length r')) - 1)%nat with (S (List.length r')) by lia.
  cbn [nth]. now replace (S (List.length r') - 1)%nat with (List.length r') by lia.
Qed.

Lemma iloc_last_iloc (s : Series) (x : fval) :
  iloc_last s = Some x -> x = iloc s (List.length s - 1).
Proof.
  destruct s as [|a r]; [discriminate|].
  unfold iloc_last. intro H. injection H as <-.
  assert (Hne : a :: r <> []) by discriminate.
  exact (last_iloc (a :: r) Hne).
Qed.

Lemma fsum_zeros (m : nat) : fsum (repeat (Fin 0) m) = Fin 0.
Proof.
  unfold fsum. induction m as [|m IH]; [reflexivity|]. exact IH.
Qed.

Lemma dropna_zeros (m : nat) :
  dropna (NaN :: repeat (Fin 0) m) = repeat (Fin 0) m.
Proof.
  unfold dropna. cbn [filter notna isnan negb].
  induction m as [|m IH]; [reflexivity|]. cbn. now rewrite IH.
Qed.

Lemma Qc_zero_div (x : Qc) : (0 / x)%Qc = 0%Qc.
Proof. unfold Qcdiv. apply Qcmult_0_l. Qed.

Lemma mean_zeros (m : nat) :
  (1 <= m)%nat -> mean (NaN :: repeat (Fin 0) m) = Fin 0.
Proof.
  intro H. unfold mean. rewrite dropna_zeros.
  destruct m as [|m]; [lia|]. cbn [repeat].
  change (Fin 0 :: repeat (Fin 0) m) with (repeat (Fin 0) (S m)).
  rewrite fsum_zeros, repeat_length. unfold fz.
  rewrite fdiv_Fin by (apply qz_pos_neq0; lia).
  now rewrite Qc_zero_div.
Qed.

Lemma var_zeros (m : nat) :
  (2 <= m)%nat -> var (NaN :: repeat (Fin 0) m) = Fin 0.
Proof.
  intro H. unfold var. rewrite mean_zeros by lia. rewrite dropna_zeros.
  rewrite repeat_length.
  replace (m <=? 1)%nat with false by (symmetry; apply Nat.leb_gt; lia).
  assert (E : map (fun x => fmul (fsub x (Fin 0)) (fsub x (Fin 0)))
                  (repeat (Fin 0) m) = repeat (Fin 0) m).
  { clear H. induction m as [|m IH]; [reflexivity|].
    cbn [repeat map]. now rewrite IH. }
  rewrite E, fsum_zeros. unfold fz.
  replace (Z.of_nat m - 1)%Z with (Z.of_nat (m - 1)) by lia.
  rewrite fdiv_Fin by (apply qz_pos_neq0; lia).
  now rewrite Qc_zero_div.
Qed.

Lemma sharpe_zeros (sqrt_ : Qc -> Qc) (m : nat) :
  sqrt_ 0%Qc = 0%Qc -> (2 <= m)%nat ->
  _calculate_sharpe sqrt_ (NaN :: repeat (Fin 0) m) (Fin 0) = Fin 0.
Proof.
  intros H0 Hm. unfold _calculate_sharpe, std.
  rewrite var_zeros by assumption. cbn [fsqrt]. rewrite H0.
  reflexivity.
Qed.

Section NoSignal.
Variable df : DataFrame.
Variable cap : Qc.
Variable signals : list Z.
Hypothesis closes_nonzero : Forall (fun b => Close b <> 0%Qc) df.
Hypothesis same_length : List.length signals = List.length df.
Hypothesis all_none : Forall (fun z => z = 0%Z) signals.

Lemma positions_all_zero (i : nat) :
  (i < List.length signals)%nat -> iloc (positions_of signals) i = Fin 0.
Proof.
  induction i as [|i IH]; intro Hi; rewrite positions_step by assumption.
  - rewrite Forall_forall in all_none.
    rewrite (all_none (nth 0 signals 0%Z)) by (now apply nth_In).
    reflexivity.
  - rewrite Forall_forall in all_none.
    rewrite (all_none (nth (S i) signals 0%Z)) by (now apply nth_In).
    cbn [Z.eqb]. apply IH. lia.
Qed.

Lemma returns_all_zero (i : nat) :
  (S i < List.length df)%nat ->
  iloc (strategy_returns_of signals (col Close df)) (S i) = Fin 0.
Proof.
  intro Hi.
  destruct (sr_finite df signals closes_nonzero same_length i Hi) as [q Hq].
  rewrite iloc_strategy_returns_S in Hq |- *
    by (unfold col; rewrite length_map; auto).
  rewrite positions_all_zero in Hq |- * by lia.
  destruct (fsub _ _) as [x| | |]; try discriminate.
  cbn [fmul]. f_equal. apply Qcmult_0_l.
Qed.

Lemma returns_flat :
  (1 <= List.length df)%nat ->
  strategy_returns_of signals (col Close df) =
  NaN :: repeat (Fin 0) (List.length df - 1).
Proof.
  intro Hn.
  assert (HL : List.length (strategy_returns_of signals (col Close df))
               = List.length df).
  { rewrite strategy_returns_length; unfold col; rewrite length_map; auto. }
  apply (nth_ext _ _ NaN NaN).
  - cbn [List.length]. rewrite repeat_length, HL. lia.
  - intros i Hi. rewrite HL in Hi.
    fold (iloc (strategy_returns_of signals (col Close df)) i).
    destruct i as [|i].
    + now rewrite strategy_returns_head.
    + rewrite returns_all_zero by assumption. cbn [nth].
      symmetry. apply nth_repeat_lt. lia.
Qed.

Lemma equity_flat (i : nat) :
  (S i < List.length df)%nat ->
  iloc (equity_of cap signals (col Close df)) (S i) = Fin cap.
Proof.
  induction i as [|i IH]; intro Hi.
  - rewrite (equity_seed df cap signals closes_nonzero same_length) by lia.
    rewrite returns_all_zero by assumption. cbn [fadd fmul]. f_equal. ring.
  - rewrite (equity_step df cap signals closes_nonzero same_length)
      by assumption.
    rewrite IH by lia. rewrite returns_all_zero by assumption.
    cbn [fadd fmul]. f_equal. ring.
Qed.

Lemma no_trades :
  _calculate_trades df (positions_of signals) (col Close df) (col Close df)
  = [].
Proof.
  unfold _calculate_trades. rewrite positions_length.
  assert (H : forall n, (n <= List.length signals)%nat ->
            fold_left (trade_step df (positions_of signals)
                         (col Close df) (col Close df))
                      (seq 0 n) ([], FLAT) = ([], FLAT)).
  { induction n as [|n IH]; intro Hn; [reflexivity|].
    rewrite seq_S, fold_left_app, IH by lia. cbn [fold_left Nat.add].
    unfold trade_step. rewrite positions_all_zero by lia. reflexivity. }
  now rewrite H.
Qed.
End NoSignal.

End FlatFacts.

(* ================================================================== *)
(** ** The trade log as a state machine over the signals *)
(* ================================================================== *)

Module TradeLogFacts.
Import Float Pandas AnalysisEngine BacktestEngine Spec Props.
Import FloatFacts PandasFacts TradeFacts.

Lemma feqb_fz (a b : Z) : feqb (fz a) (fz b) = (a =? b)%Z.
Proof.
  destruct (a =? b)%Z eqn:E.
  - apply Z.eqb_eq in E. subst. unfold fz. now apply feqb_Fin.
  - destruct (feqb (fz a) (fz b)) eqn:F; [|reflexivity].
    apply fz_inj in F. apply Z.eqb_neq in E. contradiction.
Qed.

Lemma skipn_cons_nth {A : Type} (d : A) (l : list A) (n : nat) :
  (n < List.length l)%nat -> skipn n l = nth n l d :: skipn (S n) l.
Proof.
  revert n. induction l as [|x l IH]; intros n H; [simpl in H; lia|].
  destruct n as [|n]; [reflexivity|].
  cbn [skipn nth]. apply IH. simpl in H. lia.
Qed.

(** While flat the position series reads 1 exactly at a signal 1; while
    long it reads -1 exactly at a signal -1. *)
Lemma position_reads_signal (signals : list Z) (EP : Series) (n : nat)
    (pos : Position) :
  (n < List.length signals)%nat ->
  position_consistent (positions_of signals) EP n pos ->
  feqb (iloc (positions_of signals) n)
       (fz (if in_position pos then -1 else 1)) =
  (nth n signals 0 =? (if in_position pos then -1 else 1))%Z.
Proof.
  intros Hn Hc. rewrite positions_step by assumption.
  destruct (nth n signals 0 =? 0)%Z eqn:E0; [|apply feqb_fz].
  apply Z.eqb_eq in E0. rewrite E0.
  destruct pos as [|e p d]; cbn [in_position position_consistent] in *.
  - destruct n as [|j]; [reflexivity|].
    destruct Hc as [Hc|Hc]; [discriminate|].
    now replace (S j - 1)%nat with j in Hc by lia.
  - destruct Hc as (He & _ & _ & _ & Hc).
    destruct n as [|j]; [lia|].
    now replace (S j - 1)%nat with j in Hc by lia.
Qed.

Lemma StronglySorted_snoc {A : Type} (R : A -> A -> Prop) (l : list A)
    (x : A) :
  StronglySorted R l -> Forall (fun y => R y x) l ->
  StronglySorted R (l ++ [x]).
Proof.
  induction l as [|y l IH]; cbn; intros Hs Hf.
  - repeat constructor.
  - apply StronglySorted_inv in Hs as [Hs Hy].
    apply Forall_cons_iff in Hf as [Hyx Hf].
    constructor; [now apply IH|].
    apply Forall_app. split; [assumption|]. now repeat constructor.
Qed.

Section Log.
Variable df : DataFrame.
Variable signals : list Z.
Variables EP XP : Series.

Let P := positions_of signals.
Let run := trades_after df P EP XP.

(** One pass of the loop body, read on the signal of the bar. *)
Lemma trade_step_by_signal (n : nat) (T : list Trade) (pos : Position) :
  (n < List.length signals)%nat ->
  position_consistent P EP n pos ->
  trade_step df P EP XP (T, pos) n =
  match pos with
  | FLAT =>
      if (nth n signals 0 =? 1)%Z
      then (T, LONG n (iloc EP n) (index_at df n))
      else (T, FLAT)
  | LONG e p d =>
      if (nth n signals 0 =? -1)%Z
      then
        let pnl :=
          fmul (fdiv (fsub (iloc XP n) p) p) (fz 100) in
        (T ++ [mkTrade (List.length T + 1) d (index_at df n)
                 (round2 p) (round2 (iloc XP n)) e n (round2 pnl)
                 (round2 (fsub (iloc XP n) p)) (n - e)
                 (fgt pnl (Fin 0))],
         FLAT)
      else (T, LONG e p d)
  end.
Proof.
  intros Hn Hc.
  pose proof (position_reads_signal signals EP n pos Hn Hc) as Hr.
  unfold trade_step. fold P in Hr.
  destruct pos as [|e p d]; cbn [in_position negb] in *.
  - rewrite Hr, !andb_true_r, andb_false_r.
    now destruct (nth n signals 0 =? 1)%Z.
  - rewrite Hr, andb_false_r, andb_true_r.
    now destruct (nth n signals 0 =? -1)%Z.
Qed.

Lemma run_step (n : nat) :
  (n < List.length signals)%nat ->
  run (S n) =
  match snd (run n) with
  | FLAT =>
      if (nth n signals 0 =? 1)%Z
      then (fst (run n), LONG n (iloc EP n) (index_at df n))
      else (fst (run n), FLAT)
  | LONG e p d =>
      if (nth n signals 0 =? -1)%Z
      then
        let pnl :=
          fmul (fdiv (fsub (iloc XP n) p) p) (fz 100) in
        (fst (run n) ++
           [mkTrade (List.length (fst (run n)) + 1) d (index_at df n)
              (round2 p) (round2 (iloc XP n)) e n (round2 pnl)
              (round2 (fsub (iloc XP n) p)) (n - e)
              (fgt pnl (Fin 0))],
         FLAT)
      else (fst (run n), LONG e p d)
  end.
Proof.
  intro Hn. unfold run. rewrite run_S.
  pose proof (proj2 (run_invariant df P EP XP n)) as Hc.
  destruct (trades_after df P EP XP n) as [T pos]. cbn [fst snd] in *.
  now apply trade_step_by_signal.
Qed.

Lemma run_round_trips (n : nat) :
  (n <= List.length signals)%nat ->
  map trade_bars (fst (run n)) ++
    round_trips_from n (held_bar (snd (run n))) (skipn n signals) =
  round_trips signals.
Proof.
  induction n as [|n IH]; intro Hn; [reflexivity|].
  rewrite <- IH by lia. rewrite run_step by lia.
  rewrite (skipn_cons_nth 0%Z signals n) by lia.
  destruct (run n) as [T pos]. cbn [fst snd].
  destruct pos as [|e p d]; cbn [held_bar round_trips_from].
  - now destruct (nth n signals 0 =? 1)%Z.
  - destruct (nth n signals 0 =? -1)%Z; [|reflexivity].
    cbn [fst snd held_bar]. rewrite map_app, <- app_assoc. reflexivity.
Qed.

Lemma calculate_trades_round_trips :
  map trade_bars (_calculate_trades df P EP XP) = round_trips signals.
Proof.
  pose proof (run_round_trips (List.length signals) (Nat.le_refl _)) as H.
  rewrite skipn_all in H. cbn [round_trips_from] in H.
  destruct (snd (run (List.length signals)));
    cbn [held_bar round_trips_from] in H; rewrite app_nil_r in H;
    unfold _calculate_trades, P; rewrite positions_length; exact H.
Qed.

(** The records of the log and their order. *)
Lemma run_log_invariant (n : nat) :
  (n <= List.length signals)%nat -> log_invariant EP XP n (run n).
Proof.
  induction n as [|n IH]; intro Hn.
  - unfold log_invariant, trades_in_sequence. cbn.
    repeat split; constructor.
  - specialize (IH ltac:(lia)). rewrite run_step by lia.
    destruct (run n) as [T pos]. unfold log_invariant in *.
    cbn [fst snd] in *.
    destruct IH as (Hrec & [Hnum Hord] & Hlt & Hpos).
    assert (Hlt' : Forall (fun t => (exit_idx t < S n)%nat) T).
    { eapply Forall_impl; [|exact Hlt]. cbn. intros. lia. }
    destruct pos as [|e p d].
    + destruct (nth n signals 0 =? 1)%Z; cbn [fst snd].
      * split; [assumption|]. split; [now split|].
        split; [assumption|]. split; [lia|]. split; [reflexivity|].
        assumption.
      * split; [assumption|]. split; [now split|]. now split.
    + destruct Hpos as (He & Hp & Hbefore).
      destruct (nth n signals 0 =? -1)%Z; cbn [fst snd].
      * subst p. split; [|split; [|split; [|exact I]]].
        -- apply Forall_app. split; [assumption|].
           constructor; [|constructor].
           unfold trade_record. cbn. repeat split; lia.
        -- unfold trades_in_sequence in *. split.
           ++ rewrite map_app, length_app, Hnum. cbn [map List.length].
              rewrite seq_app. cbn. repeat f_equal. lia.
           ++ apply StronglySorted_snoc; assumption.
        -- apply Forall_app. split; [assumption|].
           constructor; [cbn; lia | constructor].
      * split; [assumption|]. split; [now split|].
        split; [assumption|]. split; [lia|]. now split.
Qed.

Lemma calculate_trades_log :
  Forall (trade_record EP XP) (_calculate_trades df P EP XP) /\
  trades_in_sequence (_calculate_trades df P EP XP) /\
  Forall (fun t => (exit_idx t < List.length signals)%nat)
         (_calculate_trades df P EP XP).
Proof.
  pose proof (run_log_invariant (List.length signals) (Nat.le_refl _))
    as (H1 & H2 & H3 & _).
  unfold _calculate_trades, P. rewrite positions_length.
  split; [exact H1|]. split; [exact H2 | exact H3].
Qed.
End Log.

(** The trade fields of the result of [simple_backtest], whatever the
    price series. *)
Lemma simple_backtest_trades (sqrt_ : Qc -> Qc) (df : DataFrame) (cap : Qc)
    (signals : list Z) (ep xp : option Series) (r : Result) :
  simple_backtest sqrt_ df cap signals ep xp = Some r ->
  trades_detail r =
    _calculate_trades df (positions_of signals) (price_or_close df ep)
      (price_or_close df xp) /\
  trades r = List.length (trades_detail r) /\
  winning_trades r = List.length (filter win (trades_detail r)) /\
  losing_trades r =
    List.length (filter (fun t => negb (win t)) (trades_detail r)) /\
  win_rate_pct r = _calculate_win_rate (trades_detail r).
Proof.
  unfold simple_backtest. fold (price_or_close df ep).
  fold (price_or_close df xp).
  destruct (iloc_last _) as [final|]; [|discriminate].
  destruct (trade_statistics _) as [[[a b] c] d].
  intro H. injection H as <-. cbn.
  split; [reflexivity|]. split; [reflexivity|].
  destruct (_calculate_trades _ _ _ _); cbn; repeat split; reflexivity.
Qed.

End TradeLogFacts.

(* ================================================================== *)
(** ** Order on the rationals behind the float model *)
(* ================================================================== *)

Module OrderFacts.
Import Float FloatFacts.

Lemma this_plus (a b : Qc) : (this (a + b) == this a + this b)%Q.
Proof. apply Qred_correct. Qed.

Lemma this_mult (a b : Qc) : (this (a * b) == this a * this b)%Q.
Proof. apply Qred_correct. Qed.

Lemma this_opp (a : Qc) : (this (- a) == - this a)%Q.
Proof. apply Qred_correct. Qed.

Lemma this_minus (a b : Qc) : (this (a - b) == this a - this b)%Q.
Proof. unfold Qcminus. rewrite this_plus, this_opp. reflexivity. Qed.

Lemma this_inv (a : Qc) : (this (/ a) == / this a)%Q.
Proof. apply Qred_correct. Qed.

Lemma this_div (a b : Qc) : (this (a / b) == this a / this b)%Q.
Proof. unfold Qcdiv. rewrite this_mult, this_inv. reflexivity. Qed.

Lemma this_Q2Qc (q : Q) : (this (Q2Qc q) == q)%Q.
Proof. apply Qred_correct. Qed.

Lemma this_qz (z : Z) : (this (qz z) == inject_Z z)%Q.
Proof. apply Qred_correct. Qed.

Lemma Qc_eq_this (a b : Qc) : a = b <-> (this a == this b)%Q.
Proof. split; [now intros ->|apply Qc_is_canon]. Qed.

(** Reads an order statement on [Qc] as one on [Q]. *)
Ltac to_Q :=
  unfold Qcle, Qclt in *;
  repeat (progress (rewrite ?this_plus, ?this_minus, ?this_mult, ?this_opp,
                      ?this_div, ?this_inv, ?this_qz, ?this_Q2Qc in * )).

Lemma qz_le (a b : Z) : (a <= b)%Z -> (qz a <= qz b)%Qc.
Proof. intro H. to_Q. now rewrite <- Zle_Qle. Qed.

Lemma qz_lt (a b : Z) : (a < b)%Z -> (qz a < qz b)%Qc.
Proof. intro H. to_Q. now rewrite <- Zlt_Qlt. Qed.

Lemma Qdiv_pos_iff (a b : Q) : (0 < b -> (0 < a / b <-> 0 < a))%Q.
Proof.
  intro Hb.
  assert (E : (b * (a / b) == a)%Q) by (apply Qmult_div_r; lra).
  split; intro H; [nra|].
  apply Qlt_shift_div_l; lra.
Qed.

Lemma Qdiv_nonneg (a b : Q) : (0 <= a -> 0 < b -> 0 <= a / b)%Q.
Proof. intros Ha Hb. apply Qle_shift_div_l; lra. Qed.

Lemma Qdiv_le_1 (a b : Q) : (a <= b -> 0 < b -> a / b <= 1)%Q.
Proof. intros Ha Hb. apply Qle_shift_div_r; lra. Qed.

Lemma Qc_lt_irrefl (x : Qc) : ~ (x < x)%Qc.
Proof. to_Q. lra. Qed.

Lemma Qc_ltb_irrefl (x : Qc) : Qc_ltb x x = false.
Proof. apply Qc_ltb_ge. apply Qcle_refl. Qed.

Lemma Qc_ltb_iff (a b c d : Qc) :
  ((a < b)%Qc <-> (c < d)%Qc) -> Qc_ltb a b = Qc_ltb c d.
Proof.
  intro H. destruct (Qc_ltb c d) eqn:E.
  - apply Qc_ltb_lt. apply H. now apply Qc_ltb_lt.
  - destruct (Qc_ltb a b) eqn:F; [|reflexivity].
    apply Qc_ltb_lt in F. apply H in F. apply Qc_ltb_lt in F. congruence.
Qed.

Lemma Qc_pos_neq0 (e : Qc) : (0 < e)%Qc -> e <> 0%Qc.
Proof. intros H ->. exact (Qc_lt_irrefl _ H). Qed.

(** The sign of a percentage change from a positive base. *)
Lemma pct_gain_positive (e x : Qc) :
  (0 < e)%Qc ->
  fgt (fmul (fdiv (fsub (Fin x) (Fin e)) (Fin e)) (fz 100)) (Fin 0) =
  Qc_ltb e x.
Proof.
  intro He. unfold fsub. cbn [fneg fadd].
  rewrite fdiv_Fin by now apply Qc_pos_neq0.
  unfold fz, fgt. cbn [fmul flt]. apply Qc_ltb_iff.
  to_Q. change (this 0%Qc) with 0%Q in *. change (inject_Z 100) with 100%Q.
  pose proof (Qdiv_pos_iff (this x + - this e) (this e) He) as H.
  split; intro L.
  - assert (0 < (this x + - this e) / this e)%Q by lra.
    apply H in H0. lra.
  - assert (0 < (this x + - this e) / this e)%Q by (apply H; lra). lra.
Qed.

(** A share of a count, as a percentage. *)
Lemma share_pct_bounds (k n : nat) :
  (k <= n)%nat -> (1 <= n)%nat ->
  (0 <= qz (Z.of_nat k) / qz (Z.of_nat n) * qz 100 <= qz 100)%Qc.
Proof.
  intros Hk Hn. to_Q. change (inject_Z 100) with 100%Q.
  assert (Hk0 : (0 <= inject_Z (Z.of_nat k))%Q).
  { change 0%Q with (inject_Z 0). rewrite <- Zle_Qle. lia. }
  assert (Hn0 : (0 < inject_Z (Z.of_nat n))%Q).
  { change 0%Q with (inject_Z 0). rewrite <- Zlt_Qlt. lia. }
  assert (Hkn : (inject_Z (Z.of_nat k) <= inject_Z (Z.of_nat n))%Q).
  { rewrite <- Zle_Qle. lia. }
  pose proof (Qdiv_nonneg _ _ Hk0 Hn0).
  pose proof (Qdiv_le_1 _ _ Hkn Hn0).
  split; lra.
Qed.

End OrderFacts.

(* ================================================================== *)
(** ** Signals of the custom and of the RSI strategy *)
(* ================================================================== *)

Module StrategyFacts.
Import Float Pandas AnalysisEngine BacktestEngine Spec Props.
Import FloatFacts PandasFacts CrossoverFacts RsiFacts TradeFacts TradeLogFacts.

Lemma iloc_set_length (s : list Z) (i : nat) (v : Z) :
  List.length (iloc_set s i v) = List.length s.
Proof.
  revert i. induction s as [|x s IH]; intros [|i]; cbn; auto.
Qed.

Lemma nth_iloc_set (s : list Z) (i j : nat) (v : Z) :
  (i < List.length s)%nat ->
  nth j (iloc_set s i v) 0%Z = if (j =? i)%nat then v else nth j s 0%Z.
Proof.
  revert i j. induction s as [|x s IH]; intros i j Hi; [simpl in Hi; lia|].
  destruct i as [|i], j as [|j]; cbn; try reflexivity.
  apply IH. simpl in Hi. lia.
Qed.

Lemma firstn_iloc_set (s : list Z) (i : nat) (v : Z) :
  firstn i (iloc_set s i v) = firstn i s.
Proof.
  revert i. induction s as [|x s IH]; intros [|i]; cbn; try reflexivity.
  now rewrite IH.
Qed.

Lemma firstn_S_nth (s : list Z) (i : nat) :
  (i < List.length s)%nat ->
  firstn (S i) s = firstn i s ++ [nth i s 0%Z].
Proof.
  revert i. induction s as [|x s IH]; intros i Hi; [simpl in Hi; lia|].
  destruct i as [|i]; [reflexivity|].
  cbn [firstn nth app]. f_equal.
  apply IH. simpl in Hi. lia.
Qed.

Lemma length_round_trips (signals : list Z) (i : nat) (held : option nat)
    (long : bool) :
  (long = true <-> held <> None) ->
  alternates long signals = true ->
  List.length (round_trips_from i held signals) = count_exits signals.
Proof.
  unfold count_exits.
  revert i held long. induction signals as [|z r IH]; intros i held long Hl Ha;
    [reflexivity|].
  cbn [alternates round_trips_from filter] in *.
  destruct (z =? 0)%Z eqn:E0.
  - apply Z.eqb_eq in E0. subst z. cbn.
    destruct held; now apply (IH _ _ long).
  - destruct (z =? 1)%Z eqn:E1.
    + apply Z.eqb_eq in E1. subst z. cbn.
      apply andb_true_iff in Ha as [Hn Ha].
      destruct long; [discriminate|].
      destruct held as [e|]; [exfalso; now destruct Hl as [_ Hl];
                                specialize (Hl ltac:(discriminate))|].
      apply (IH _ _ true); [|assumption]. split; [discriminate | reflexivity].
    + destruct (z =? -1)%Z eqn:E2; [|discriminate].
      apply andb_true_iff in Ha as [Hn Ha]. subst long.
      destruct held as [e|]; [|exfalso; now apply (proj1 Hl)].
      cbn [List.length]. f_equal.
      apply (IH _ _ false); [|assumption].
      split; [discriminate | intro H; now elim H].
Qed.

Section Custom.
Variable df : DataFrame.
Variables entry_condition exit_condition : DataFrame -> nat -> bool.

Let n := List.length df.
Let run (k : nat) : list Z * Z :=
  fold_left (custom_step df entry_condition exit_condition) (seq 1 k)
    (repeat 0%Z n, 0%Z).

(** State of the loop of [custom_strategy_backtest] after [k] passes. *)
Lemma custom_loop (k : nat) :
  (k <= n - 1)%nat ->
  List.length (fst (run k)) = n /\
  (forall j, (S k <= j)%nat -> nth j (fst (run k)) 0%Z = 0%Z) /\
  nth 0 (fst (run k)) 0%Z = 0%Z /\
  (forall j,
     (nth j (fst (run k)) 0%Z = 1%Z -> entry_condition df j = true) /\
     (nth j (fst (run k)) 0%Z = (-1)%Z -> exit_condition df j = true) /\
     (nth j (fst (run k)) 0%Z = 0%Z \/ nth j (fst (run k)) 0%Z = 1%Z \/
      nth j (fst (run k)) 0%Z = (-1)%Z)) /\
  exists long : bool,
    snd (run k) = (if long then 1%Z else 0%Z) /\
    forall tail,
      alternates false (firstn (S k) (fst (run k)) ++ tail) =
      alternates long tail.
Proof.
  induction k as [|k IH]; intro Hk.
  - unfold run. cbn [seq fold_left fst snd].
    split; [apply repeat_length|].
    split; [intros; apply nth_repeat_zero|].
    split; [apply nth_repeat_zero|].
    split.
    + intro j. rewrite nth_repeat_zero.
      split; [discriminate|]. split; [discriminate | now left].
    + exists false. split; [reflexivity|]. intro tail.
      destruct n; reflexivity.
  - destruct (IH ltac:(lia)) as (Hlen & Hz & H0 & Hc & long & Hp & Ha).
    unfold run in *. rewrite seq_S, fold_left_app.
    cbn [fold_left Nat.add].
    destruct (fold_left _ (seq 1 k) _) as [s p]. cbn [fst snd] in *.
    subst p.
    assert (Hk' : (S k < List.length s)%nat) by lia.
    assert (Hfirst : forall v,
               firstn (S (S k)) (iloc_set s (S k) v) = firstn (S k) s ++ [v]).
    { intro v. rewrite firstn_S_nth by now rewrite iloc_set_length.
      rewrite firstn_iloc_set, nth_iloc_set, Nat.eqb_refl by assumption.
      reflexivity. }
    assert (Hkeep : firstn (S (S k)) s = firstn (S k) s ++ [0%Z]).
    { rewrite firstn_S_nth by assumption. rewrite Hz by lia. reflexivity. }
    unfold custom_step.
    destruct long; cbn [Z.eqb andb Pos.eqb].
    + destruct (exit_condition df (S k)) eqn:Ex; cbn [fst snd].
      * split; [now rewrite iloc_set_length|].
        split; [intros j Hj; rewrite nth_iloc_set by assumption;
                destruct (Nat.eqb_spec j (S k)); [lia | apply Hz; lia]|].
        split; [now rewrite nth_iloc_set by assumption|].
        split.
        -- intro j. rewrite nth_iloc_set by assumption.
           destruct (Nat.eqb_spec j (S k)) as [->|Hne]; [|apply Hc].
           split; [discriminate|]. split; [now intros _ | now right; right].
        -- exists false. split; [reflexivity|]. intro tail.
           rewrite Hfirst, <- app_assoc. rewrite Ha. reflexivity.
      * split; [assumption|].
        split; [intros j Hj; apply Hz; lia|].
        split; [assumption|]. split; [assumption|].
        exists true. split; [reflexivity|]. intro tail.
        rewrite Hkeep, <- app_assoc. rewrite Ha. reflexivity.
    + destruct (entry_condition df (S k)) eqn:En; cbn [fst snd].
      * split; [now rewrite iloc_set_length|].
        split; [intros j Hj; rewrite nth_iloc_set by assumption;
                destruct (Nat.eqb_spec j (S k)); [lia | apply Hz; lia]|].
        split; [now rewrite nth_iloc_set by assumption|].
        split.
        -- intro j. rewrite nth_iloc_set by assumption.
           destruct (Nat.eqb_spec j (S k)) as [->|Hne]; [|apply Hc].
           split; [now intros _|]. split; [discriminate | now right; left].
        -- exists true. split; [reflexivity|]. intro tail.
           rewrite Hfirst, <- app_assoc. rewrite Ha. reflexivity.
      * split; [assumption|].
        split; [intros j Hj; apply Hz; lia|].
        split; [assumption|]. split; [assumption|].
        exists false. split; [reflexivity|]. intro tail.
        rewrite Hkeep, <- app_assoc. rewrite Ha. reflexivity.
Qed.

Lemma custom_signals :
  let s := custom_strategy_signals df entry_condition exit_condition in
  List.length s = n /\
  alternates false s = true /\
  nth 0 s 0%Z = 0%Z /\
  forall j,
    (nth j s 0%Z = 1%Z -> entry_condition df j = true) /\
    (nth j s 0%Z = (-1)%Z -> exit_condition df j = true) /\
    (nth j s 0%Z = 0%Z \/ nth j s 0%Z = 1%Z \/ nth j s 0%Z = (-1)%Z).
Proof.
  cbv zeta. unfold custom_strategy_signals. fold n. fold (run (n - 1)).
  destruct (custom_loop (n - 1) (Nat.le_refl _))
    as (Hlen & _ & H0 & Hc & long & _ & Ha).
  split; [assumption|]. split; [|split; assumption].
  specialize (Ha []). rewrite app_nil_r in Ha.
  rewrite firstn_all2 in Ha by lia. rewrite Ha. now destruct long.
Qed.
End Custom.

(** *** The RSI strategy *)

Lemma where_length (s : Series) (c : fval -> bool) (o : fval) :
  List.length (where_ s c o) = List.length s.
Proof. apply length_map. Qed.

Lemma rolling_mean_length (w : nat) (s : Series) :
  List.length (rolling_mean w s) = List.length s.
Proof. apply rolling_apply_length. Qed.

Lemma rsi_manual_length (R : Series -> nat -> Series) (period : nat)
    (df : DataFrame) :
  List.length (rsi false R period df) = List.length df.
Proof.
  unfold rsi.
  rewrite length_map, map2_length, !rolling_mean_length, length_map,
    !where_length, diff_length.
  unfold col. rewrite length_map. lia.
Qed.

Lemma nth_map_mask (f : fval -> bool) (s : Series) (i : nat) :
  (i < List.length s)%nat -> nth i (map f s) false = f (iloc s i).
Proof.
  intro Hi. rewrite (nth_indep _ false (f NaN)) by now rewrite length_map.
  apply map_nth.
Qed.

Lemma rsi_signals_nth (R : Series -> nat -> Series) (df : DataFrame)
    (period : nat) (oversold overbought : Qc) (i : nat) :
  (i < List.length df)%nat ->
  nth i (rsi_strategy_signals false R df period oversold overbought) 0%Z =
  if fgt (iloc (rsi false R period df) i) (Fin overbought) then (-1)%Z
  else if flt (iloc (rsi false R period df) i) (Fin oversold) then 1%Z
  else 0%Z.
Proof.
  intro Hi. unfold rsi_strategy_signals.
  pose proof (rsi_manual_length R period df) as HL.
  rewrite nth_assign_where;
    [| rewrite assign_where_length, repeat_length, length_map; lia
     | rewrite length_map; lia].
  rewrite nth_assign_where;
    [| rewrite repeat_length; lia | rewrite length_map; lia].
  rewrite nth_repeat_zero.
  rewrite !nth_map_mask by lia. reflexivity.
Qed.

Lemma rsi_signals_length (R : Series -> nat -> Series) (df : DataFrame)
    (period : nat) (oversold overbought : Qc) :
  List.length (rsi_strategy_signals false R df period oversold overbought) =
  List.length df.
Proof.
  unfold rsi_strategy_signals.
  rewrite !assign_where_length, repeat_length, !length_map,
    rsi_manual_length. lia.
Qed.

End StrategyFacts.

(* ================================================================== *)
(** ** When a backtest raises *)
(* ================================================================== *)

Module FailureFacts.
Import Float Pandas AnalysisEngine BacktestEngine Spec Props.
Import FloatFacts PandasFacts CrossoverFacts BacktestFacts StrategyFacts.

Lemma simple_backtest_none (sqrt_ : Qc -> Qc) (df : DataFrame) (cap : Qc)
    (signals : list Z) :
  List.length signals = List.length df ->
  (simple_backtest sqrt_ df cap signals None None = None <-> df = []).
Proof.
  intro HL. split.
  - intro H. destruct df as [|b df]; [reflexivity|].
    destruct (simple_backtest_total sqrt_ (b :: df) cap signals) as [r Hr];
      [discriminate | assumption | congruence].
  - intros ->. destruct signals; [reflexivity | discriminate].
Qed.

Lemma ewm_mean_none (span : nat) (s : Series) :
  ewm_mean span s = None <-> span = 0%nat.
Proof.
  unfold ewm_mean. destruct span as [|k]; cbn [Nat.ltb Nat.leb].
  - now split.
  - destruct s; split; discriminate.
Qed.

Lemma macd_none (fast slow signal : nat) (df : DataFrame) :
  macd fast slow signal df = None <->
  fast = 0%nat \/ slow = 0%nat \/ signal = 0%nat.
Proof.
  unfold macd, ema, bind.
  destruct (ewm_mean fast _) as [ef|] eqn:Ef.
  - destruct (ewm_mean slow _) as [es|] eqn:Es.
    + destruct (ewm_mean signal _) as [sg|] eqn:Eg.
      * split; [discriminate|]. intros [-> | [-> | ->]].
        -- now rewrite (proj2 (ewm_mean_none 0 _) eq_refl) in Ef.
        -- now rewrite (proj2 (ewm_mean_none 0 _) eq_refl) in Es.
        -- now rewrite (proj2 (ewm_mean_none 0 _) eq_refl) in Eg.
      * apply ewm_mean_none in Eg. split; auto.
    + apply ewm_mean_none in Es. split; auto.
  - apply ewm_mean_none in Ef. split; auto.
Qed.

Lemma sma_crossover_signals_length (df : DataFrame) (fast slow : nat) :
  List.length (sma_crossover_signals df fast slow) = List.length df.
Proof.
  rewrite sma_crossover_is_crossover.
  apply crossover_length; apply sma_length.
Qed.

Lemma macd_crossover_signals_length (df : DataFrame) (fast slow signal : nat)
    (s : list Z) :
  macd_crossover_signals df fast slow signal = Some s ->
  List.length s = List.length df.
Proof.
  rewrite macd_crossover_is_crossover.
  destruct (macd fast slow signal df) as [m|] eqn:E; [|discriminate].
  intro H. injection H as <-.
  destruct (macd_lengths _ _ _ _ _ E). now apply crossover_length.
Qed.

End FailureFacts.

(* ================================================================== *)
(** ** Range of the manual RSI *)
(* ================================================================== *)

Module RsiRangeFacts.
Import Float Pandas AnalysisEngine Spec Props.
Import FloatFacts PandasFacts RsiFacts OrderFacts.

Lemma fold_plus_nonneg (l : list Qc) (a : Qc) :
  (0 <= a)%Qc -> Forall (fun x => (0 <= x)%Qc) l ->
  (0 <= fold_left Qcplus l a)%Qc.
Proof.
  revert a. induction l as [|x l IH]; intros a Ha Hl; [assumption|].
  apply Forall_cons_iff in Hl as [Hx Hl]. cbn [fold_left].
  apply IH; [|assumption]. to_Q. change (this 0%Qc) with 0%Q in *. lra.
Qed.

Lemma up_move_nonneg (c : list Qc) (j : nat) : (0 <= up_move c j)%Qc.
Proof.
  destruct j as [|j]; cbn [up_move]; [apply Qcle_refl|].
  destruct (Qc_ltb 0 _) eqn:E; [|apply Qcle_refl].
  apply Qc_ltb_lt in E. now apply Qclt_le_weak.
Qed.

Lemma down_move_nonneg (c : list Qc) (j : nat) : (0 <= down_move c j)%Qc.
Proof.
  destruct j as [|j]; cbn [down_move]; [apply Qcle_refl|].
  destruct (Qc_ltb _ 0) eqn:E; [|apply Qcle_refl].
  apply Qc_ltb_lt in E. to_Q. change (this 0%Qc) with 0%Q in *. lra.
Qed.

Lemma simple_mean_nonneg (f : nat -> Qc) (period i : nat) :
  (1 <= period)%nat -> (forall j, (0 <= f j)%Qc) ->
  (0 <= simple_mean f period i)%Qc.
Proof.
  intros Hp Hf. unfold simple_mean, qsum.
  assert (Hs : (0 <= fold_left Qcplus (map f (seq (S i - period) period)) 0)%Qc).
  { apply fold_plus_nonneg; [apply Qcle_refl|].
    apply Forall_forall. intros x Hx. apply in_map_iff in Hx as (j & <- & _).
    apply Hf. }
  pose proof (qz_lt 0 (Z.of_nat period) ltac:(lia)) as Hq.
  revert Hs Hq. generalize (fold_left Qcplus (map f (seq (S i - period) period)) 0).
  generalize (qz (Z.of_nat period)). intros d s Hs Hd.
  to_Q. change (this (qz 0)) with 0%Q in *. change (this 0%Qc) with 0%Q in *.
  now apply Qdiv_nonneg.
Qed.

(** 100 - 100 / (1 + u / d) for a non-negative [u] and a positive [d]. *)
Lemma rsi_value_bounds (u d : Qc) :
  (0 <= u)%Qc -> (0 < d)%Qc ->
  exists q,
    fsub (fz 100) (fdiv (fz 100) (fadd (Fin 1) (fdiv (Fin u) (Fin d)))) = Fin q
    /\ (0 <= q <= qz 100)%Qc.
Proof.
  intros Hu Hd.
  rewrite fdiv_Fin by now apply Qc_pos_neq0.
  cbn [fadd]. unfold fz.
  assert (Hr : (0 < 1 + u / d)%Qc).
  { to_Q. change (this 0%Qc) with 0%Q in *. change (this 1%Qc) with 1%Q.
    pose proof (Qdiv_nonneg _ _ Hu Hd). lra. }
  rewrite fdiv_Fin by now apply Qc_pos_neq0.
  unfold fsub. cbn [fneg fadd]. eexists. split; [reflexivity|].
  to_Q. change (this 0%Qc) with 0%Q in *. change (this 1%Qc) with 1%Q in *.
  change (inject_Z 100) with 100%Q.
  pose proof (Qdiv_nonneg _ _ Hu Hd) as Hq.
  set (r := (this u / this d)%Q) in *.
  assert (H1 : (0 <= 100 / (1 + r))%Q) by (apply Qdiv_nonneg; lra).
  assert (H2 : (100 / (1 + r) <= 100)%Q)
    by (apply Qle_shift_div_r; lra).
  split; lra.
Qed.

Lemma rsi_simple_range (period : nat) (c : list Qc) (i : nat) :
  (1 <= period)%nat ->
  rsi_simple period c i = NaN \/
  exists q, rsi_simple period c i = Fin q /\ (0 <= q <= qz 100)%Qc.
Proof.
  intro Hp. unfold rsi_simple.
  destruct (S i <? period)%nat; [now left|].
  pose proof (simple_mean_nonneg (up_move c) period i Hp (up_move_nonneg c))
    as Hu.
  pose proof (simple_mean_nonneg (down_move c) period i Hp
                (down_move_nonneg c)) as Hd.
  revert Hu Hd. generalize (simple_mean (up_move c) period i).
  generalize (simple_mean (down_move c) period i). intros d u Hu Hd.
  destruct (Qc_eqb d 0) eqn:Ed.
  - apply Qc_eqb_eq in Ed. subst d.
    cbn [fdiv]. change (Qc_eqb 0 0) with true. cbn iota.
    unfold qsign. destruct (Qc_eqb u 0) eqn:Eu; [now left|].
    right. apply Qc_eqb_neq in Eu.
    assert (Hpos : Qc_ltb 0 u = true).
    { apply Qc_ltb_lt. destruct (Qcle_lt_or_eq _ _ Hu) as [L|E];
        [assumption | congruence]. }
    rewrite Hpos. cbn. exists (qz 100 + - 0)%Qc. split; [reflexivity|].
    split; now apply Qc_leb_le.
  - right. apply Qc_eqb_neq in Ed. apply rsi_value_bounds; [assumption|].
    destruct (Qcle_lt_or_eq _ _ Hd) as [L|E]; [assumption | congruence].
Qed.

(** On closes that never fall the average loss is 0 and the quotient is
    a division by zero. *)
Lemma down_move_rising (c : list Qc) (j : nat) :
  (forall k, (price_at c k <= price_at c (S k))%Qc) -> down_move c j = 0%Qc.
Proof.
  intro H. destruct j as [|j]; [reflexivity|]. cbn [down_move].
  destruct (Qc_ltb _ 0) eqn:E; [|reflexivity].
  apply Qc_ltb_lt in E. specialize (H j). to_Q.
  change (this 0%Qc) with 0%Q in *. lra.
Qed.

Lemma fold_plus_zeros (l : list Qc) :
  Forall (fun x => x = 0%Qc) l -> fold_left Qcplus l 0%Qc = 0%Qc.
Proof.
  induction l as [|x l IH]; intro H; [reflexivity|].
  apply Forall_cons_iff in H as [-> H]. cbn [fold_left].
  replace (0 + 0)%Qc with 0%Qc by ring. now apply IH.
Qed.

Lemma price_at_constant (df : DataFrame) (c : Qc) (j : nat) :
  Forall (fun b => Close b = c) df -> (j < List.length df)%nat ->
  price_at (map Close df) j = c.
Proof.
  intros H Hj. unfold price_at.
  destruct (nth_error df j) as [b|] eqn:E;
    [|apply nth_error_None in E; lia].
  rewrite (nth_indep _ 0%Qc (Close b)) by now rewrite length_map.
  rewrite map_nth. rewrite Forall_forall in H. apply H.
  apply nth_In. assumption.
Qed.

(** On a constant close both averages are 0 and the RSI is 0/0. *)
Lemma rsi_simple_flat (period : nat) (df : DataFrame) (c : Qc) (i : nat) :
  Forall (fun b => Close b = c) df -> (i < List.length df)%nat ->
  rsi_simple period (map Close df) i = NaN.
Proof.
  intros Hc Hi. unfold rsi_simple.
  destruct (S i <? period)%nat eqn:E; [reflexivity|].
  apply Nat.ltb_ge in E.
  assert (Hzero : forall f : nat -> Qc,
             (forall j, (j <= i)%nat -> f j = 0%Qc) ->
             simple_mean f period i = 0%Qc).
  { intros f Hf. unfold simple_mean, qsum. rewrite fold_plus_zeros.
    - unfold Qcdiv. ring.
    - apply Forall_forall. intros x Hx.
      apply in_map_iff in Hx as (j & <- & Hj). apply in_seq in Hj.
      apply Hf. lia. }
  rewrite !Hzero.
  - reflexivity.
  - intros [|j] Hj; [reflexivity|]. cbn [down_move].
    rewrite !(price_at_constant df c) by (assumption || lia).
    replace (c - c)%Qc with 0%Qc by ring. reflexivity.
  - intros [|j] Hj; [reflexivity|]. cbn [up_move].
    rewrite !(price_at_constant df c) by (assumption || lia).
    replace (c - c)%Qc with 0%Qc by ring. reflexivity.
Qed.

End RsiRangeFacts.

(* ================================================================== *)
(** ** Moving averages stay within the range of the prices *)
(* ================================================================== *)

Module AverageFacts.
Import Float Pandas AnalysisEngine Spec Props.
Import FloatFacts PandasFacts MovingAverageFacts RsiFacts ExtremeFacts.
Import OrderFacts.

Lemma qz_add (a b : Z) : qz (a + b) = (qz a + qz b)%Qc.
Proof.
  apply Qc_eq_this. rewrite this_plus, !this_qz, inject_Z_plus. reflexivity.
Qed.

(** The trailing window of a finite series, once it is full. *)
Lemma rolling_finite_window (w i : nat) (f : list fval -> fval)
    (l : list Qc) :
  (w <= S i)%nat -> (i < List.length l)%nat ->
  iloc (rolling_apply w f (map Fin l)) i =
    f (map Fin (firstn w (skipn (S i - w) l))) /\
  List.length (firstn w (skipn (S i - w) l)) = w /\
  incl (firstn w (skipn (S i - w) l)) l.
Proof.
  intros Hw Hi. split; [|split].
  - rewrite iloc_rolling_apply by now rewrite length_map.
    unfold window_at.
    replace (w <=? S i)%nat with true by (symmetry; apply Nat.leb_le; lia).
    now rewrite skipn_map, firstn_map, forallb_notna_Fin.
  - rewrite length_firstn, length_skipn. lia.
  - intros x Hx. apply in_slice in Hx as (j & _ & Hj).
    eapply nth_error_In. exact Hj.
Qed.

(** A weighted sum with non-negative weights lies between the two
    bounds of its terms, scaled by the sum of the weights. *)
Lemma weighted_sum_bounds (lo hi : Qc) (xs ws : list Qc) (a b : Qc) :
  List.length xs = List.length ws ->
  Forall (within lo hi) xs -> Forall (fun w => (0 <= w)%Qc) ws ->
  (lo * b <= a <= hi * b)%Qc ->
  (lo * fold_left Qcplus ws b
   <= fold_left Qcplus (map2 Qcmult xs ws) a
   <= hi * fold_left Qcplus ws b)%Qc.
Proof.
  revert ws a b. induction xs as [|x xs IH]; intros [|w ws] a b HL Hx Hw Hab;
    try discriminate; [assumption|].
  cbn [map2 fold_left].
  apply Forall_cons_iff in Hx as [[Hx1 Hx2] Hx].
  apply Forall_cons_iff in Hw as [Hw0 Hw].
  apply IH; try assumption; [now injection HL|].
  destruct Hab as [Ha1 Ha2].
  to_Q. change (this 0%Qc) with 0%Q in *. split; nra.
Qed.

Lemma weighted_mean_bounds (lo hi s t : Qc) :
  (0 < t)%Qc -> (lo * t <= s <= hi * t)%Qc -> within lo hi (s / t).
Proof.
  intros Ht [H1 H2]. unfold within. to_Q. change (this 0%Qc) with 0%Q in *.
  split.
  - apply Qle_shift_div_l; assumption.
  - apply Qle_shift_div_r; assumption.
Qed.

Lemma map2_mult_ones (xs : list Qc) :
  map2 Qcmult xs (repeat 1%Qc (List.length xs)) = xs.
Proof.
  induction xs as [|x xs IH]; [reflexivity|].
  cbn [List.length repeat map2]. rewrite IH. f_equal. ring.
Qed.

Lemma fold_plus_ones (n : nat) (b : Z) :
  fold_left Qcplus (repeat 1%Qc n) (qz b) = qz (b + Z.of_nat n).
Proof.
  revert b. induction n as [|n IH]; intro b.
  - cbn. f_equal. lia.
  - cbn [repeat fold_left]. change 1%Qc with (qz 1). rewrite <- qz_add.
    rewrite IH. f_equal. lia.
Qed.

(** The plain mean of a window. *)
Lemma mean_of_window_bounds (lo hi : Qc) (win : list Qc) :
  (1 <= List.length win)%nat -> Forall (within lo hi) win ->
  exists q,
    fdiv (fsum (map Fin win)) (fz (Z.of_nat (List.length win))) = Fin q /\
    within lo hi q.
Proof.
  intros Hn Hwin. rewrite fsum_Fin. unfold fz.
  rewrite fdiv_Fin by now apply qz_pos_neq0.
  eexists. split; [reflexivity|].
  apply weighted_mean_bounds; [apply (qz_lt 0); lia|].
  pose proof (weighted_sum_bounds lo hi win (repeat 1%Qc (List.length win))
                0%Qc (qz 0)) as H.
  rewrite map2_mult_ones, fold_plus_ones in H. cbn [Z.add] in H.
  apply H.
  - now rewrite repeat_length.
  - assumption.
  - apply Forall_forall. intros x Hx. apply repeat_spec in Hx. subst.
    now apply Qc_leb_le.
  - change (qz 0) with 0%Qc. split.
    + replace (lo * 0)%Qc with 0%Qc by ring. apply Qcle_refl.
    + replace (hi * 0)%Qc with 0%Qc by ring. apply Qcle_refl.
Qed.

(** The weights 1, 2, ..., period of [wma]. *)
Lemma fold_add_qz (ws : list Z) (a : Z) :
  qz (fold_left Z.add ws a) = fold_left Qcplus (map qz ws) (qz a).
Proof.
  revert a. induction ws as [|w ws IH]; intro a; [reflexivity|].
  cbn [fold_left map]. rewrite IH, qz_add. reflexivity.
Qed.

Lemma fold_add_ge (ws : list Z) (a : Z) :
  Forall (fun w => (0 <= w)%Z) ws -> (a <= fold_left Z.add ws a)%Z.
Proof.
  revert a. induction ws as [|w ws IH]; intros a H; [apply Z.le_refl|].
  apply Forall_cons_iff in H as [Hw H]. cbn [fold_left].
  specialize (IH (a + w)%Z H). lia.
Qed.

Lemma arange1_nonneg (period : nat) :
  Forall (fun w => (0 <= w)%Z) (arange1 period).
Proof.
  unfold arange1. apply Forall_forall. intros w Hw.
  apply in_map_iff in Hw as (k & <- & _). lia.
Qed.

Lemma arange1_sum_pos (period : nat) :
  (1 <= period)%nat -> (0 < fold_left Z.add (arange1 period) 0)%Z.
Proof.
  intro Hp. unfold arange1. destruct period as [|p]; [lia|].
  cbn [seq map fold_left].
  pose proof (fold_add_ge (map (fun k => Z.of_nat k) (seq 2 p)) (0 + 1)
                ltac:(apply Forall_forall; intros w Hw;
                      apply in_map_iff in Hw as (k & <- & _); lia)).
  change (Z.of_nat 1) with 1%Z. lia.
Qed.

Lemma map2_fmul_Fin (xs ws : list Qc) :
  map2 fmul (map Fin xs) (map Fin ws) = map Fin (map2 Qcmult xs ws).
Proof.
  revert ws. induction xs as [|x xs IH]; intros [|w ws]; try reflexivity.
  cbn [map map2 fmul]. now rewrite IH.
Qed.

Lemma weighted_window_bounds (lo hi : Qc) (period : nat) (win : list Qc) :
  (1 <= period)%nat -> List.length win = period ->
  Forall (within lo hi) win ->
  exists q,
    fdiv (dot (map Fin win) (arange1 period))
         (fz (fold_left Z.add (arange1 period) 0%Z)) = Fin q /\
    within lo hi q.
Proof.
  intros Hp HL Hwin. unfold dot.
  replace (map fz (arange1 period)) with (map Fin (map qz (arange1 period)))
    by (rewrite map_map; reflexivity).
  rewrite map2_fmul_Fin, fsum_Fin. unfold fz.
  pose proof (arange1_sum_pos period Hp) as Hpos.
  assert (Hq : (0 < qz (fold_left Z.add (arange1 period) 0%Z))%Qc)
    by now apply (qz_lt 0).
  rewrite fdiv_Fin by now apply Qc_pos_neq0.
  eexists. split; [reflexivity|].
  apply weighted_mean_bounds; [assumption|].
  rewrite fold_add_qz. unfold qsum.
  apply weighted_sum_bounds.
  - rewrite length_map. unfold arange1. now rewrite length_map, length_seq.
  - assumption.
  - apply Forall_forall. intros w Hw. apply in_map_iff in Hw as (z & <- & Hz).
    apply (qz_le 0).
    pose proof (arange1_nonneg period) as Hn. rewrite Forall_forall in Hn.
    now apply Hn.
  - change (qz 0) with 0%Qc. split.
    + replace (lo * 0)%Qc with 0%Qc by ring. apply Qcle_refl.
    + replace (hi * 0)%Qc with 0%Qc by ring. apply Qcle_refl.
Qed.

(** *** The exponential average *)

Lemma alpha_range (span : nat) :
  (1 <= span)%nat ->
  (0 < qz 2 / qz (Z.of_nat span + 1))%Qc /\
  (qz 2 / qz (Z.of_nat span + 1) <= 1)%Qc.
Proof.
  intro Hs.
  assert (H2 : (qz 2 <= qz (Z.of_nat span + 1))%Qc) by (apply qz_le; lia).
  to_Q. change (this 0%Qc) with 0%Q. change (this 1%Qc) with 1%Q.
  change (inject_Z 2) with 2%Q in *.
  set (d := inject_Z (Z.of_nat span + 1)) in *.
  split.
  - apply Qlt_shift_div_l; lra.
  - apply Qle_shift_div_r; lra.
Qed.

Lemma ewm_step_within (lo hi alpha w c : Qc) :
  (0 < alpha)%Qc /\ (alpha <= 1)%Qc -> within lo hi w -> within lo hi c ->
  exists w', ewm_step alpha (Fin w, 1%Qc) (Fin c) = (Fin w', 1%Qc) /\
             within lo hi w'.
Proof.
  intros [Ha0 Ha1] [Hw1 Hw2] [Hc1 Hc2].
  unfold ewm_step. cbn [notna isnan negb].
  destruct (feqb (Fin w) (Fin c)).
  - exists w. split; [reflexivity | now split].
  - cbn [fmul fadd]. rewrite fdiv_Fin
      by (rewrite ewm_weight_one; exact Qc_one_neq_zero).
    eexists. split; [reflexivity|].
    rewrite ewm_weight_one. unfold within.
    replace ((1 * (1 - alpha) * w + alpha * c) / 1)%Qc
      with ((1 - alpha) * w + alpha * c)%Qc by (field; exact Qc_one_neq_zero).
    to_Q. change (this 0%Qc) with 0%Q in *. change (this 1%Qc) with 1%Q in *.
    split; nra.
Qed.

Lemma ewm_run_within (lo hi alpha : Qc) (qs : list Qc) (w : Qc) (i : nat) :
  (0 < alpha)%Qc /\ (alpha <= 1)%Qc -> within lo hi w -> Forall (within lo hi) qs ->
  (i < List.length qs)%nat ->
  exists q, iloc (ewm_run alpha (Fin w, 1%Qc) (map Fin qs)) i = Fin q /\
            within lo hi q.
Proof.
  intros Ha. revert w i.
  induction qs as [|c qs IH]; intros w i Hw Hq Hi; simpl in Hi; [lia|].
  apply Forall_cons_iff in Hq as [Hc Hq].
  cbn [map ewm_run].
  destruct (ewm_step_within lo hi alpha w c Ha Hw Hc) as (w' & E & Hw').
  rewrite E. cbn [fst].
  destruct i as [|i]; [now exists w'|].
  unfold iloc. cbn [nth]. apply IH; try assumption. lia.
Qed.

Lemma ewm_mean_within (lo hi : Qc) (span : nat) (qs : list Qc) :
  (1 <= span)%nat -> Forall (within lo hi) qs ->
  exists e, ewm_mean span (map Fin qs) = Some e /\
    List.length e = List.length qs /\
    forall i, (i < List.length qs)%nat ->
      exists q, iloc e i = Fin q /\ within lo hi q.
Proof.
  intros Hs Hq. unfold ewm_mean.
  replace (span <? 1)%nat with false by (symmetry; apply Nat.ltb_ge; lia).
  destruct qs as [|q0 qs].
  - exists []. repeat split. intros i Hi. simpl in Hi. lia.
  - apply Forall_cons_iff in Hq as [H0 Hq].
    cbn [map]. eexists. split; [reflexivity|]. split.
    + cbn [List.length]. now rewrite ewm_run_length, length_map.
    + intros [|i] Hi; [now exists q0|].
      unfold iloc. cbn [nth].
      apply ewm_run_within; try assumption;
        [now apply alpha_range | simpl in Hi; lia].
Qed.

End AverageFacts.

(* ================================================================== *)
(** ** MACD *)
(* ================================================================== *)

Module MacdFacts.
Import Float Pandas AnalysisEngine Spec Props.
Import FloatFacts PandasFacts MovingAverageFacts RsiFacts OrderFacts.
Import AverageFacts.

(** A series whose entries are all finite is the image of a list of
    rationals. *)
Lemma finite_series (P : Qc -> Prop) (s : Series) :
  (forall i, (i < List.length s)%nat -> exists q, iloc s i = Fin q /\ P q) ->
  exists qs, s = map Fin qs /\ Forall P qs.
Proof.
  induction s as [|x s IH]; intro H.
  - exists []. split; [reflexivity | constructor].
  - destruct (H 0%nat ltac:(simpl; lia)) as (q & Hq & HP).
    unfold iloc in Hq. cbn [nth] in Hq. subst x.
    destruct IH as (qs & -> & Hqs).
    { intros i Hi. apply (H (S i)). simpl. lia. }
    exists (q :: qs). split; [reflexivity | now constructor].
Qed.

Lemma series_of_finite (P : Qc -> Prop) (qs : list Qc) (i : nat) :
  Forall P qs -> (i < List.length qs)%nat ->
  exists q, iloc (map Fin qs) i = Fin q /\ P q.
Proof.
  intros H Hi. exists (nth i qs 0%Qc). split.
  - unfold iloc.
    rewrite (nth_indep _ NaN (Fin 0%Qc)) by now rewrite length_map.
    apply map_nth.
  - rewrite Forall_forall in H. apply H. now apply nth_In.
Qed.

Lemma map2_fsub_Fin (xs ys : list Qc) :
  map2 fsub (map Fin xs) (map Fin ys) = map Fin (map2 Qcminus xs ys).
Proof.
  revert ys. induction xs as [|x xs IH]; intros [|y ys]; try reflexivity.
  cbn [map map2]. rewrite IH. reflexivity.
Qed.

Lemma difference_within (lo hi : Qc) (xs ys : list Qc) :
  Forall (within lo hi) xs -> Forall (within lo hi) ys ->
  Forall (within (lo - hi) (hi - lo)) (map2 Qcminus xs ys).
Proof.
  revert ys. induction xs as [|x xs IH]; intros [|y ys] Hx Hy;
    try constructor.
  - apply Forall_cons_iff in Hx as [[Hx1 Hx2] _].
    apply Forall_cons_iff in Hy as [[Hy1 Hy2] _].
    unfold within. to_Q. split; lra.
  - apply Forall_cons_iff in Hx as [_ Hx].
    apply Forall_cons_iff in Hy as [_ Hy]. now apply IH.
Qed.

Lemma ewm_mean_head (span : nat) (x : fval) (s e : Series) :
  ewm_mean span (x :: s) = Some e -> iloc e 0 = x.
Proof.
  unfold ewm_mean. destruct (span <? 1)%nat; [discriminate|].
  intro H. injection H as <-. reflexivity.
Qed.

(** The three series of [macd] on closes between [lo] and [hi]. *)
Lemma macd_within (fast slow signal : nat) (df : DataFrame) (lo hi : Qc) :
  (1 <= fast)%nat -> (1 <= slow)%nat -> (1 <= signal)%nat ->
  Forall (fun b => within lo hi (Close b)) df ->
  exists ls ss,
    macd fast slow signal df =
      Some (mkMacd (map Fin ls) (map Fin ss)
              (map Fin (map2 Qcminus ls ss))) /\
    List.length ls = List.length df /\
    List.length ss = List.length df /\
    Forall (within (lo - hi) (hi - lo)) ls /\
    Forall (within (lo - hi) (hi - lo)) ss /\
    nth 0 ls 0%Qc = 0%Qc /\ nth 0 ss 0%Qc = 0%Qc.
Proof.
  intros Hf Hs Hg Hc.
  assert (Hq : Forall (within lo hi) (map Close df)).
  { apply Forall_map. exact Hc. }
  unfold macd, ema, bind. rewrite col_as_prices.
  destruct (ewm_mean_within lo hi fast _ Hf Hq) as (ef & Ef & Lf & Bf).
  destruct (ewm_mean_within lo hi slow _ Hs Hq) as (es & Es & Ls & Bs).
  rewrite Ef, Es. rewrite length_map in *.
  destruct (finite_series (within lo hi) ef) as (qf & -> & Hqf);
    [intros i Hi; apply Bf; lia|].
  destruct (finite_series (within lo hi) es) as (qs & -> & Hqs);
    [intros i Hi; apply Bs; lia|].
  rewrite length_map in *.
  rewrite map2_fsub_Fin.
  pose proof (difference_within lo hi qf qs Hqf Hqs) as Hl.
  assert (Ll : List.length (map2 Qcminus qf qs) = List.length df)
    by (rewrite map2_length; lia).
  destruct (ewm_mean_within _ _ signal _ Hg Hl) as (sg & Eg & Lg & Bg).
  rewrite Eg.
  destruct (finite_series (within (lo - hi) (hi - lo)) sg)
    as (ss & -> & Hss); [intros i Hi; apply Bg; lia|].
  rewrite length_map in Lg.
  exists (map2 Qcminus qf qs), ss. rewrite map2_fsub_Fin.
  split; [reflexivity|]. split; [assumption|]. split; [lia|].
  split; [assumption|]. split; [assumption|].
  destruct df as [|b df].
  - destruct qf; [|discriminate]. destruct ss; [|simpl in Lg; lia].
    split; reflexivity.
  - cbn [map] in Ef, Es.
    apply ewm_mean_head in Ef. apply ewm_mean_head in Es.
    destruct qf as [|f0 qf]; [discriminate|].
    destruct qs as [|s0 qs]; [discriminate|].
    unfold iloc in Ef, Es. cbn [map nth] in Ef, Es.
    injection Ef as ->. injection Es as ->.
    cbn [map2 map] in Eg. apply ewm_mean_head in Eg.
    destruct ss as [|g0 ss]; [simpl in Lg; simpl in Ll; lia|].
    unfold iloc in Eg. cbn [map nth] in Eg. injection Eg as ->.
    cbn [map2 nth]. split; ring.
Qed.

End MacdFacts.

(* ================================================================== *)
(** ** Stochastic oscillator, true range and on-balance volume *)
(* ================================================================== *)

Module OscillatorFacts.
Import Float Pandas AnalysisEngine Spec Props.
Import FloatFacts PandasFacts MovingAverageFacts RsiFacts ExtremeFacts.
Import OrderFacts AverageFacts MacdFacts.

Lemma iloc_map2 (f : fval -> fval -> fval) (xs ys : Series) (i : nat) :
  (i < List.length xs)%nat -> (i < List.length ys)%nat ->
  iloc (map2 f xs ys) i = f (iloc xs i) (iloc ys i).
Proof. intros Hx Hy. unfold iloc. now apply nth_map2. Qed.

Lemma iloc_col (column : Bar -> Qc) (df : DataFrame) (i : nat) (b : Bar) :
  nth_error df i = Some b -> iloc (col column df) i = Fin (column b).
Proof.
  intro H. unfold iloc, col. apply nth_error_nth.
  now rewrite nth_error_map, H.
Qed.

Lemma col_length (column : Bar -> Qc) (df : DataFrame) :
  List.length (col column df) = List.length df.
Proof. apply length_map. Qed.

Lemma bar_at (df : DataFrame) (i : nat) :
  (i < List.length df)%nat -> exists b, nth_error df i = Some b.
Proof.
  intro H. destruct (nth_error df i) as [b|] eqn:E; [now exists b|].
  apply nth_error_None in E. lia.
Qed.

(** *** Rolling minimum and maximum *)

Lemma nanmin_finite (win : list Qc) :
  win <> [] ->
  exists m, nanmin (map Fin win) = Fin m /\ In m win /\
            forall y, In y win -> (m <= y)%Qc.
Proof.
  intro H. unfold nanmin, py_min. rewrite dropna_Fin.
  destruct win as [|a r]; [contradiction|]. cbn [map py_extreme].
  apply (fold_extreme flt (fun x y : Qc => (y <= x)%Qc)).
  - intro x. apply Qcle_refl.
  - intros x y z H1 H2. now apply Qcle_trans with y.
  - intros q m0 E. apply Qclt_le_weak. now apply Qc_ltb_lt.
  - intros q m0 E. now apply Qc_ltb_ge.
Qed.

Lemma nanmax_finite (win : list Qc) :
  win <> [] ->
  exists m, nanmax (map Fin win) = Fin m /\ In m win /\
            forall y, In y win -> (y <= m)%Qc.
Proof.
  intro H. unfold nanmax, py_max. rewrite dropna_Fin.
  destruct win as [|a r]; [contradiction|]. cbn [map py_extreme].
  apply (fold_extreme fgt Qcle).
  - apply Qcle_refl.
  - apply Qcle_trans.
  - intros q m0 E. apply Qclt_le_weak. now apply Qc_ltb_lt.
  - intros q m0 E. now apply Qc_ltb_ge.
Qed.

(** A rolling reduction is undefined until its window is full, and on
    an empty window when the reduction of nothing is. *)
Lemma rolling_undefined (w i : nat) (f : list fval -> fval) (s : Series) :
  f [] = NaN -> (w = 0%nat \/ S i < w)%nat ->
  iloc (rolling_apply w f s) i = NaN.
Proof.
  intros Hf H.
  destruct (Nat.lt_ge_cases i (List.length s)) as [Hi|Hi];
    [|apply iloc_overflow; now rewrite rolling_apply_length].
  rewrite iloc_rolling_apply by assumption. unfold window_at.
  destruct H as [-> | H].
  - cbn. assumption.
  - now replace (w <=? S i)%nat with false
      by (symmetry; apply Nat.leb_gt; lia).
Qed.

(** The extreme of the [w] bars ending at bar [i]. *)
Lemma rolling_min_at (w i : nat) (column : Bar -> Qc) (df : DataFrame)
    (b : Bar) :
  (1 <= w <= S i)%nat -> nth_error df i = Some b ->
  exists m, iloc (rolling_min w (col column df)) i = Fin m /\
            (m <= column b)%Qc /\
            In m (map column df).
Proof.
  intros Hw Hb.
  assert (Hi : (i < List.length df)%nat)
    by (apply nth_error_Some; congruence).
  unfold rolling_min. rewrite col_as_prices.
  destruct (rolling_finite_window w i nanmin (map column df))
    as (Hv & Hlen & Hincl); [lia | now rewrite length_map |].
  rewrite Hv.
  destruct (nanmin_finite (firstn w (skipn (S i - w) (map column df))))
    as (m & Hm & Hin & Hle).
  { intro E. rewrite E in Hlen. simpl in Hlen. lia. }
  exists m. split; [assumption|]. split; [|now apply Hincl].
  apply Hle. apply in_slice. exists i. split; [lia|].
  now rewrite nth_error_map, Hb.
Qed.

Lemma rolling_max_at (w i : nat) (column : Bar -> Qc) (df : DataFrame)
    (b : Bar) :
  (1 <= w <= S i)%nat -> nth_error df i = Some b ->
  exists m, iloc (rolling_max w (col column df)) i = Fin m /\
            (column b <= m)%Qc /\
            In m (map column df).
Proof.
  intros Hw Hb.
  assert (Hi : (i < List.length df)%nat)
    by (apply nth_error_Some; congruence).
  unfold rolling_max. rewrite col_as_prices.
  destruct (rolling_finite_window w i nanmax (map column df))
    as (Hv & Hlen & Hincl); [lia | now rewrite length_map |].
  rewrite Hv.
  destruct (nanmax_finite (firstn w (skipn (S i - w) (map column df))))
    as (m & Hm & Hin & Hle).
  { intro E. rewrite E in Hlen. simpl in Hlen. lia. }
  exists m. split; [assumption|]. split; [|now apply Hincl].
  apply Hle. apply in_slice. exists i. split; [lia|].
  now rewrite nth_error_map, Hb.
Qed.

(** *** The rolling mean of a series of bounded values *)

Lemma finite_list (P : Qc -> Prop) (l : list fval) :
  Forall (fun x => exists q, x = Fin q /\ P q) l ->
  exists qs, l = map Fin qs /\ Forall P qs.
Proof.
  induction 1 as [|x l (q & -> & Hq) _ (qs & -> & Hqs)].
  - exists []. split; [reflexivity | constructor].
  - exists (q :: qs). split; [reflexivity | now constructor].
Qed.

Lemma rolling_mean_nan_or_within (lo hi : Qc) (w : nat) (s : Series) :
  (forall j, (j < List.length s)%nat -> nan_or_within lo hi (iloc s j)) ->
  forall i, (i < List.length s)%nat ->
    nan_or_within lo hi (iloc (rolling_mean w s) i).
Proof.
  intros H i Hi. unfold rolling_mean.
  rewrite iloc_rolling_apply by assumption. unfold window_at.
  destruct (w <=? S i)%nat eqn:E; [|now left].
  apply Nat.leb_le in E.
  destruct (forallb notna (firstn w (skipn (S i - w) s))) eqn:F;
    [|now left].
  destruct w as [|w]; [now left|].
  assert (Hlen : List.length (firstn (S w) (skipn (S i - S w) s)) = S w)
    by (rewrite length_firstn, length_skipn; lia).
  destruct (finite_list (within lo hi) (firstn (S w) (skipn (S i - S w) s)))
    as (qs & Hqs & Hb).
  { apply Forall_forall. intros x Hx.
    assert (Hn : notna x = true)
      by (rewrite forallb_forall in F; now apply F).
    apply in_slice in Hx as (j & Hj & Hx).
    assert (Hjl : (j < List.length s)%nat)
      by (apply nth_error_Some; congruence).
    destruct (H j Hjl) as [Hnan | (q & Hq & Hw)].
    - unfold iloc in Hnan. rewrite (nth_error_nth _ _ _ Hx) in Hnan.
      subst x. discriminate.
    - unfold iloc in Hq. rewrite (nth_error_nth _ _ _ Hx) in Hq.
      now exists q. }
  rewrite Hqs in *. rewrite length_map in Hlen. rewrite <- Hlen.
  right. apply mean_of_window_bounds; [lia | assumption].
Qed.

(** *** The stochastic oscillator *)

Lemma stochastic_lengths (k d : nat) (df : DataFrame) :
  List.length (stoch_k (stochastic k d df)) = List.length df /\
  List.length (stoch_d (stochastic k d df)) = List.length df.
Proof.
  unfold stochastic. cbn [stoch_k stoch_d]. unfold rolling_mean.
  rewrite rolling_apply_length.
  unfold rolling_min, rolling_max.
  rewrite length_map, !map2_length, !rolling_apply_length, !col_length.
  split; lia.
Qed.

Lemma stochastic_k_at (k d : nat) (df : DataFrame) (i : nat) :
  (i < List.length df)%nat ->
  iloc (stoch_k (stochastic k d df)) i =
  fmul (fz 100)
    (fdiv (fsub (iloc (col Close df) i) (iloc (rolling_min k (col Low df)) i))
          (fsub (iloc (rolling_max k (col High df)) i)
                (iloc (rolling_min k (col Low df)) i))).
Proof.
  intro Hi. unfold stochastic. cbn [stoch_k].
  assert (Hmin : List.length (rolling_min k (col Low df)) = List.length df)
    by (unfold rolling_min; now rewrite rolling_apply_length, col_length).
  assert (Hmax : List.length (rolling_max k (col High df)) = List.length df)
    by (unfold rolling_max; now rewrite rolling_apply_length, col_length).
  rewrite iloc_map
    by (rewrite !map2_length, Hmin, Hmax, col_length; lia).
  rewrite iloc_map2
    by (rewrite map2_length, ?Hmin, ?Hmax, ?col_length; lia).
  rewrite !iloc_map2 by (rewrite ?Hmin, ?Hmax, ?col_length; lia).
  reflexivity.
Qed.

(** 100 * (c - m) / (M - m) for m <= c <= M. *)
Lemma position_in_range (m c M : Qc) :
  (m <= c)%Qc -> (c <= M)%Qc ->
  nan_or_within 0%Qc (qz 100)
    (fmul (fz 100) (fdiv (fsub (Fin c) (Fin m)) (fsub (Fin M) (Fin m)))).
Proof.
  intros H1 H2. unfold fsub. cbn [fneg fadd].
  destruct (Qc_eqb (M + - m) 0) eqn:E.
  - left. apply Qc_eqb_eq in E.
    assert (Hc : (c + - m)%Qc = 0%Qc).
    { apply Qc_eq_this. apply Qc_eq_this in E. to_Q.
      change (this 0%Qc) with 0%Q in *. lra. }
    rewrite Hc, E. reflexivity.
  - right. apply Qc_eqb_neq in E.
    rewrite fdiv_Fin by assumption. unfold fz. cbn [fmul].
    eexists. split; [reflexivity|].
    assert (Hpos : (0 < M + - m)%Qc).
    { assert (Hne : ~ (this (M + - m) == 0)%Q).
      { intro Q. apply E. apply Qc_eq_this. exact Q. }
      to_Q. change (this 0%Qc) with 0%Q in *. lra. }
    unfold within. to_Q. change (this 0%Qc) with 0%Q in *.
    change (inject_Z 100) with 100%Q.
    assert (Hn : (0 <= this c + - this m)%Q) by lra.
    assert (Hle : (this c + - this m <= this M + - this m)%Q) by lra.
    pose proof (Qdiv_nonneg _ _ Hn Hpos).
    pose proof (Qdiv_le_1 _ _ Hle Hpos).
    split; lra.
Qed.

Lemma stochastic_k_range (k d : nat) (df : DataFrame) (i : nat) :
  Forall (fun b => (Low b <= Close b)%Qc /\ (Close b <= High b)%Qc) df ->
  (i < List.length df)%nat ->
  nan_or_within 0%Qc (qz 100) (iloc (stoch_k (stochastic k d df)) i).
Proof.
  intros Hbars Hi. rewrite stochastic_k_at by assumption.
  destruct (bar_at df i Hi) as [b Hb].
  destruct (Nat.le_gt_cases k (S i)) as [Hk|Hk].
  - destruct k as [|k].
    + left. unfold rolling_min.
      rewrite (rolling_undefined 0 i nanmin) by (auto; reflexivity).
      unfold fsub. cbn [fneg]. rewrite !fadd_nan_r. reflexivity.
    + destruct (rolling_min_at (S k) i Low df b) as (m & Hm & Hml & _);
        [lia | assumption |].
      destruct (rolling_max_at (S k) i High df b) as (M & HM & HMh & _);
        [lia | assumption |].
      rewrite Hm, HM, (iloc_col Close df i b Hb).
      rewrite Forall_forall in Hbars.
      destruct (Hbars b (nth_error_In _ _ Hb)) as [Hlc Hch].
      apply position_in_range.
      * now apply Qcle_trans with (Low b).
      * now apply Qcle_trans with (High b).
  - left. unfold rolling_min.
    rewrite (rolling_undefined k i nanmin) by (auto; reflexivity).
    unfold fsub. cbn [fneg]. rewrite !fadd_nan_r. reflexivity.
Qed.

End OscillatorFacts.

(* ================================================================== *)
(** ** True range, on-balance volume and Bollinger bands *)
(* ================================================================== *)

Module VolatilityFacts.
Import Float Pandas AnalysisEngine Spec Props.
Import FloatFacts PandasFacts MovingAverageFacts RsiFacts ExtremeFacts.
Import OrderFacts RsiRangeFacts AverageFacts MacdFacts OscillatorFacts.

(** *** True range *)

Lemma row_max3_length (a b c : Series) :
  List.length (row_max3 a b c) =
  Nat.min (List.length a) (Nat.min (List.length b) (List.length c)).
Proof.
  revert b c. induction a as [|x a IH]; intros [|y b] [|z c];
    try reflexivity.
  cbn [row_max3 List.length]. rewrite IH. lia.
Qed.

Lemma iloc_row_max3 (a b c : Series) (i : nat) :
  (i < List.length a)%nat -> (i < List.length b)%nat ->
  (i < List.length c)%nat ->
  iloc (row_max3 a b c) i = nanmax [iloc a i; iloc b i; iloc c i].
Proof.
  revert b c i. induction a as [|x a IH]; intros [|y b] [|z c] i Ha Hb Hc;
    simpl in Ha, Hb, Hc; try lia.
  destruct i as [|i]; [reflexivity|].
  unfold iloc. cbn [row_max3 nth]. apply IH; lia.
Qed.

Lemma true_range_length (df : DataFrame) :
  List.length (true_range df) = List.length df.
Proof.
  unfold true_range.
  rewrite row_max3_length, !length_map, !map2_length, shift1_length,
    !col_length.
  lia.
Qed.

Lemma true_range_at (df : DataFrame) (i : nat) :
  (i < List.length df)%nat ->
  iloc (true_range df) i =
  nanmax [fsub (iloc (col High df) i) (iloc (col Low df) i);
          fabs (fsub (iloc (col High df) i)
                     (iloc (shift1 (col Close df)) i));
          fabs (fsub (iloc (col Low df) i)
                     (iloc (shift1 (col Close df)) i))].
Proof.
  intro Hi. unfold true_range.
  rewrite iloc_row_max3
    by (rewrite ?length_map, !map2_length, ?shift1_length, !col_length; lia).
  rewrite !iloc_map
    by (rewrite map2_length, shift1_length, !col_length; lia).
  rewrite !iloc_map2 by (rewrite ?shift1_length, !col_length; lia).
  reflexivity.
Qed.

Lemma true_range_first (df : DataFrame) (b : Bar) :
  nth_error df 0 = Some b ->
  iloc (true_range df) 0 = Fin (High b - Low b).
Proof.
  intro Hb.
  assert (Hi : (0 < List.length df)%nat)
    by (apply nth_error_Some; congruence).
  rewrite true_range_at by assumption.
  rewrite iloc_shift1_0, (iloc_col High df 0 b Hb), (iloc_col Low df 0 b Hb).
  reflexivity.
Qed.

Lemma nanmax_three (x y z : Qc) :
  nanmax [Fin x; Fin y; Fin z] = Fin (qmax (qmax x y) z).
Proof.
  unfold nanmax, py_max, dropna.
  cbn [filter notna isnan negb py_extreme fold_left].
  unfold fgt, qmax. cbn [flt].
  destruct (Qc_ltb x y); cbn [flt]; destruct (Qc_ltb _ z); reflexivity.
Qed.

Lemma true_range_next (df : DataFrame) (j : nat) (p b : Bar) :
  nth_error df j = Some p -> nth_error df (S j) = Some b ->
  iloc (true_range df) (S j) =
  Fin (qmax (qmax (High b - Low b) (qabs (High b - Close p)))
            (qabs (Low b - Close p))).
Proof.
  intros Hp Hb.
  assert (Hi : (S j < List.length df)%nat)
    by (apply nth_error_Some; congruence).
  rewrite true_range_at by assumption.
  rewrite iloc_shift1_S by now rewrite col_length.
  rewrite (iloc_col High df _ b Hb), (iloc_col Low df _ b Hb),
    (iloc_col Close df _ p Hp).
  unfold fsub. cbn [fneg fadd fabs]. apply nanmax_three.
Qed.

Lemma qmax_ge_l (a b : Qc) : (a <= qmax a b)%Qc.
Proof.
  unfold qmax. destruct (Qc_ltb a b) eqn:E; [|apply Qcle_refl].
  apply Qclt_le_weak. now apply Qc_ltb_lt.
Qed.

Lemma qmax_ge_r (a b : Qc) : (b <= qmax a b)%Qc.
Proof.
  unfold qmax. destruct (Qc_ltb a b) eqn:E; [apply Qcle_refl|].
  now apply Qc_ltb_ge.
Qed.

Lemma qabs_nonneg (a : Qc) : (0 <= qabs a)%Qc.
Proof.
  unfold qabs. destruct (Qc_ltb a 0) eqn:E.
  - apply Qc_ltb_lt in E. to_Q. change (this 0%Qc) with 0%Q in *. lra.
  - now apply Qc_ltb_ge.
Qed.

Lemma true_range_finite (df : DataFrame) (i : nat) (b : Bar) :
  nth_error df i = Some b ->
  exists t, iloc (true_range df) i = Fin t /\ (High b - Low b <= t)%Qc.
Proof.
  intro Hb. destruct i as [|j].
  - exists (High b - Low b)%Qc. split; [now apply true_range_first|].
    apply Qcle_refl.
  - destruct (bar_at df j) as [p Hp].
    { assert (S j < List.length df)%nat
        by (apply nth_error_Some; congruence). lia. }
    eexists. split; [now apply (true_range_next df j p b)|].
    eapply Qcle_trans; [|apply qmax_ge_l]. apply qmax_ge_l.
Qed.

Lemma upper_bound (qs : list Qc) (a : Qc) :
  exists B, (a <= B)%Qc /\ Forall (fun q => (q <= B)%Qc) qs.
Proof.
  induction qs as [|q qs (B & Ha & HB)].
  - exists a. split; [apply Qcle_refl | constructor].
  - exists (qmax B q). split.
    + eapply Qcle_trans; [exact Ha | apply qmax_ge_l].
    + constructor; [apply qmax_ge_r|].
      eapply Forall_impl; [|exact HB]. cbn. intros x Hx.
      eapply Qcle_trans; [exact Hx | apply qmax_ge_l].
Qed.

(** The average true range on bars whose high is not below their low. *)
Lemma atr_nonneg (period : nat) (df : DataFrame) (i : nat) :
  (1 <= period)%nat ->
  Forall (fun b => (Low b <= High b)%Qc) df ->
  (period - 1 <= i < List.length df)%nat ->
  exists q, iloc (atr period df) i = Fin q /\ (0 <= q)%Qc.
Proof.
  intros Hp Hbars Hi.
  destruct (finite_series (fun t => (0 <= t)%Qc) (true_range df))
    as (ts & Hts & Hpos).
  { intros j Hj. rewrite true_range_length in Hj.
    destruct (bar_at df j Hj) as [b Hb].
    destruct (true_range_finite df j b Hb) as (t & Ht & Hle).
    exists t. split; [assumption|].
    rewrite Forall_forall in Hbars.
    pose proof (Hbars b (nth_error_In _ _ Hb)) as Hlh.
    to_Q. change (this 0%Qc) with 0%Q in *. lra. }
  assert (Hlen : List.length ts = List.length df)
    by (rewrite <- true_range_length, Hts; now rewrite length_map).
  destruct (upper_bound ts 0%Qc) as (B & _ & HB).
  unfold atr, rolling_mean. rewrite Hts.
  destruct (rolling_finite_window period i
              (fun win => fdiv (fsum win) (fz (Z.of_nat period))) ts)
    as (Hv & Hwl & Hincl); [lia | lia |].
  rewrite Hv. revert Hwl Hincl.
  generalize (firstn period (skipn (S i - period) ts)).
  intros win Hwl Hincl. rewrite <- Hwl.
  destruct (mean_of_window_bounds 0%Qc B win) as (q & Hq & Hq0 & _).
  - lia.
  - apply Forall_forall. intros x Hx. rewrite Forall_forall in Hpos, HB.
    split; [apply Hpos | apply HB]; now apply Hincl.
  - now exists q.
Qed.

(** *** On-balance volume *)

Lemma cumsum_from_length (acc : fval) (s : Series) :
  List.length (cumsum_from acc s) = List.length s.
Proof.
  revert acc. induction s as [|x r IH]; intro acc; [reflexivity|].
  cbn [cumsum_from]. destruct (isnan x); cbn [List.length]; now rewrite IH.
Qed.

Lemma cumsum_from_step (s : Series) (acc : fval) (i : nat) :
  (S i < List.length s)%nat ->
  notna (iloc s i) = true -> notna (iloc s (S i)) = true ->
  iloc (cumsum_from acc s) (S i) =
  fadd (iloc (cumsum_from acc s) i) (iloc s (S i)).
Proof.
  revert acc i. induction s as [|x r IH]; intros acc i Hl H0 H1;
    [simpl in Hl; lia|].
  destruct i as [|i].
  - destruct r as [|y r']; [simpl in Hl; lia|].
    unfold iloc in *. cbn [nth] in *. cbn [cumsum_from].
    unfold notna in H0, H1. apply negb_true_iff in H0, H1.
    rewrite H0. cbn [cumsum_from]. rewrite H1. reflexivity.
  - unfold iloc in *. cbn [nth] in H0, H1. cbn [cumsum_from].
    destruct (isnan x); cbn [nth]; apply IH; simpl in Hl; try lia; assumption.
Qed.

Lemma fsign_Fin (q : Qc) : fsign (Fin q) = fz (flow_sign q).
Proof.
  unfold fsign, flow_sign.
  destruct (Qc_ltb 0 q); [reflexivity|]. now destruct (Qc_ltb q 0).
Qed.

(** The series that [obv] accumulates. *)
Lemma flow_first (df : DataFrame) :
  (0 < List.length df)%nat ->
  iloc (fillna (Fin 0)
          (map2 fmul (map fsign (diff (col Close df))) (col Volume df))) 0
  = Fin 0.
Proof.
  intro Hn. unfold fillna.
  rewrite iloc_map
    by (rewrite map2_length, length_map, diff_length, !col_length; lia).
  rewrite iloc_map2
    by (rewrite ?length_map, ?diff_length, !col_length; lia).
  rewrite iloc_map by (rewrite diff_length, col_length; lia).
  rewrite iloc_diff_0. reflexivity.
Qed.

Lemma flow_next (df : DataFrame) (j : nat) (p b : Bar) :
  nth_error df j = Some p -> nth_error df (S j) = Some b ->
  iloc (fillna (Fin 0)
          (map2 fmul (map fsign (diff (col Close df))) (col Volume df)))
       (S j)
  = Fin (qz (flow_sign (Close b - Close p)) * Volume b).
Proof.
  intros Hp Hb.
  assert (Hi : (S j < List.length df)%nat)
    by (apply nth_error_Some; congruence).
  unfold fillna.
  rewrite iloc_map
    by (rewrite map2_length, length_map, diff_length, !col_length; lia).
  rewrite iloc_map2
    by (rewrite ?length_map, ?diff_length, !col_length; lia).
  rewrite iloc_map by (rewrite diff_length, col_length; lia).
  rewrite (iloc_col Volume df _ b Hb).
  unfold diff. rewrite iloc_map2 by (rewrite ?shift1_length, col_length; lia).
  rewrite iloc_shift1_S by now rewrite col_length.
  rewrite (iloc_col Close df _ b Hb), (iloc_col Close df _ p Hp).
  unfold fsub. cbn [fneg fadd]. rewrite fsign_Fin. reflexivity.
Qed.

Lemma flow_length (df : DataFrame) :
  List.length (fillna (Fin 0)
     (map2 fmul (map fsign (diff (col Close df))) (col Volume df)))
  = List.length df.
Proof.
  unfold fillna.
  rewrite length_map, map2_length, length_map, diff_length, !col_length.
  lia.
Qed.

Lemma flow_defined (df : DataFrame) (i : nat) :
  (i < List.length df)%nat ->
  exists q,
    iloc (fillna (Fin 0)
            (map2 fmul (map fsign (diff (col Close df))) (col Volume df))) i
    = Fin q.
Proof.
  intro Hi. destruct i as [|j].
  - eexists. now apply flow_first.
  - destruct (bar_at df j ltac:(lia)) as [p Hp].
    destruct (bar_at df (S j) Hi) as [b Hb].
    eexists. now apply (flow_next df j p b).
Qed.

Lemma obv_length (df : DataFrame) : List.length (obv df) = List.length df.
Proof. unfold obv, cumsum. now rewrite cumsum_from_length, flow_length. Qed.

Lemma obv_first (df : DataFrame) :
  (0 < List.length df)%nat -> iloc (obv df) 0 = Fin 0.
Proof.
  intro Hn. pose proof (flow_first df Hn) as H.
  pose proof (flow_length df) as HL.
  unfold obv, cumsum.
  destruct (fillna _ _) as [|x r]; [simpl in HL; lia|].
  unfold iloc in H. cbn [nth] in H. subst x. reflexivity.
Qed.

Lemma obv_next (df : DataFrame) (j : nat) (p b : Bar) :
  nth_error df j = Some p -> nth_error df (S j) = Some b ->
  iloc (obv df) (S j) =
  fadd (iloc (obv df) j)
       (Fin (qz (flow_sign (Close b - Close p)) * Volume b)).
Proof.
  intros Hp Hb.
  assert (Hi : (S j < List.length df)%nat)
    by (apply nth_error_Some; congruence).
  unfold obv, cumsum. rewrite cumsum_from_step.
  - now rewrite (flow_next df j p b).
  - now rewrite flow_length.
  - destruct (flow_defined df j ltac:(lia)) as [q Hq]. now rewrite Hq.
  - destruct (flow_defined df (S j) Hi) as [q Hq]. now rewrite Hq.
Qed.

Lemma obv_finite (df : DataFrame) (i : nat) :
  (i < List.length df)%nat -> exists q, iloc (obv df) i = Fin q.
Proof.
  induction i as [|j IH]; intro Hi.
  - exists 0%Qc. apply obv_first. lia.
  - destruct (IH ltac:(lia)) as [q Hq].
    destruct (bar_at df j ltac:(lia)) as [p Hp].
    destruct (bar_at df (S j) Hi) as [b Hb].
    rewrite (obv_next df j p b Hp Hb), Hq. cbn [fadd]. eexists. reflexivity.
Qed.

End VolatilityFacts.

(* ================================================================== *)
(** ** Bollinger bands *)
(* ================================================================== *)

Module BandFacts.
Import Float Pandas AnalysisEngine Spec Props.
Import FloatFacts PandasFacts CrossoverFacts MovingAverageFacts RsiFacts.
Import ExtremeFacts.
Import OrderFacts RsiRangeFacts AverageFacts MacdFacts OscillatorFacts.

Lemma mean_finite (win : list Qc) :
  win <> [] ->
  mean (map Fin win) = Fin (qsum win / qz (Z.of_nat (List.length win))).
Proof.
  intro H. unfold mean. rewrite dropna_Fin.
  destruct win as [|a r]; [contradiction|].
  cbn [map]. change (Fin a :: map Fin r) with (map Fin (a :: r)).
  rewrite fsum_Fin, length_map. unfold fz.
  rewrite fdiv_Fin by (apply qz_pos_neq0; simpl; lia). reflexivity.
Qed.

Lemma squares_finite (mu : Qc) (win : list Qc) :
  map (fun x => fmul (fsub x (Fin mu)) (fsub x (Fin mu))) (map Fin win) =
  map Fin (map (fun q => ((q + - mu) * (q + - mu))%Qc) win).
Proof. rewrite !map_map. apply map_ext. reflexivity. Qed.

Lemma square_nonneg (x : Qc) : (0 <= x * x)%Qc.
Proof. to_Q. change (this 0%Qc) with 0%Q. nra. Qed.

(** The sample variance of at least two finite values. *)
Lemma var_finite (win : list Qc) :
  (2 <= List.length win)%nat ->
  exists v, var (map Fin win) = Fin v /\ (0 <= v)%Qc.
Proof.
  intro H. unfold var. rewrite dropna_Fin, length_map.
  replace (List.length win <=? 1)%nat with false
    by (symmetry; apply Nat.leb_gt; lia).
  rewrite mean_finite by (intro E; subst; simpl in H; lia).
  rewrite squares_finite, fsum_Fin. unfold fz.
  assert (Hd : (0 < qz (Z.of_nat (List.length win) - 1))%Qc)
    by (apply (qz_lt 0); lia).
  rewrite fdiv_Fin by now apply Qc_pos_neq0.
  eexists. split; [reflexivity|].
  assert (Hs : (0 <= qsum
                  (map (fun q =>
                     ((q + - (qsum win / qz (Z.of_nat (List.length win))))
                      * (q + - (qsum win / qz (Z.of_nat (List.length win)))))%Qc)
                     win))%Qc).
  { unfold qsum at 1. apply fold_plus_nonneg; [apply Qcle_refl|].
    apply Forall_forall. intros x Hx.
    apply in_map_iff in Hx as (q & <- & _). apply square_nonneg. }
  revert Hs Hd. generalize (qz (Z.of_nat (List.length win) - 1)).
  generalize (qsum
                (map (fun q =>
                   ((q + - (qsum win / qz (Z.of_nat (List.length win))))
                    * (q + - (qsum win / qz (Z.of_nat (List.length win)))))%Qc)
                   win)).
  intros s d Hs Hd. to_Q. change (this 0%Qc) with 0%Q in *.
  now apply Qdiv_nonneg.
Qed.

(** The sample variance of at least two finite values, as a value. *)
Lemma var_value (win : list Qc) :
  (2 <= List.length win)%nat ->
  var (map Fin win) =
  Fin (qsum (map (fun q =>
                    ((q - qsum win / qz (Z.of_nat (List.length win)))
                     * (q - qsum win / qz (Z.of_nat (List.length win))))%Qc)
                 win)
       / qz (Z.of_nat (List.length win) - 1)).
Proof.
  intro H. unfold var. rewrite dropna_Fin, length_map.
  replace (List.length win <=? 1)%nat with false
    by (symmetry; apply Nat.leb_gt; lia).
  rewrite mean_finite by (intro E; subst; simpl in H; lia).
  rewrite squares_finite, fsum_Fin. unfold fz.
  assert (Hd : (0 < qz (Z.of_nat (List.length win) - 1))%Qc)
    by (apply (qz_lt 0); lia).
  rewrite fdiv_Fin by now apply Qc_pos_neq0.
  reflexivity.
Qed.

(** The prices of a list, bar by bar. *)
Lemma prices_by_bar (l : list Qc) :
  l = map (price_at l) (seq 0 (List.length l)).
Proof.
  apply (nth_ext _ _ 0%Qc 0%Qc).
  - now rewrite length_map, length_seq.
  - intros j Hj.
    rewrite (nth_indep (map (price_at l) (seq 0 (List.length l)))
               0%Qc (price_at l 0))
      by (now rewrite length_map, length_seq).
    rewrite map_nth, seq_nth by assumption. reflexivity.
Qed.

Lemma window_by_bar (w i : nat) (l : list Qc) :
  (w <= S i)%nat -> (i < List.length l)%nat ->
  firstn w (skipn (S i - w) l) = map (price_at l) (seq (S i - w) w).
Proof.
  intros Hw Hi. rewrite (prices_by_bar l) at 1.
  now apply window_of_map_seq.
Qed.

Lemma window_variance_nonneg (c : list Qc) (period i : nat) :
  (2 <= period)%nat -> (0 <= window_variance c period i)%Qc.
Proof.
  intro Hp. unfold window_variance. cbv zeta.
  assert (Hs : (0 <= qsum
                  (map (fun j =>
                     ((price_at c j - simple_mean (price_at c) period i)
                      * (price_at c j - simple_mean (price_at c) period i))%Qc)
                     (seq (S i - period) period)))%Qc).
  { unfold qsum. apply fold_plus_nonneg; [apply Qcle_refl|].
    apply Forall_forall. intros x Hx.
    apply in_map_iff in Hx as (q & <- & _). apply square_nonneg. }
  assert (Hd : (0 < qz (Z.of_nat period - 1))%Qc) by (apply (qz_lt 0); lia).
  revert Hs Hd. generalize (qz (Z.of_nat period - 1)).
  generalize (qsum
                (map (fun j =>
                   ((price_at c j - simple_mean (price_at c) period i)
                    * (price_at c j - simple_mean (price_at c) period i))%Qc)
                   (seq (S i - period) period))).
  intros s d Hs Hd. to_Q. change (this 0%Qc) with 0%Q in *.
  now apply Qdiv_nonneg.
Qed.

Lemma sma_value (period : nat) (column : Bar -> Qc) (df : DataFrame)
    (i : nat) :
  (1 <= period <= S i)%nat -> (i < List.length df)%nat ->
  iloc (sma period column df) i =
  Fin (simple_mean (price_at (map column df)) period i).
Proof.
  intros Hp Hi. unfold sma. rewrite col_as_prices.
  rewrite (prices_by_bar (map column df)) at 1. rewrite length_map.
  rewrite iloc_rolling_mean_finite by lia.
  now replace (S i <? period)%nat with false
    by (symmetry; apply Nat.ltb_ge; lia).
Qed.

Lemma var_short (s : Series) : (List.length s <= 1)%nat -> var s = NaN.
Proof.
  intro H. unfold var.
  assert (Hd : (List.length (dropna s) <= 1)%nat).
  { unfold dropna. pose proof (filter_length_le notna s). lia. }
  now replace (List.length (dropna s) <=? 1)%nat with true
    by (symmetry; apply Nat.leb_le; lia).
Qed.

Lemma sma_defined (period : nat) (column : Bar -> Qc) (df : DataFrame)
    (i : nat) :
  (1 <= period <= S i)%nat -> (i < List.length df)%nat ->
  exists m, iloc (sma period column df) i = Fin m.
Proof.
  intros Hp Hi. unfold sma, rolling_mean. rewrite col_as_prices.
  destruct (rolling_finite_window period i
              (fun win => fdiv (fsum win) (fz (Z.of_nat period)))
              (map column df)) as (Hv & _ & _);
    [lia | now rewrite length_map |].
  rewrite Hv, fsum_Fin. unfold fz.
  rewrite fdiv_Fin by (apply qz_pos_neq0; lia).
  eexists. reflexivity.
Qed.

Section Bands.
Variable sqrt_ : Qc -> Qc.

Lemma rolling_std_length (w : nat) (s : Series) :
  List.length (rolling_std sqrt_ w s) = List.length s.
Proof. apply rolling_apply_length. Qed.

(** With the default [ddof = 1] a window of one bar has no standard
    deviation. *)
Lemma rolling_std_short (w i : nat) (s : Series) :
  (w <= 1)%nat -> iloc (rolling_std sqrt_ w s) i = NaN.
Proof.
  intro Hw.
  destruct (Nat.lt_ge_cases i (List.length s)) as [Hi|Hi];
    [|apply iloc_overflow; now rewrite rolling_std_length].
  unfold rolling_std. rewrite iloc_rolling_apply by assumption.
  unfold window_at. destruct (w <=? S i)%nat; [|reflexivity].
  destruct (forallb notna _); [|reflexivity].
  rewrite var_short; [reflexivity|].
  rewrite length_firstn. lia.
Qed.

Lemma rolling_std_at (w i : nat) (l : list Qc) :
  (2 <= w <= S i)%nat -> (i < List.length l)%nat ->
  exists v, iloc (rolling_std sqrt_ w (map Fin l)) i = Fin (sqrt_ v) /\
            (0 <= v)%Qc.
Proof.
  intros Hw Hi. unfold rolling_std.
  destruct (rolling_finite_window w i (fun win => fsqrt sqrt_ (var win)) l)
    as (Hv & Hlen & _); [lia | assumption |].
  rewrite Hv.
  destruct (var_finite (firstn w (skipn (S i - w) l))) as (v & Ev & Hv0);
    [lia|].
  rewrite Ev. exists v. split; [|assumption].
  cbn [fsqrt].
  now replace (Qc_ltb v 0) with false by (symmetry; now apply Qc_ltb_ge).
Qed.

(** From bar [w - 1] on the rolling deviation is the square root of
    the sample variance of the [w] prices ending at the bar. *)
Lemma rolling_std_value (w i : nat) (l : list Qc) :
  (2 <= w <= S i)%nat -> (i < List.length l)%nat ->
  iloc (rolling_std sqrt_ w (map Fin l)) i =
  Fin (sqrt_ (window_variance l w i)).
Proof.
  intros Hw Hi. unfold rolling_std.
  destruct (rolling_finite_window w i (fun win => fsqrt sqrt_ (var win)) l)
    as (Hv & Hlen & _); [lia | assumption |].
  rewrite Hv, var_value by lia. rewrite Hlen.
  rewrite window_by_bar by (assumption || lia).
  rewrite map_map. fold (simple_mean (price_at l) w i).
  fold (window_variance l w i). cbn [fsqrt].
  now replace (Qc_ltb (window_variance l w i) 0) with false
    by (symmetry; apply Qc_ltb_ge; apply window_variance_nonneg; lia).
Qed.

Lemma bands_at (period : nat) (k : Qc) (df : DataFrame) (i : nat) :
  (i < List.length df)%nat ->
  let bb := bollinger_bands sqrt_ period k df in
  iloc (middle bb) i = iloc (sma period Close df) i /\
  iloc (upper bb) i =
    fadd (iloc (sma period Close df) i)
         (fmul (iloc (rolling_std sqrt_ period (col Close df)) i) (Fin k)) /\
  iloc (lower bb) i =
    fsub (iloc (sma period Close df) i)
         (fmul (iloc (rolling_std sqrt_ period (col Close df)) i) (Fin k)).
Proof.
  intro Hi. cbv zeta. unfold bollinger_bands. cbn [middle upper lower].
  assert (Hs : List.length (sma period Close df) = List.length df)
    by apply sma_length.
  assert (Hd : List.length (rolling_std sqrt_ period (col Close df))
               = List.length df)
    by (now rewrite rolling_std_length, col_length).
  split; [reflexivity|].
  rewrite !iloc_map2 by (rewrite ?length_map, ?Hs, ?Hd; lia).
  rewrite !iloc_map by (rewrite Hd; lia).
  split; reflexivity.
Qed.
End Bands.

End BandFacts.

(* ================================================================== *)
(** ** Candlestick patterns *)
(* ================================================================== *)

Module PatternFacts.
Import Float Pandas AnalysisEngine Spec Props.
Import FloatFacts PandasFacts OrderFacts OscillatorFacts.



Section Patterns.
Variable df : DataFrame.





End Patterns.


End PatternFacts.

(* ================================================================== *)
(** ** Statistics, summary, validation and drawdown *)
(* ================================================================== *)

Module SummaryFacts.
Import Float Pandas AnalysisEngine BacktestEngine Spec Props.
Import FloatFacts PandasFacts CrossoverFacts MovingAverageFacts RsiFacts.
Import ExtremeFacts FlatFacts OrderFacts RsiRangeFacts AverageFacts.
Import MacdFacts OscillatorFacts VolatilityFacts BandFacts StrategyFacts.

(** *** [calculate_statistics] *)

Lemma iloc_end_some (s : Series) :
  s <> [] -> iloc_end s = Some (iloc s (List.length s - 1)).
Proof.
  intro H. destruct s as [|x r]; [contradiction|].
  unfold iloc_end. now rewrite last_iloc.
Qed.

(** The first percentage change is undefined and is dropped. *)
Lemma returns_length (s : Series) :
  (List.length (dropna (pct_change s)) <= List.length s - 1)%nat.
Proof.
  destruct s as [|x r]; [simpl; lia|].
  unfold pct_change, shift1. cbn [map2 map].
  assert (E : fsub (fdiv x NaN) (Fin 1) = NaN) by now destruct x.
  rewrite E. unfold dropna. cbn [filter notna isnan negb].
  etransitivity; [apply filter_length_le|].
  rewrite length_map, map2_length, removelast_length. cbn [List.length]. lia.
Qed.

Section Statistics.
Variable sqrt_ : Qc -> Qc.

Lemma calculate_statistics_none (df : DataFrame) :
  calculate_statistics sqrt_ df = None <-> df = [].
Proof.
  destruct df as [|b df]; split; try reflexivity; discriminate.
Qed.

Lemma calculate_statistics_fields (df : DataFrame) (st : Statistics) :
  calculate_statistics sqrt_ df = Some st ->
  let returns := dropna (pct_change (col Close df)) in
  mean_return st = mean returns /\
  std_return st = std sqrt_ returns /\
  sharpe_ratio st =
    (if fgt (std sqrt_ returns) (Fin 0)
     then fmul (fdiv (mean returns) (std sqrt_ returns))
               (Fin (sqrt_ (qz 252)))
     else Fin 0) /\
  max_gain st = nanmax returns /\
  max_loss st = nanmin returns /\
  volatility st = fmul (std sqrt_ returns) (Fin (sqrt_ (qz 252))) /\
  current_price st = iloc (col Close df) (List.length df - 1) /\
  price_change_pct st =
    fmul (fdiv (fsub (iloc (col Close df) (List.length df - 1))
                     (iloc (col Close df) 0))
               (iloc (col Close df) 0))
         (fz 100).
Proof.
  destruct df as [|b df]; [discriminate|].
  unfold calculate_statistics, bind.
  rewrite iloc_end_some by discriminate.
  cbn [col map iloc_first]. intro H. injection H as <-.
  cbn [mean_return std_return sharpe_ratio max_gain max_loss volatility
       current_price price_change_pct].
  rewrite !length_map. repeat (split; [reflexivity|]). reflexivity.
Qed.

Lemma std_short (s : Series) :
  (List.length s <= 1)%nat -> std sqrt_ s = NaN.
Proof. intro H. unfold std. now rewrite var_short. Qed.
End Statistics.

(** *** [get_summary] *)

(** The last value of an indicator, read when the history has at least
    [k] bars. *)
Lemma indicator_last (s : Series) (k n : nat) :
  List.length s = n -> (1 <= n)%nat ->
  (if (k <=? n)%nat then option_map Some (iloc_end s) else Some None) =
  Some (if (k <=? n)%nat then Some (iloc s (n - 1)) else None).
Proof.
  intros HL Hn. destruct (k <=? n)%nat; [|reflexivity].
  rewrite iloc_end_some by (intro E; subst s; simpl in HL; lia).
  now rewrite HL.
Qed.

Lemma get_summary_value (sqrt_ : Qc -> Qc) (R : Series -> nat -> Series)
    (df : DataFrame) (st : Statistics) :
  calculate_statistics sqrt_ df = Some st ->
  get_summary sqrt_ false R df =
  Some (mkSummary st (find_support_resistance 5 2 df) (detect_patterns df)
          (mkIndicators
             (if (14 <=? List.length df)%nat
              then Some (iloc (rsi false R 14 df) (List.length df - 1))
              else None)
             (if (20 <=? List.length df)%nat
              then Some (iloc (sma 20 Close df) (List.length df - 1))
              else None)
             (if (50 <=? List.length df)%nat
              then Some (iloc (sma 50 Close df) (List.length df - 1))
              else None))).
Proof.
  intro Hst.
  assert (Hn : (1 <= List.length df)%nat).
  { destruct df; [discriminate | simpl; lia]. }
  unfold get_summary. rewrite Hst. cbn [bind].
  rewrite (indicator_last _ 14 (List.length df))
    by (apply rsi_manual_length || assumption).
  cbn [bind].
  rewrite (indicator_last _ 20 (List.length df))
    by (apply sma_length || assumption).
  cbn [bind].
  rewrite (indicator_last _ 50 (List.length df))
    by (apply sma_length || assumption).
  reflexivity.
Qed.

(** *** [find_support_resistance] on a short history *)

Lemma scan_levels_short (window min_touches : nat) (column : Bar -> Qc)
    (ext : Series) (df : DataFrame) :
  (List.length df <= 2 * window)%nat ->
  scan_levels window min_touches column ext df = [].
Proof.
  intro H. unfold scan_levels.
  now replace (List.length df - window - window)%nat with 0%nat by lia.
Qed.

(** *** [_validate_data] *)

Lemma missing_columns (columns : list String.string) (c : String.string) :
  In c (filter (fun c => negb (existsb (String.eqb c) columns))
          Columns.required) <->
  In c Columns.required /\ ~ In c columns.
Proof.
  rewrite filter_In, negb_true_iff. split; intros [Hr Hc]; (split; [assumption|]).
  - intro Hin. assert (E : existsb (String.eqb c) columns = true).
    { apply existsb_exists. exists c. split; [assumption|].
      apply String.eqb_refl. }
    congruence.
  - destruct (existsb (String.eqb c) columns) eqn:E; [|reflexivity].
    apply existsb_exists in E as (x & Hx & Ex).
    apply String.eqb_eq in Ex. subst x. contradiction.
Qed.

(** *** Maximum drawdown *)

Lemma Forall_iloc (P : fval -> Prop) (s : Series) :
  (forall i, (i < List.length s)%nat -> P (iloc s i)) -> Forall P s.
Proof.
  intro H. apply Forall_forall. intros x Hx.
  apply In_nth_error in Hx as [i Hi].
  assert (Hl : (i < List.length s)%nat) by (apply nth_error_Some; congruence).
  specialize (H i Hl). unfold iloc in H.
  now rewrite (nth_error_nth _ _ _ Hi) in H.
Qed.

(** The defined entries of a series of undefined or constrained finite
    values. *)
Lemma dropna_finite (P : Qc -> Prop) (s : Series) :
  Forall (fun x => x = NaN \/ exists q, x = Fin q /\ P q) s ->
  exists qs, dropna s = map Fin qs /\ Forall P qs /\
             forall q, In (Fin q) s -> In q qs.
Proof.
  induction 1 as [|x s Hx _ (qs & E & HP & Hin)].
  - exists []. split; [reflexivity|]. split; [constructor|]. intros q [].
  - destruct Hx as [-> | (q & -> & Hq)].
    + exists qs. split; [exact E|]. split; [assumption|].
      intros q [Hq | Hq]; [discriminate | now apply Hin].
    + exists (q :: qs). unfold dropna in *. cbn [filter notna isnan negb map].
      rewrite E. split; [reflexivity|]. split; [now constructor|].
      intros q' [Hq' | Hq'].
      * injection Hq' as ->. now left.
      * right. now apply Hin.
Qed.

Lemma Forall_firstn {A : Type} (P : A -> Prop) (n : nat) (l : list A) :
  Forall P l -> Forall P (firstn n l).
Proof.
  intro H. apply Forall_forall. intros x Hx.
  rewrite Forall_forall in H. apply H.
  rewrite <- (firstn_skipn n l). apply in_app_iff. now left.
Qed.

Lemma in_firstn_S (s : Series) (i : nat) :
  (i < List.length s)%nat -> In (iloc s i) (firstn (S i) s).
Proof.
  intro Hi. apply (in_slice s 0 (S i)). cbn [skipn].
  exists i. split; [lia|]. unfold iloc. now apply nth_error_nth'.
Qed.

(** The running maximum at a bar whose equity is defined. *)
Lemma running_max_at (s : Series) (i : nat) (e : Qc) :
  Forall (fun x => x = NaN \/ exists q, x = Fin q /\ (0 < q)%Qc) s ->
  (i < List.length s)%nat -> iloc s i = Fin e ->
  exists m, iloc (expanding_max s) i = Fin m /\ (e <= m)%Qc /\ (0 < e)%Qc.
Proof.
  intros Hs Hi He. unfold expanding_max.
  rewrite (iloc_map_seq (fun i => nanmax (firstn (S i) s))) by assumption.
  destruct (dropna_finite _ (firstn (S i) s)
              (Forall_firstn _ (S i) s Hs)) as (qs & E & HP & Hin).
  assert (Hq : In e qs).
  { apply Hin. rewrite <- He. now apply in_firstn_S. }
  unfold nanmax. rewrite E.
  destruct (nanmax_finite qs) as (m & Hm & _ & Hle).
  { intro Q. subst qs. destruct Hq. }
  unfold nanmax in Hm. rewrite dropna_Fin in Hm.
  exists m. split; [assumption|]. split; [now apply Hle|].
  rewrite Forall_forall in HP. now apply HP.
Qed.

(** (e - m) / m * 100 for 0 < e <= m. *)
Lemma drawdown_value (e m : Qc) :
  (0 < e)%Qc -> (e <= m)%Qc ->
  exists d,
    fmul (fdiv (fsub (Fin e) (Fin m)) (Fin m)) (fz 100) = Fin d /\
    within (- qz 100) 0%Qc d.
Proof.
  intros He Hm.
  assert (Hpos : (0 < m)%Qc) by (eapply Qclt_le_trans; eassumption).
  unfold fsub. cbn [fneg fadd].
  rewrite fdiv_Fin by now apply Qc_pos_neq0.
  unfold fz. cbn [fmul]. eexists. split; [reflexivity|].
  unfold within. to_Q. change (this 0%Qc) with 0%Q in *.
  change (inject_Z 100) with 100%Q.
  assert (H1 : ((this e + - this m) / this m <= 0)%Q).
  { apply Qle_shift_div_r; lra. }
  assert (H2 : (- (1) <= (this e + - this m) / this m)%Q).
  { apply Qle_shift_div_l; lra. }
  split; lra.
Qed.

Lemma max_drawdown_range (equity : Series) :
  Forall (fun x => x = NaN \/ exists q, x = Fin q /\ (0 < q)%Qc) equity ->
  nan_or_within 0%Qc (qz 100) (_calculate_max_drawdown equity).
Proof.
  intro Hs. unfold _calculate_max_drawdown.
  destruct (List.length equity =? 0)%nat eqn:E0.
  - right. exists 0%Qc. split; [reflexivity|].
    split; [apply Qcle_refl | now apply Qc_leb_le].
  - apply Nat.eqb_neq in E0.
    set (dd := map2 (fun e m => fmul (fdiv (fsub e m) m) (fz 100))
                 equity (expanding_max equity)).
    assert (Hlen : List.length (expanding_max equity) = List.length equity).
    { unfold expanding_max. now rewrite length_map, length_seq. }
    assert (Hdd : Forall (fun x => x = NaN \/
                    exists q, x = Fin q /\ within (- qz 100) 0%Qc q) dd).
    { apply Forall_iloc. intros i Hi. unfold dd in *.
      rewrite map2_length, Hlen, Nat.min_id in Hi.
      rewrite iloc_map2 by lia.
      rewrite Forall_forall in Hs.
      assert (Hin : In (iloc equity i) equity)
        by (unfold iloc; now apply nth_In).
      destruct (Hs _ Hin) as [En | (e & Ee & He)].
      - left. rewrite En. reflexivity.
      - right. rewrite <- Forall_forall in Hs.
        destruct (running_max_at equity i e Hs Hi Ee) as (m & Em & Hle & _).
        rewrite Ee, Em. now apply drawdown_value. }
    destruct (dropna_finite _ dd Hdd) as (qs & Eq & HP & _).
    unfold nanmin. rewrite Eq.
    destruct qs as [|q0 qs]; [now left|].
    destruct (nanmin_finite (q0 :: qs)) as (m & Hm & Hin & _);
      [discriminate|].
    unfold nanmin in Hm. rewrite dropna_Fin in Hm. rewrite Hm.
    right. cbn [fabs]. eexists. split; [reflexivity|].
    rewrite Forall_forall in HP. destruct (HP m Hin) as [Hlo Hhi].
    unfold within.
    destruct (Qc_ltb m 0) eqn:Em.
    + to_Q. change (this 0%Qc) with 0%Q in *.
      change (inject_Z 100) with 100%Q in *. split; lra.
    + apply Qc_ltb_ge in Em.
      assert (m = 0%Qc) by now apply Qcle_antisym.
      subst m. split; [apply Qcle_refl | now apply Qc_leb_le].
Qed.

End SummaryFacts.

(* ================================================================== *)
(** ** Buying once and holding *)
(* ================================================================== *)

Module HoldFacts.
Import Float Pandas AnalysisEngine BacktestEngine Spec Props.
Import FloatFacts PandasFacts RsiFacts TradeFacts BacktestFacts LagFacts.
Import FlatFacts TradeLogFacts OrderFacts.

Lemma round_trips_without_exit (signals : list Z) (i : nat)
    (held : option nat) :
  Forall (fun z => z <> (-1)%Z) signals ->
  round_trips_from i held signals = [].
Proof.
  intro H. revert i held.
  induction H as [|z s Hz _ IH]; intros i held; [reflexivity|].
  cbn [round_trips_from]. destruct held as [e|].
  - replace (z =? -1)%Z with false by (symmetry; now apply Z.eqb_neq).
    apply IH.
  - destruct (z =? 1)%Z; apply IH.
Qed.

Section Hold.
Variable df : DataFrame.
Variable cap : Qc.
Variable signals : list Z.
Variable k : nat.
Hypothesis closes_nonzero : Forall (fun b => Close b <> 0%Qc) df.
Hypothesis same_length : List.length signals = List.length df.
Hypothesis buy : nth k signals 0%Z = 1%Z.
Hypothesis hold : forall j, j <> k -> nth j signals 0%Z = 0%Z.

Let n := List.length df.
Let c := price_at (map Close df).

Lemma hold_positions (j : nat) :
  (j < n)%nat ->
  iloc (positions_of signals) j = if (j <? k)%nat then Fin 0 else fz 1.
Proof.
  induction j as [|j IH]; intro Hj.
  - rewrite positions_step by (rewrite same_length; exact Hj).
    destruct (Nat.eq_dec k 0) as [->|Hk].
    + rewrite buy. reflexivity.
    + rewrite hold by lia. cbn [Z.eqb].
      now replace (0 <? k)%nat with true
        by (symmetry; apply Nat.ltb_lt; lia).
  - rewrite positions_step by (rewrite same_length; exact Hj).
    destruct (Nat.eq_dec k (S j)) as [->|Hk].
    + rewrite buy, Nat.ltb_irrefl. reflexivity.
    + rewrite hold by lia. cbn [Z.eqb]. rewrite IH by lia.
      destruct (Nat.ltb_spec j k), (Nat.ltb_spec (S j) k);
        try reflexivity; lia.
Qed.

Lemma price_nonzero (i : nat) : (i < n)%nat -> c i <> 0%Qc.
Proof.
  intro Hi. unfold c, price_at.
  assert (F : Forall (fun q => q <> 0%Qc) (map Close df))
    by (now apply Forall_map).
  rewrite Forall_forall in F. apply F. apply nth_In. now rewrite length_map.
Qed.

Lemma hold_return (i : nat) :
  (S i < n)%nat ->
  iloc (strategy_returns_of signals (col Close df)) (S i) =
  Fin (if (i <? k)%nat then 0 else c (S i) / c i - 1)%Qc.
Proof.
  intro Hi.
  rewrite iloc_strategy_returns_S
    by (unfold col; rewrite length_map; auto).
  rewrite hold_positions by (unfold n; lia).
  rewrite col_as_prices, !iloc_prices by (rewrite length_map; lia).
  fold c. rewrite fdiv_Fin by (apply price_nonzero; unfold n; lia).
  unfold fsub, fz. cbn [fneg fadd].
  destruct (i <? k)%nat; cbn [fmul]; f_equal.
  - ring.
  - change (qz 1) with 1%Qc. ring.
Qed.

Lemma hold_equity (i : nat) :
  (S i < n)%nat ->
  iloc (equity_of cap signals (col Close df)) (S i) =
  Fin (if (S i <=? k)%nat then cap else cap * c (S i) / c k)%Qc.
Proof.
  induction i as [|i IH]; intro Hi.
  - rewrite (equity_seed df cap signals closes_nonzero same_length)
      by (unfold n in Hi; lia).
    rewrite hold_return by assumption. cbn [fadd fmul].
    destruct (Nat.eq_dec k 0) as [Hk|Hk].
    + rewrite Hk. cbn [Nat.ltb Nat.leb]. f_equal.
      field. apply price_nonzero. lia.
    + replace (0 <? k)%nat with true
        by (symmetry; apply Nat.ltb_lt; lia).
      replace (1 <=? k)%nat with true
        by (symmetry; apply Nat.leb_le; lia).
      f_equal. ring.
  - rewrite (equity_step df cap signals closes_nonzero same_length)
      by (unfold n in Hi; lia).
    rewrite IH by lia. rewrite hold_return by assumption.
    cbn [fadd fmul].
    destruct (Nat.leb_spec (S (S i)) k) as [H2|H2].
    + replace (S i <=? k)%nat with true
        by (symmetry; apply Nat.leb_le; lia).
      replace (S i <? k)%nat with true
        by (symmetry; apply Nat.ltb_lt; lia).
      f_equal. ring.
    + replace (S i <? k)%nat with false
        by (symmetry; apply Nat.ltb_ge; lia).
      destruct (Nat.leb_spec (S i) k) as [H1|H1].
      * assert (k = S i) by lia. subst k. f_equal.
        field. apply price_nonzero. lia.
      * f_equal. field.
        split; apply price_nonzero; lia.
Qed.

Lemma hold_no_exit : Forall (fun z => z <> (-1)%Z) signals.
Proof.
  apply Forall_forall. intros z Hz.
  apply (In_nth _ _ 0%Z) in Hz as (j & Hj & <-).
  destruct (Nat.eq_dec j k) as [->|Hne].
  - rewrite buy. discriminate.
  - rewrite hold by assumption. discriminate.
Qed.
End Hold.

End HoldFacts.

(* ================================================================== *)
(** ** Trades of the crossover strategies *)
(* ================================================================== *)

Module CrossingFacts.
Import Float Pandas AnalysisEngine BacktestEngine Spec Props.
Import FloatFacts PandasFacts CrossoverFacts TradeFacts TradeLogFacts.
Import FailureFacts.

(** The pairs of the state machine, read against the whole signal
    series. *)
Lemma round_trips_sound (signals : list Z) (m i : nat) (held : option nat) :
  m = (List.length signals - i)%nat -> (i <= List.length signals)%nat ->
  (forall e, held = Some e ->
     (e < i)%nat /\ nth e signals 0%Z = 1%Z /\
     forall j, (e < j < i)%nat -> nth j signals 0%Z <> (-1)%Z) ->
  Forall (first_exit_after signals)
         (round_trips_from i held (skipn i signals)).
Proof.
  revert i held. induction m as [|m IH]; intros i held Hm Hi Hh.
  - rewrite skipn_all2 by lia. constructor.
  - rewrite (skipn_cons_nth 0%Z) by lia. cbn [round_trips_from].
    destruct held as [e|].
    + destruct (Hh e eq_refl) as (He & H1 & Hno).
      destruct (nth i signals 0 =? -1)%Z eqn:E.
      * apply Z.eqb_eq in E. constructor.
        -- unfold first_exit_after. cbn [fst snd].
           split; [lia|]. split; [assumption|]. split; assumption.
        -- apply IH; [lia | lia |]. intros e' He'. discriminate.
      * apply Z.eqb_neq in E. apply IH; [lia | lia |].
        intros e' He'. injection He' as <-.
        split; [lia|]. split; [assumption|].
        intros j Hj. destruct (Nat.eq_dec j i) as [->|Hne];
          [assumption | apply Hno; lia].
    + destruct (nth i signals 0 =? 1)%Z eqn:E.
      * apply Z.eqb_eq in E. apply IH; [lia | lia |].
        intros e' He'. injection He' as <-.
        split; [lia|]. split; [assumption|]. intros j Hj. lia.
      * apply IH; [lia | lia |]. intros e' He'. discriminate.
Qed.

Lemma round_trips_first_exit (signals : list Z) :
  Forall (first_exit_after signals) (round_trips signals).
Proof.
  apply (round_trips_sound signals (List.length signals) 0 None);
    [lia | lia |].
  intros e He. discriminate.
Qed.

(** The trades of a backtest on crossover signals. *)
Lemma crossover_trades (sqrt_ : Qc -> Qc) (df : DataFrame) (cap : Qc)
    (A B : Series) (r : Result) :
  List.length A = List.length df -> List.length B = List.length df ->
  simple_backtest sqrt_ df cap (crossover A B (List.length df)) None None
    = Some r ->
  Forall (between_crossings A B) (trades_detail r).
Proof.
  intros HA HB Hr.
  destruct (simple_backtest_trades _ _ _ _ _ _ _ Hr) as (Ht & _).
  pose proof (round_trips_first_exit (crossover A B (List.length df))) as H.
  rewrite <- (calculate_trades_round_trips df _ (price_or_close df None)
                (price_or_close df None)) in H.
  rewrite <- Ht in H. rewrite Forall_map in H.
  eapply Forall_impl; [|exact H]. cbn beta.
  intros t (Hlt & He & Hx & Hno). unfold trade_bars in *. cbn [fst snd] in *.
  pose proof (crossover_is_exact A B (List.length df) HA HB) as Hex.
  unfold between_crossings.
  split; [lia|].
  split; [now apply (proj1 (Hex (entry_idx t)))|].
  split; [now apply (proj1 (proj2 (Hex (exit_idx t))))|].
  intros j Hj. destruct (exit_at A B j) eqn:E; [|reflexivity].
  exfalso. apply (Hno j Hj).
  now apply (proj1 (proj2 (Hex j))).
Qed.

End CrossingFacts.

(* ================================================================== *)
(** ** Signs of the average win and of the average loss *)
(* ================================================================== *)

Module AverageTradeFacts.
Import Float Pandas AnalysisEngine BacktestEngine Spec Props.
Import FloatFacts PandasFacts RsiFacts TradeFacts BacktestFacts.
Import TradeLogFacts OrderFacts AverageFacts MacdFacts OscillatorFacts.
Import VolatilityFacts LevelFacts.

(** *** Rounding keeps the sign *)

Lemma round_half_even_nonneg (x : Qc) :
  (0 <= x)%Qc -> (0 <= round_half_even x)%Z.
Proof.
  intro H. unfold round_half_even.
  assert (Hf : (0 <= Qfloor x)%Z).
  { rewrite <- (Qfloor_Z 0). apply Qfloor_resp_le. exact H. }
  destruct (Qc_ltb _ _); [assumption|].
  destruct (Qc_ltb _ _); [lia|]. destruct (Z.even _); lia.
Qed.

Lemma round_half_even_nonpos (x : Qc) :
  (x <= 0)%Qc -> (round_half_even x <= 0)%Z.
Proof.
  intro H. unfold round_half_even.
  assert (Hf : (Qfloor x <= 0)%Z).
  { rewrite <- (Qfloor_Z 0). apply Qfloor_resp_le. exact H. }
  destruct (Qc_ltb (x - qz (Qfloor x)) (qfrac 1 2)) eqn:E; [assumption|].
  apply Qc_ltb_ge in E.
  assert (Hneg : (Qfloor x < 0)%Z).
  { rewrite Zlt_Qlt. unfold qfrac in E. to_Q.
    change (this 0%Qc) with 0%Q in *. change (inject_Z 0) with 0%Q.
    lra. }
  destruct (Qc_ltb _ _); [lia|]. destruct (Z.even _); lia.
Qed.

Lemma round2q_nonneg (x : Qc) : (0 <= x)%Qc -> (0 <= round2q x)%Qc.
Proof.
  intro H. unfold round2q.
  assert (Hx : (0 <= x * qz 100)%Qc).
  { to_Q. change (this 0%Qc) with 0%Q in *.
    change (inject_Z 100) with 100%Q. lra. }
  pose proof (qz_le 0 _ (round_half_even_nonneg _ Hx)) as Hr.
  revert Hr. generalize (qz (round_half_even (x * qz 100))). intros y Hy.
  to_Q. change (inject_Z 0) with 0%Q in *. change (this 0%Qc) with 0%Q.
  change (inject_Z 100) with 100%Q. apply Qdiv_nonneg; lra.
Qed.

Lemma round2q_nonpos (x : Qc) : (x <= 0)%Qc -> (round2q x <= 0)%Qc.
Proof.
  intro H. unfold round2q.
  assert (Hx : (x * qz 100 <= 0)%Qc).
  { to_Q. change (this 0%Qc) with 0%Q in *.
    change (inject_Z 100) with 100%Q. lra. }
  pose proof (qz_le _ 0 (round_half_even_nonpos _ Hx)) as Hr.
  revert Hr. generalize (qz (round_half_even (x * qz 100))). intros y Hy.
  to_Q. change (inject_Z 0) with 0%Q in *. change (this 0%Qc) with 0%Q.
  change (inject_Z 100) with 100%Q. apply Qle_shift_div_r; lra.
Qed.

(** *** Averages of values of one sign *)

Lemma lower_bound (qs : list Qc) (a : Qc) :
  exists B, (B <= a)%Qc /\ Forall (fun q => (B <= q)%Qc) qs.
Proof.
  induction qs as [|q qs (B & Ha & HB)].
  - exists a. split; [apply Qcle_refl | constructor].
  - destruct (Qc_leb B q) eqn:E.
    + apply Qc_leb_le in E. exists B. split; [assumption|].
      now constructor.
    + assert (Hq : (q <= B)%Qc) by now apply Qc_leb_false.
      exists q. split; [now apply Qcle_trans with B|].
      constructor; [apply Qcle_refl|].
      eapply Forall_impl; [|exact HB]. cbn. intros y Hy.
      now apply Qcle_trans with B.
Qed.

Lemma average_nonneg (vals : list fval) :
  Forall (fun x => exists q, x = Fin q /\ (0 <= q)%Qc) vals ->
  vals <> [] ->
  exists a, fdiv (fsum vals) (fz (Z.of_nat (List.length vals))) = Fin a /\
            (0 <= a)%Qc.
Proof.
  intros H Hne.
  destruct (finite_list _ vals H) as (qs & -> & Hqs).
  destruct (upper_bound qs 0%Qc) as (B & _ & HB).
  rewrite length_map.
  destruct (mean_of_window_bounds 0%Qc B qs) as (a & Ha & Ha0 & _).
  - destruct qs; [contradiction | simpl; lia].
  - apply Forall_forall. intros x Hx. rewrite Forall_forall in Hqs, HB.
    split; [now apply Hqs | now apply HB].
  - now exists a.
Qed.

Lemma average_nonpos (vals : list fval) :
  Forall (fun x => exists q, x = Fin q /\ (q <= 0)%Qc) vals ->
  vals <> [] ->
  exists a, fdiv (fsum vals) (fz (Z.of_nat (List.length vals))) = Fin a /\
            (a <= 0)%Qc.
Proof.
  intros H Hne.
  destruct (finite_list _ vals H) as (qs & -> & Hqs).
  destruct (lower_bound qs 0%Qc) as (B & _ & HB).
  rewrite length_map.
  destruct (mean_of_window_bounds B 0%Qc qs) as (a & Ha & _ & Ha0).
  - destruct qs; [contradiction | simpl; lia].
  - apply Forall_forall. intros x Hx. rewrite Forall_forall in Hqs, HB.
    split; [now apply HB | now apply Hqs].
  - now exists a.
Qed.

Lemma trade_statistics_signs (T : list Trade) :
  Forall signed_trade T ->
  exists a b,
    (let '(w, _, _, _) := trade_statistics T in w) = Fin a /\ (0 <= a)%Qc /\
    (let '(_, l, _, _) := trade_statistics T in l) = Fin b /\ (b <= 0)%Qc.
Proof.
  intro H.
  assert (Hw : exists a,
             match filter win T with
             | [] => Fin 0
             | _ :: _ =>
                 fdiv (fsum (map pnl_pct (filter win T)))
                      (fz (Z.of_nat (List.length (filter win T))))
             end = Fin a /\ (0 <= a)%Qc).
  { destruct (filter win T) as [|w ws] eqn:E.
    - exists 0%Qc. split; [reflexivity | apply Qcle_refl].
    - rewrite <- E. rewrite <- (length_map pnl_pct).
      apply average_nonneg.
      + apply Forall_map. apply Forall_forall. intros t Ht.
        apply filter_In in Ht as [Ht Hwin].
        rewrite Forall_forall in H. destruct (H t Ht) as (p & Hp & Hpos & _).
        exists p. split; [assumption | now apply Hpos].
      + rewrite E. discriminate. }
  assert (Hl : exists b,
             match filter (fun t => negb (win t)) T with
             | [] => Fin 0
             | _ :: _ =>
                 fdiv (fsum (map pnl_pct
                               (filter (fun t => negb (win t)) T)))
                      (fz (Z.of_nat
                             (List.length
                                (filter (fun t => negb (win t)) T))))
             end = Fin b /\ (b <= 0)%Qc).
  { destruct (filter (fun t => negb (win t)) T) as [|w ws] eqn:E.
    - exists 0%Qc. split; [reflexivity | apply Qcle_refl].
    - rewrite <- E. rewrite <- (length_map pnl_pct).
      apply average_nonpos.
      + apply Forall_map. apply Forall_forall. intros t Ht.
        apply filter_In in Ht as [Ht Hwin].
        apply negb_true_iff in Hwin.
        rewrite Forall_forall in H. destruct (H t Ht) as (p & Hp & _ & Hneg).
        exists p. split; [assumption | now apply Hneg].
      + rewrite E. discriminate. }
  unfold trade_statistics.
  destruct T as [|t0 T0].
  - exists 0%Qc, 0%Qc. split; [reflexivity|].
    split; [apply Qcle_refl|]. split; [reflexivity | apply Qcle_refl].
  - destruct Hw as (a & Ea & Ha). destruct Hl as (b & Eb & Hb).
    exists a, b. exact (conj Ea (conj Ha (conj Eb Hb))).
Qed.

(** Without a trade of its kind an average is 0. *)
Lemma trade_statistics_zero (T : list Trade) :
  (filter win T = [] ->
   (let '(w, _, _, _) := trade_statistics T in w) = Fin 0) /\
  (filter (fun t => negb (win t)) T = [] ->
   (let '(_, l, _, _) := trade_statistics T in l) = Fin 0).
Proof.
  unfold trade_statistics.
  destruct T as [|t0 T0]; [split; reflexivity|].
  split; intros ->; reflexivity.
Qed.

Lemma round2q_zero : round2q 0 = 0%Qc.
Proof. apply Qc_is_canon. vm_compute. reflexivity. Qed.

End AverageTradeFacts.

(* ================================================================== *)
(** ** The recurrence of the exponential average *)
(* ================================================================== *)

Module SmoothingFacts.
Import Float Pandas AnalysisEngine Spec Props.
Import FloatFacts PandasFacts MovingAverageFacts RsiFacts OrderFacts.
Import OscillatorFacts.

Lemma ewm_step_value (alpha w c : Qc) :
  ewm_step alpha (Fin w, 1%Qc) (Fin c) =
  (Fin ((1 - alpha) * w + alpha * c), 1%Qc).
Proof.
  unfold ewm_step. cbn [notna isnan negb].
  destruct (feqb (Fin w) (Fin c)) eqn:E.
  - apply feqb_Fin in E. subst c. f_equal. f_equal. ring.
  - cbn [fmul fadd].
    rewrite fdiv_Fin by (rewrite ewm_weight_one; exact Qc_one_neq_zero).
    f_equal. f_equal. rewrite ewm_weight_one.
    field. exact Qc_one_neq_zero.
Qed.

(** Each value of the run is the previous one moved towards the new
    observation. *)
Lemma ewm_run_recurrence (alpha : Qc) (r : list Qc) (w : Qc) (i : nat) :
  (i < List.length r)%nat ->
  exists x,
    iloc (Fin w :: ewm_run alpha (Fin w, 1%Qc) (map Fin r)) i = Fin x /\
    iloc (Fin w :: ewm_run alpha (Fin w, 1%Qc) (map Fin r)) (S i) =
    Fin ((1 - alpha) * x + alpha * nth i r 0%Qc).
Proof.
  revert w i. induction r as [|c r IH]; intros w i Hi; [simpl in Hi; lia|].
  cbn [map ewm_run]. rewrite ewm_step_value. cbn [fst].
  destruct i as [|i].
  - exists w. split; reflexivity.
  - destruct (IH ((1 - alpha) * w + alpha * c)%Qc i) as (x & Hx & Hn);
      [simpl in Hi; lia|].
    exists x. split; [exact Hx | exact Hn].
Qed.

End SmoothingFacts.

(* ================================================================== *)
(** ** Trades against the equity curve *)
(* ================================================================== *)

Module ExecutionFacts.
Import Float Pandas AnalysisEngine BacktestEngine Spec Props.
Import FloatFacts PandasFacts RsiFacts TradeFacts BacktestFacts LagFacts.
Import TradeLogFacts OrderFacts HoldFacts CrossingFacts.

(** *** Rounding to two decimals moves a figure by half a cent at most *)

Lemma round_half_even_near (x : Qc) :
  (x - qfrac 1 2 <= qz (round_half_even x))%Qc /\
  (qz (round_half_even x) <= x + qfrac 1 2)%Qc.
Proof.
  unfold round_half_even.
  pose proof (Qfloor_le x) as Hlo. pose proof (Qlt_floor x) as Hhi.
  rewrite inject_Z_plus in Hhi. change (inject_Z 1) with 1%Q in Hhi.
  assert (Hf : (x - qfrac 1 2 <= qz (Qfloor x))%Qc ->
               (x - qfrac 1 2 <= qz (Qfloor x))%Qc /\
               (qz (Qfloor x) <= x + qfrac 1 2)%Qc).
  { intro H. split; [exact H|]. unfold qfrac. to_Q. lra. }
  assert (Hc : (qz (Qfloor x + 1) <= x + qfrac 1 2)%Qc ->
               (x - qfrac 1 2 <= qz (Qfloor x + 1))%Qc /\
               (qz (Qfloor x + 1) <= x + qfrac 1 2)%Qc).
  { intro H. split; [|exact H]. unfold qfrac. to_Q.
    rewrite inject_Z_plus. change (inject_Z 1) with 1%Q. lra. }
  destruct (Qc_ltb (x - qz (Qfloor x)) (qfrac 1 2)) eqn:E1.
  - apply Hf. apply Qc_ltb_lt in E1. unfold qfrac in *. to_Q. lra.
  - apply Qc_ltb_ge in E1.
    assert (Hup : (qz (Qfloor x + 1) <= x + qfrac 1 2)%Qc).
    { unfold qfrac in *. to_Q. rewrite inject_Z_plus.
      change (inject_Z 1) with 1%Q. lra. }
    destruct (Qc_ltb (qfrac 1 2) (x - qz (Qfloor x))) eqn:E2;
      [now apply Hc|].
    apply Qc_ltb_ge in E2.
    destruct (Z.even (Qfloor x)); [|now apply Hc].
    apply Hf. unfold qfrac in *. to_Q. lra.
Qed.

Lemma round2q_near (q : Qc) :
  (q - qfrac 1 100 < round2q q)%Qc /\ (round2q q < q + qfrac 1 100)%Qc.
Proof.
  unfold round2q. destruct (round_half_even_near (q * qz 100)) as [H1 H2].
  revert H1 H2. generalize (qz (round_half_even (q * qz 100))).
  intros m H1 H2. unfold qfrac in *. to_Q.
  change (inject_Z 100) with 100%Q in *.
  split; [apply Qlt_shift_div_l | apply Qlt_shift_div_r]; lra.
Qed.

Lemma within_a_cent_round2 (x : fval) : within_a_cent x (round2 x).
Proof. destruct x; cbn; try reflexivity. apply round2q_near. Qed.

(** *** The records of the log *)

Lemma record_within_a_cent (EP XP : Series) (t : Trade) :
  trade_record EP XP t -> record_of_bars EP XP t.
Proof.
  unfold trade_record, record_of_bars. cbv zeta.
  intros (H1 & H2 & H3 & H4 & H5 & H6 & H7).
  rewrite H3, H4, H5, H6.
  repeat split; try assumption; try apply within_a_cent_round2; lia.
Qed.

Lemma trades_on_signal_bars (sqrt_ : Qc -> Qc) (df : DataFrame) (cap : Qc)
    (signals : list Z) (r : Result) :
  List.length signals = List.length df ->
  simple_backtest sqrt_ df cap signals None None = Some r ->
  Forall (trade_on_signal_bars df signals) (trades_detail r).
Proof.
  intros HL Hr.
  destruct (simple_backtest_fields sqrt_ df cap signals r Hr)
    as (_ & _ & Ht & _).
  rewrite Ht. eapply Forall_impl; [|apply calculate_trades_invariant].
  intros t (Hidx & He1 & He0 & Hx1 & Hx0 & Hep & Hxp & Hpnl).
  rewrite positions_length in Hidx.
  unfold trade_on_signal_bars, close_at. rewrite Hep, Hxp.
  repeat split; try apply within_a_cent_round2; try lia.
  - apply position_turns_on_signal; try assumption; lia.
  - apply position_turns_on_signal; try assumption; try lia.
    now right.
Qed.

(** *** The account between the entry and the exit of a trade *)

Section Execution.
Variable df : DataFrame.
Variable cap : Qc.
Variable signals : list Z.
Hypothesis closes_nonzero : Forall (fun b => Close b <> 0%Qc) df.
Hypothesis same_length : List.length signals = List.length df.
Hypothesis ternary :
  Forall (fun z => z = 1 \/ z = 0 \/ z = -1)%Z signals.

Let n := List.length df.
Let c := price_at (map Close df).
Let equity := equity_of cap signals (col Close df).

(** The position is long from the entry bar to the bar before the
    exit. *)
Lemma held_position (e x j : nat) :
  first_exit_after signals (e, x) -> (e <= j < x)%nat ->
  iloc (positions_of signals) j = fz 1.
Proof.
  intros (Hlt & H1 & _ & Hno). cbn [fst snd] in *.
  induction j as [|j IH]; intro Hj.
  - rewrite positions_step by lia.
    replace 0%nat with e by lia. now rewrite H1.
  - rewrite positions_step by lia.
    destruct (Nat.eq_dec e (S j)) as [<-|Hne]; [now rewrite H1|].
    assert (Hin : In (nth (S j) signals 0%Z) signals)
      by (apply nth_In; lia).
    rewrite Forall_forall in ternary.
    destruct (ternary _ Hin) as [E|[E|E]].
    + now rewrite E.
    + rewrite E. cbn [Z.eqb]. apply IH. lia.
    + exfalso. apply (Hno (S j)); [lia | exact E].
Qed.

Lemma held_return (e x j : nat) :
  first_exit_after signals (e, x) -> (e <= j < x)%nat ->
  iloc (strategy_returns_of signals (col Close df)) (S j) =
  Fin (c (S j) / c j - 1)%Qc.
Proof.
  intros Hf Hj. pose proof Hf as (Hlt & _). cbn [fst snd] in Hlt.
  rewrite iloc_strategy_returns_S
    by (unfold col; rewrite length_map; lia).
  rewrite (held_position e x j Hf Hj).
  rewrite col_as_prices, !iloc_prices by (rewrite length_map; lia).
  fold c. rewrite fdiv_Fin by (apply (price_nonzero df); [assumption|lia]).
  unfold fsub, fz. cbn [fneg fadd fmul]. f_equal.
  change (qz 1) with 1%Qc. ring.
Qed.

Lemma account_step (j : nat) :
  (S j < n)%nat ->
  account_at cap equity (S j) =
  fmul (account_at cap equity j)
       (fadd (Fin 1)
             (iloc (strategy_returns_of signals (col Close df)) (S j))).
Proof.
  intro Hj. destruct j as [|j]; cbn [account_at].
  - apply (equity_seed df cap signals closes_nonzero same_length).
    exact Hj.
  - apply (equity_step df cap signals closes_nonzero same_length).
    exact Hj.
Qed.

Lemma account_finite (j : nat) :
  (j < n)%nat -> exists a, account_at cap equity j = Fin a.
Proof.
  intro Hj. destruct j as [|j]; cbn [account_at]; [now exists cap|].
  pose proof (equity_finite df cap signals closes_nonzero same_length j Hj)
    as H.
  fold equity in H. destruct (iloc equity (S j)); try discriminate.
  eexists. reflexivity.
Qed.

(** From the entry bar on the account follows the close. *)
Lemma account_held (e x : nat) (a : Qc) :
  first_exit_after signals (e, x) ->
  account_at cap equity e = Fin a ->
  forall j, (e <= j <= x)%nat ->
    account_at cap equity j = Fin (a * (c j / c e))%Qc.
Proof.
  intros Hf Ha. pose proof Hf as (Hlt & _). cbn [fst snd] in Hlt.
  assert (Hce : c e <> 0%Qc)
    by (apply (price_nonzero df); [assumption|lia]).
  assert (Hstart : account_at cap equity e = Fin (a * (c e / c e))%Qc).
  { rewrite Ha. f_equal. now field. }
  induction j as [|j IH]; intro Hj.
  - now replace 0%nat with e by lia.
  - destruct (Nat.eq_dec e (S j)) as [<-|Hne]; [exact Hstart|].
    rewrite account_step by (unfold n; lia).
    rewrite IH by lia. rewrite (held_return e x j Hf) by lia.
    cbn [fadd fmul]. f_equal.
    assert (Hcj : c j <> 0%Qc)
      by (apply (price_nonzero df); [assumption|lia]).
    field. now split.
Qed.

Lemma trade_equity (t : Trade) :
  trade_record (col Close df) (col Close df) t ->
  first_exit_after signals (trade_bars t) ->
  trade_matches_equity df cap equity t.
Proof.
  intros Hrec Hf. unfold trade_bars in Hf.
  pose proof Hf as (Hlt & _). cbn [fst snd] in Hlt.
  destruct (account_finite (entry_idx t)) as [a Ha]; [unfold n; lia|].
  pose proof (account_held _ _ a Hf Ha (exit_idx t)) as Hx.
  assert (Hce : c (entry_idx t) <> 0%Qc)
    by (apply (price_nonzero df); [assumption|lia]).
  destruct Hrec as (_ & _ & _ & _ & Hp & _). cbv zeta in Hp.
  unfold trade_matches_equity, close_at.
  revert Hp. rewrite col_as_prices, !iloc_prices by (rewrite length_map; lia).
  fold c. unfold fsub. cbn [fneg fadd].
  rewrite fdiv_Fin by assumption. unfold fz. cbn [fmul].
  intro Hp. exists a. eexists.
  split; [exact Ha|]. split; [reflexivity|]. split.
  - destruct (exit_idx t) as [|x] eqn:Ex; [lia|].
    cbn [account_at] in Hx. rewrite Hx by lia. f_equal.
    assert (H100 : qz 100 <> 0%Qc)
      by (apply Qc_pos_neq0; apply (qz_lt 0); lia).
    field. now split.
  - rewrite Hp. apply within_a_cent_round2.
Qed.
End Execution.

Lemma trades_match_equity (sqrt_ : Qc -> Qc) (df : DataFrame) (cap : Qc)
    (signals : list Z) (r : Result) :
  List.length signals = List.length df ->
  simple_backtest sqrt_ df cap signals None None = Some r ->
  Forall (fun b => Close b <> 0%Qc) df ->
  Forall (fun z => z = 1 \/ z = 0 \/ z = -1)%Z signals ->
  Forall (trade_matches_equity df cap (equity_curve r)) (trades_detail r).
Proof.
  intros HL Hr Hc Hs.
  destruct (simple_backtest_fields sqrt_ df cap signals r Hr)
    as (He & _ & Ht & _).
  rewrite He, Ht.
  destruct (calculate_trades_log df signals (col Close df) (col Close df))
    as (Hrec & _).
  pose proof (round_trips_first_exit signals) as Hf.
  rewrite <- (calculate_trades_round_trips df signals (col Close df)
                (col Close df)) in Hf.
  rewrite Forall_map in Hf.
  rewrite Forall_forall in Hrec, Hf. apply Forall_forall. intros t Hin.
  apply (trade_equity df cap signals Hc HL Hs t);
    [now apply Hrec | now apply Hf].
Qed.

End ExecutionFacts.

(* ================================================================== *)
(** ** The claims *)
(* ================================================================== *)

Module Claims.
Import Float Pandas AnalysisEngine BacktestEngine Spec Examples.
Import FloatFacts PandasFacts CrossoverFacts MovingAverageFacts RsiFacts.
Import TradeFacts LevelFacts ExtremeFacts BacktestFacts LagFacts FlatFacts.
Import ExecutionFacts.

(** C2.  On every non-empty history the first entry of the returned
    equity curve, and of the returned strategy returns, is NaN: it is not
    the initial capital, and the result holds a not-a-number. *)
Theorem equity_curve_starts_undefined :
  forall (sqrt_ : Qc -> Qc) (df : DataFrame) (cap : Qc) (signals : list Z),
    df <> [] -> List.length signals = List.length df ->
    exists r,
      simple_backtest sqrt_ df cap signals None None = Some r /\
      iloc (equity_curve r) 0 = NaN /\
      iloc (returns r) 0 = NaN /\
      iloc (equity_curve r) 0 <> Fin cap.
Proof.
  intros sqrt_ df cap signals Hne HL.
  destruct (simple_backtest_total sqrt_ df cap signals Hne HL) as [r Hr].
  exists r. split; [assumption|].
  destruct (simple_backtest_fields sqrt_ df cap signals r Hr)
    as (He & Hs & _ & _).
  rewrite He, Hs, equity_head, strategy_returns_head.
  split; [reflexivity|]. split; [reflexivity | discriminate].
Qed.

Lemma equity_curve_starts_undefined_two_bars :
  exists r,
    simple_backtest ident (history [100; 110]%Z) (qz 10000) [0; 0]%Z None None
      = Some r /\
    iloc (equity_curve r) 0 = NaN /\
    iloc (returns r) 0 = NaN /\
    iloc (equity_curve r) 0 <> Fin (qz 10000).
Proof.
  apply (equity_curve_starts_undefined ident (history [100; 110]%Z)
           (qz 10000) [0; 0]%Z).
  - discriminate.
  - reflexivity.
Defined.

(** C1.  On the two-bar history 100, 110 with an entry signal at the
    first bar, the equity curve is [NaN; 11000]: the second entry is the
    initial capital times (1 + strategy return), and is not the first
    entry times (1 + strategy return). *)
Theorem equity_second_bar_not_from_first :
  forall sqrt_ : Qc -> Qc,
    exists r,
      simple_backtest sqrt_ (history [100; 110]%Z) (qz 10000) [1; 0]%Z
        None None = Some r /\
      equity_curve r = [NaN; fz 11000] /\
      returns r = [NaN; Fin (qfrac 1 10)] /\
      iloc (equity_curve r) 1 =
        fmul (fz 10000) (fadd (Fin 1) (iloc (returns r) 1)) /\
      iloc (equity_curve r) 1 <>
        fmul (iloc (equity_curve r) 0) (fadd (Fin 1) (iloc (returns r) 1)).
Proof.
  intro sqrt_.
  destruct (simple_backtest_total sqrt_ (history [100; 110]%Z) (qz 10000)
              [1; 0]%Z) as [r Hr]; [discriminate | reflexivity |].
  exists r. split; [assumption|].
  destruct (simple_backtest_fields _ _ _ _ _ Hr) as (He & Hs & _ & _).
  assert (E : equity_curve r = [NaN; fz 11000]) by (rewrite He; series_eval).
  assert (S : returns r = [NaN; Fin (qfrac 1 10)]) by (rewrite Hs; series_eval).
  rewrite E, S. split; [reflexivity|]. split; [reflexivity|].
  split; [value_eval | discriminate].
Qed.

(** C3.  On the history 100, 110, 121 a sell signal at the first bar,
    received while flat, makes the position series -1 throughout and the
    equity curve [NaN; 9000; 8100], where the all-none stream gives
    [NaN; 10000; 10000]; the trade log is empty in both runs.  After a
    round trip (entry at bar 0, exit at bar 1) the position series is
    [1; -1; -1] and the equity falls from 11000 to 9900 at bar 2 while
    the price rises: the exit leaves a short exposure, not a flat one. *)
Theorem sell_while_flat_is_short_exposure :
  forall sqrt_ : Qc -> Qc,
    exists r_sell r_none r_trip,
      simple_backtest sqrt_ (history [100; 110; 121]%Z) (qz 10000)
        [-1; 0; 0]%Z None None = Some r_sell /\
      simple_backtest sqrt_ (history [100; 110; 121]%Z) (qz 10000)
        [0; 0; 0]%Z None None = Some r_none /\
      simple_backtest sqrt_ (history [100; 110; 121]%Z) (qz 10000)
        [1; -1; 0]%Z None None = Some r_trip /\
      positions_of [-1; 0; 0]%Z = [fz (-1); fz (-1); fz (-1)] /\
      equity_curve r_sell = [NaN; fz 9000; fz 8100] /\
      equity_curve r_none = [NaN; fz 10000; fz 10000] /\
      trades_detail r_sell = [] /\ trades_detail r_none = [] /\
      positions_of [1; -1; 0]%Z = [fz 1; fz (-1); fz (-1)] /\
      equity_curve r_trip = [NaN; fz 11000; fz 9900].
Proof.
  intro sqrt_.
  destruct (simple_backtest_total sqrt_ (history [100; 110; 121]%Z)
              (qz 10000) [-1; 0; 0]%Z) as [r1 H1];
    [discriminate | reflexivity |].
  destruct (simple_backtest_total sqrt_ (history [100; 110; 121]%Z)
              (qz 10000) [0; 0; 0]%Z) as [r2 H2];
    [discriminate | reflexivity |].
  destruct (simple_backtest_total sqrt_ (history [100; 110; 121]%Z)
              (qz 10000) [1; -1; 0]%Z) as [r3 H3];
    [discriminate | reflexivity |].
  exists r1, r2, r3.
  destruct (simple_backtest_fields _ _ _ _ _ H1) as (He1 & _ & Ht1 & _).
  destruct (simple_backtest_fields _ _ _ _ _ H2) as (He2 & _ & Ht2 & _).
  destruct (simple_backtest_fields _ _ _ _ _ H3) as (He3 & _ & _ & _).
  rewrite He1, He2, He3, Ht1, Ht2.
  split; [assumption|]. split; [assumption|]. split; [assumption|].
  split; [series_eval|]. split; [series_eval|]. split; [series_eval|].
  split; [vm_compute; reflexivity|]. split; [vm_compute; reflexivity|].
  split; series_eval.
Qed.

(** C4.  When both trades lose (-10% and -5%), the reported largest win
    is -5, the least negative loss, with no winning trade; when both win
    (+10% and +5%), the reported largest loss is 5, the smallest win,
    with no losing trade. *)
Theorem largest_win_ranges_over_all_trades :
  forall sqrt_ : Qc -> Qc,
    exists r_loss r_win,
      simple_backtest sqrt_ (history [100; 90; 100; 95]%Z) (qz 10000)
        [1; -1; 1; -1]%Z None None = Some r_loss /\
      map pnl_pct (trades_detail r_loss) = [fz (-10); fz (-5)] /\
      winning_trades r_loss = 0%nat /\
      avg_win_pct r_loss = fz 0 /\
      largest_win_pct r_loss = fz (-5) /\
      simple_backtest sqrt_ (history [100; 110; 100; 105]%Z) (qz 10000)
        [1; -1; 1; -1]%Z None None = Some r_win /\
      map pnl_pct (trades_detail r_win) = [fz 10; fz 5] /\
      losing_trades r_win = 0%nat /\
      avg_loss_pct r_win = fz 0 /\
      largest_loss_pct r_win = fz 5.
Proof.
  intro sqrt_.
  destruct (simple_backtest_total sqrt_ (history [100; 90; 100; 95]%Z)
              (qz 10000) [1; -1; 1; -1]%Z) as [r1 H1];
    [discriminate | reflexivity |].
  destruct (simple_backtest_total sqrt_ (history [100; 110; 100; 105]%Z)
              (qz 10000) [1; -1; 1; -1]%Z) as [r2 H2];
    [discriminate | reflexivity |].
  exists r1, r2.
  destruct (simple_backtest_fields _ _ _ _ _ H1) as (_ & _ & Ht1 & _).
  destruct (simple_backtest_fields _ _ _ _ _ H2) as (_ & _ & Ht2 & _).
  destruct (simple_backtest_summary _ _ _ _ _ H1)
    as (_ & _ & _ & _ & _ & Ha1 & _ & Hc1 & _ & Hw1 & _).
  destruct (simple_backtest_summary _ _ _ _ _ H2)
    as (_ & _ & _ & _ & _ & _ & Hb2 & _ & Hd2 & _ & Hl2).
  rewrite Ht1, Ht2, Hw1, Hl2, Ha1, Hc1, Hb2, Hd2.
  split; [assumption|]. split; [series_eval|].
  split; [vm_compute; reflexivity|]. split; [value_eval|].
  split; [value_eval|]. split; [assumption|]. split; [series_eval|].
  split; [vm_compute; reflexivity|]. split; value_eval.
Qed.

(** C9.  With no entry or exit signal, a two-bar history gives zero
    trades, win rate 0 and total return 0 but a NaN Sharpe ratio, and a
    one-bar history gives a NaN Sharpe ratio and a NaN total return. *)
Theorem flat_signals_on_short_history :
  forall sqrt_ : Qc -> Qc,
    exists r2 r1,
      simple_backtest sqrt_ (history [100; 101]%Z) (qz 10000) [0; 0]%Z
        None None = Some r2 /\
      trades r2 = 0%nat /\ win_rate_pct r2 = fz 0 /\
      total_return_pct r2 = fz 0 /\ sharpe r2 = NaN /\
      simple_backtest sqrt_ (history [100]%Z) (qz 10000) [0]%Z
        None None = Some r1 /\
      trades r1 = 0%nat /\ win_rate_pct r1 = fz 0 /\
      total_return_pct r1 = NaN /\ sharpe r1 = NaN.
Proof.
  intro sqrt_.
  destruct (simple_backtest_total sqrt_ (history [100; 101]%Z)
              (qz 10000) [0; 0]%Z) as [r2 H2];
    [discriminate | reflexivity |].
  destruct (simple_backtest_total sqrt_ (history [100]%Z)
              (qz 10000) [0]%Z) as [r1 H1];
    [discriminate | reflexivity |].
  exists r2, r1.
  destruct (simple_backtest_fields _ _ _ _ _ H1) as (_ & _ & _ & Hf1).
  destruct (simple_backtest_fields _ _ _ _ _ H2) as (_ & _ & _ & Hf2).
  destruct (simple_backtest_summary _ _ _ _ _ H1)
    as (Hn1 & Hw1 & Hs1 & _ & Hr1 & _).
  destruct (simple_backtest_summary _ _ _ _ _ H2)
    as (Hn2 & Hw2 & Hs2 & _ & Hr2 & _).
  assert (F1 : final_equity r1 = NaN).
  { vm_compute in Hf1. now inversion Hf1. }
  assert (F2 : final_equity r2 = fz 10000).
  { symmetry. apply fsame_eq.
    assert (E : option_map (fsame (fz 10000)) (Some (final_equity r2))
                = Some true).
    { rewrite <- Hf2. vm_compute. reflexivity. }
    now inversion E. }
  rewrite Hn1, Hn2, Hw1, Hw2, Hs1, Hs2, Hr1, Hr2, F1, F2.
  split; [assumption|]. split; [reflexivity|]. split; [value_eval|].
  split; [value_eval|]. split; [value_eval|]. split; [assumption|].
  split; [reflexivity|]. split; [value_eval|]. split; value_eval.
Qed.

(** C5, as claimed.  With [window = 1] and [min_touches = 2] on the highs
    and lows 10, 5, 10, 5, 10 the code returns resistance [10; 5] and
    support [5; 10]; a centred window of 2 * 1 + 1 = 3 bars would flag
    only the middle bar as resistance, and only bars 1 and 3 as support. *)
Lemma rolling_window_is_not_2w_plus_1 :
  resistance (find_support_resistance 1 2 (history [10; 5; 10; 5; 10]%Z))
    = [qz 10; qz 5] /\
  support (find_support_resistance 1 2 (history [10; 5; 10; 5; 10]%Z))
    = [qz 5; qz 10] /\
  resistance (find_support_resistance_2w1 1 2 (history [10; 5; 10; 5; 10]%Z))
    = [qz 10] /\
  support (find_support_resistance_2w1 1 2 (history [10; 5; 10; 5; 10]%Z))
    = [qz 5].
Proof.
  assert (E : forall a b : list Qc,
             series_same (map Fin a) (map Fin b) = true -> a = b).
  { intros a b H. apply series_same_eq in H.
    revert b H. induction a as [|x a IH]; intros [|y b] H;
      try discriminate; [reflexivity|].
    cbn [map] in H. inversion H; subst. f_equal. now apply IH. }
  repeat (split; [apply E; vm_compute; reflexivity|]).
  apply E; vm_compute; reflexivity.
Qed.

(** C5, as amended.  For a positive [window], the resistance list holds,
    largest first and without repeats, the at most five largest values
    that are the high of an interior bar, equal the maximum of the highs
    over the [window] bars centred on it (from [window_lo] to
    [window_hi]), and have at least [min_touches] highs within 2% of
    them, from the double [level * 0.98] to the double [level * 1.02];
    the support list likewise holds the at most five smallest such
    lows, smallest first. *)
Theorem support_resistance_levels :
  forall (window min_touches : nat) (df : DataFrame),
    (1 <= window)%nat ->
    first_five (fun x y => (y < x)%Qc)
      (resistance_level window min_touches df)
      (resistance (find_support_resistance window min_touches df)) /\
    first_five Qclt
      (support_level window min_touches df)
      (support (find_support_resistance window min_touches df)).
Proof.
  intros w m df Hw. unfold find_support_resistance. cbn [resistance support].
  split.
  - destruct (set_list_sorted_strict
                (scan_levels w m High (rolling_center_max w (col High df)) df))
      as [Hs Hin].
    apply first_five_of_sorted.
    + apply (StronglySorted_rev Qclt). exact Hs.
    + intro l. rewrite <- in_rev, Hin. now apply resistance_scan.
  - destruct (set_list_sorted_strict
                (scan_levels w m Low (rolling_center_min w (col Low df)) df))
      as [Hs Hin].
    apply first_five_of_sorted; [exact Hs|].
    intro l. rewrite Hin. now apply support_scan.
Qed.

Lemma support_resistance_levels_five_bars :
  first_five (fun x y => (y < x)%Qc)
    (resistance_level 1 2 (history [10; 5; 10; 5; 10]%Z))
    (resistance (find_support_resistance 1 2 (history [10; 5; 10; 5; 10]%Z)))
  /\
  first_five Qclt
    (support_level 1 2 (history [10; 5; 10; 5; 10]%Z))
    (support (find_support_resistance 1 2 (history [10; 5; 10; 5; 10]%Z))).
Proof.
  apply (support_resistance_levels 1 2 (history [10; 5; 10; 5; 10]%Z)).
  lia.
Defined.

(** C6, as claimed.  When the [ta] package is importable, [rsi] returns
    that package's Wilder-smoothed value: on the closes 10, 12, 11, 13, 12
    with period 2 the last bar reads 50, where the simple rolling means
    give 200/3. *)
Lemma rsi_with_ta_is_not_simple_mean :
  iloc (rsi true RSIIndicator_wilder 2 (history [10; 12; 11; 13; 12]%Z)) 4
    = fz 50 /\
  rsi_simple 2 (map Close (history [10; 12; 11; 13; 12]%Z)) 4
    = Fin (qfrac 200 3) /\
  iloc (rsi true RSIIndicator_wilder 2 (history [10; 12; 11; 13; 12]%Z)) 4
    <> rsi_simple 2 (map Close (history [10; 12; 11; 13; 12]%Z)) 4.
Proof.
  assert (A : iloc (rsi true RSIIndicator_wilder 2
                      (history [10; 12; 11; 13; 12]%Z)) 4 = fz 50)
    by value_eval.
  assert (B : rsi_simple 2 (map Close (history [10; 12; 11; 13; 12]%Z)) 4
              = Fin (qfrac 200 3)) by value_eval.
  split; [exact A|]. split; [exact B|].
  rewrite A, B. intro H. inversion H.
Qed.

(** C6, as amended.  For a positive period, when the [ta] package is not
    importable the RSI series is aligned with the history and its value
    at each bar is 100 - 100 / (1 + ratio), with ratio the simple mean of
    the positive close-to-close changes over the last [period] bars
    divided by the simple mean of the magnitudes of the negative ones
    (undefined on the first [period - 1] bars); when the package is
    importable the series is the one that package returns. *)
Theorem rsi_is_simple_mean_without_ta :
  forall (R : Series -> nat -> Series) (period : nat) (df : DataFrame),
    (1 <= period)%nat ->
    List.length (rsi false R period df) = List.length df /\
    (forall i, (i < List.length df)%nat ->
       iloc (rsi false R period df) i = rsi_simple period (map Close df) i) /\
    rsi true R period df = R (col Close df) period.
Proof.
  intros R period df Hp. split; [|split].
  - unfold rsi, rolling_mean, where_, col.
    rewrite length_map, map2_length, !rolling_apply_length, !length_map,
      diff_length, length_map. lia.
  - intros i Hi. now apply rsi_manual_at.
  - reflexivity.
Qed.

Lemma rsi_is_simple_mean_without_ta_five_bars :
  List.length (rsi false RSIIndicator_wilder 2
                 (history [10; 12; 11; 13; 12]%Z)) = 5%nat /\
  (forall i, (i < 5)%nat ->
     iloc (rsi false RSIIndicator_wilder 2 (history [10; 12; 11; 13; 12]%Z)) i
     = rsi_simple 2 (map Close (history [10; 12; 11; 13; 12]%Z)) i) /\
  rsi true RSIIndicator_wilder 2 (history [10; 12; 11; 13; 12]%Z)
    = RSIIndicator_wilder (col Close (history [10; 12; 11; 13; 12]%Z)) 2.
Proof.
  apply (rsi_is_simple_mean_without_ta RSIIndicator_wilder 2
           (history [10; 12; 11; 13; 12]%Z)).
  lia.
Defined.

(** C7, as claimed.  With fast period 1 and slow period 2 on the closes
    10, 9, 10, 10, 11 the two averages are equal at bar 3: a long-entry
    is emitted at bar 2 and again at bar 4, with no long-exit between. *)
Lemma crossover_entry_repeats_after_touch :
  sma_crossover_signals (history [10; 9; 10; 10; 11]%Z) 1 2
    = [0; 0; 1; 0; 1]%Z.
Proof. vm_compute. reflexivity. Qed.

(** C7, as amended.  In both crossover strategies a long-entry is emitted
    at bar i exactly when A[i] > B[i] and A[i-1] <= B[i-1], a long-exit
    exactly when A[i] < B[i] and A[i-1] >= B[i-1], and no signal
    otherwise; between two long-entries there is a bar with A <= B
    (between two long-exits, a bar with A >= B), and when A and B are
    never equal between them the opposite signal occurs in between. *)
Theorem crossover_signals_follow_transitions :
  forall (df : DataFrame) (fast slow signal : nat),
    (crossover_exact (sma fast Close df) (sma slow Close df)
       (sma_crossover_signals df fast slow) /\
     crossover_alternates (sma fast Close df) (sma slow Close df)
       (sma_crossover_signals df fast slow)) /\
    match macd fast slow signal df,
          macd_crossover_signals df fast slow signal with
    | Some m, Some s =>
        crossover_exact (macd_line m) (signal_line m) s /\
        crossover_alternates (macd_line m) (signal_line m) s
    | None, None => True
    | _, _ => False
    end.
Proof.
  intros df fast slow signal. split.
  - rewrite sma_crossover_is_crossover.
    assert (H : crossover_exact (sma fast Close df) (sma slow Close df)
                  (crossover (sma fast Close df) (sma slow Close df)
                     (List.length df)))
      by (apply crossover_is_exact; apply sma_length).
    split; [exact H | now apply exact_alternates].
  - rewrite macd_crossover_is_crossover.
    destruct (macd fast slow signal df) as [m|] eqn:E; [|exact I].
    destruct (macd_lengths fast slow signal df m E) as [L1 L2].
    assert (H : crossover_exact (macd_line m) (signal_line m)
                  (crossover (macd_line m) (signal_line m) (List.length df)))
      by (now apply crossover_is_exact).
    split; [exact H | now apply exact_alternates].
Qed.

(** C8, as claimed.  The exponential average with period 3 of the two
    closes 10, 11 is [10; 21/2]: no entry is undefined, although the
    period exceeds the length of the history. *)
Lemma ema_has_no_undefined_prefix :
  ema 3 Close (history [10; 11]%Z) = Some [fz 10; Fin (qfrac 21 2)].
Proof.
  assert (E : forall a b : option Series,
             match a, b with
             | Some x, Some y => series_same x y
             | None, None => true
             | _, _ => false
             end = true -> a = b).
  { intros [x|] [y|] H; try discriminate; [|reflexivity].
    f_equal. now apply series_same_eq. }
  apply E. vm_compute. reflexivity.
Qed.

(** C8, as amended.  For a positive period, the simple and the weighted
    moving average have the length of the history, are undefined on the
    first [period - 1] bars, and are undefined everywhere when the period
    exceeds the length of the history; the exponential moving average has
    the length of the history and is defined (finite) at every bar. *)
Theorem moving_average_alignment :
  forall (period : nat) (column : Bar -> Qc) (df : DataFrame),
    (1 <= period)%nat ->
    (List.length (sma period column df) = List.length df /\
     (forall i, (i < period - 1)%nat -> iloc (sma period column df) i = NaN) /\
     ((List.length df < period)%nat ->
      forall i, iloc (sma period column df) i = NaN)) /\
    (List.length (wma period column df) = List.length df /\
     (forall i, (i < period - 1)%nat -> iloc (wma period column df) i = NaN) /\
     ((List.length df < period)%nat ->
      forall i, iloc (wma period column df) i = NaN)) /\
    (exists e, ema period column df = Some e /\
       List.length e = List.length df /\
       forall i, (i < List.length df)%nat -> isfinite (iloc e i) = true).
Proof.
  intros period column df Hp. split; [|split].
  - unfold sma, rolling_mean. split; [|split].
    + unfold col. now rewrite rolling_apply_length, length_map.
    + intros i Hi. now apply rolling_apply_prefix.
    + intros Hl i. apply rolling_apply_short.
      unfold col. now rewrite length_map.
  - unfold wma. split; [|split].
    + unfold col. now rewrite rolling_apply_length, length_map.
    + intros i Hi. now apply rolling_apply_prefix.
    + intros Hl i. apply rolling_apply_short.
      unfold col. now rewrite length_map.
  - unfold ema. rewrite col_as_prices.
    destruct (ewm_mean_finite period (map column df) Hp) as (e & He & Hl & Hf).
    rewrite length_map in Hl, Hf. exists e. now repeat split.
Qed.

Lemma moving_average_alignment_two_bars :
  (List.length (sma 3 Close (history [10; 11]%Z)) = 2%nat /\
   (forall i, (i < 3 - 1)%nat ->
      iloc (sma 3 Close (history [10; 11]%Z)) i = NaN) /\
   ((2 < 3)%nat -> forall i, iloc (sma 3 Close (history [10; 11]%Z)) i = NaN))
  /\
  (List.length (wma 3 Close (history [10; 11]%Z)) = 2%nat /\
   (forall i, (i < 3 - 1)%nat ->
      iloc (wma 3 Close (history [10; 11]%Z)) i = NaN) /\
   ((2 < 3)%nat -> forall i, iloc (wma 3 Close (history [10; 11]%Z)) i = NaN))
  /\
  (exists e, ema 3 Close (history [10; 11]%Z) = Some e /\
     List.length e = 2%nat /\
     forall i, (i < 2)%nat -> isfinite (iloc e i) = true).
Proof.
  apply (moving_average_alignment 3 Close (history [10; 11]%Z)).
  lia.
Defined.

(** C10, as claimed.  On the closes 100, 110, 132, 165 with an entry
    signal at bar 1 and an exit signal at bar 3 the close moves on every
    bar and the equity curve lags the signal by one bar (at bar 1 it
    still stands at the initial capital), yet the trade's pnl percent
    and the change of the equity curve between the entry and the exit
    bar are the same 50 percent: the lag does not make them differ. *)
Lemma trade_pnl_equals_equity_change :
  exists r t,
    simple_backtest ident (history [100; 110; 132; 165]%Z) (qz 10000)
      [0; 1; 0; -1]%Z None None = Some r /\
    trades_detail r = [t] /\
    entry_idx t = 1%nat /\ exit_idx t = 3%nat /\
    iloc (equity_curve r) 1 = Fin (qz 10000) /\
    iloc (equity_curve r) 3 = Fin (qz 15000) /\
    equity_change_pct (equity_curve r) 1 3 = Fin (qz 50) /\
    pnl_pct t = Fin (qz 50).
Proof.
  destruct (simple_backtest_total ident (history [100; 110; 132; 165]%Z)
              (qz 10000) [0; 1; 0; -1]%Z) as [r Hr];
    [discriminate | reflexivity |].
  destruct (simple_backtest_fields _ _ _ _ _ Hr) as (He & _ & Ht & _).
  destruct (_calculate_trades (history [100; 110; 132; 165]%Z)
              (positions_of [0; 1; 0; -1]%Z)
              (col Close (history [100; 110; 132; 165]%Z))
              (col Close (history [100; 110; 132; 165]%Z)))
    as [|t [|t' ts]] eqn:E; try (vm_compute in E; discriminate).
  exists r, t.
  assert (Hi : entry_idx t = 1%nat /\ exit_idx t = 3%nat /\
               fsame (pnl_pct t) (Fin (qz 50)) = true).
  { assert (E' : map (fun t => (entry_idx t, exit_idx t,
                                fsame (pnl_pct t) (Fin (qz 50)))) [t]
                 = [(1%nat, 3%nat, true)]).
    { rewrite <- E. vm_compute. reflexivity. }
    injection E' as E1 E2 E3. exact (conj E1 (conj E2 E3)). }
  destruct Hi as (Hi1 & Hi2 & Hp). apply fsame_eq in Hp.
  split; [assumption|]. split; [assumption|]. split; [assumption|].
  split; [assumption|]. rewrite He.
  split; [value_eval|]. split; [value_eval|]. split; [value_eval|].
  exact Hp.
Qed.

(** C10, as amended.  Every trade of the log enters on a bar that carries
    a long-entry signal and exits on a later bar that carries a
    long-exit signal, and reports the closes of those very bars as its
    entry and exit price, each within a cent.  The one-bar lag of the
    equity curve is the same execution: on non-zero closes and signals
    that are 1, 0 or -1, the account changes from the entry bar of a
    trade to its exit bar by exactly the percentage between the two
    closes, and this is the percentage the trade reports, within a
    cent. *)
Theorem trade_log_uses_signal_bar_close :
  forall (sqrt_ : Qc -> Qc) (df : DataFrame) (cap : Qc) (signals : list Z)
         (r : Result),
    List.length signals = List.length df ->
    simple_backtest sqrt_ df cap signals None None = Some r ->
    Forall (trade_on_signal_bars df signals) (trades_detail r) /\
    (Forall (fun b => Close b <> 0%Qc) df ->
     Forall (fun z => z = 1 \/ z = 0 \/ z = -1)%Z signals ->
     Forall (trade_matches_equity df cap (equity_curve r))
            (trades_detail r)).
Proof.
  intros sqrt_ df cap signals r HL Hr. split.
  - exact (trades_on_signal_bars sqrt_ df cap signals r HL Hr).
  - intros Hc Hs.
    exact (trades_match_equity sqrt_ df cap signals r HL Hr Hc Hs).
Qed.

Lemma trade_log_uses_signal_bar_close_three_bars :
  exists r,
    simple_backtest ident (history [100; 300; 301]%Z) (qz 10000)
      [0; 1; -1]%Z None None = Some r /\
    Forall (trade_on_signal_bars (history [100; 300; 301]%Z) [0; 1; -1]%Z)
      (trades_detail r) /\
    Forall (trade_matches_equity (history [100; 300; 301]%Z) (qz 10000)
              (equity_curve r))
      (trades_detail r).
Proof.
  destruct (simple_backtest_total ident (history [100; 300; 301]%Z)
              (qz 10000) [0; 1; -1]%Z) as [r Hr];
    [discriminate | reflexivity |].
  exists r. split; [exact Hr|].
  destruct (trade_log_uses_signal_bar_close ident
              (history [100; 300; 301]%Z) (qz 10000) [0; 1; -1]%Z r
              eq_refl Hr) as [H1 H2].
  split; [exact H1|]. apply H2.
  - repeat constructor; apply Qc_eqb_neq; reflexivity.
  - repeat (constructor; [lia|]). constructor.
Defined.

(** *** Further properties of the simulator *)

(** X1.  One bar of lag: the strategy return of bar i+1 is the position
    held at bar i times the percent change of the close from bar i to bar
    i+1; the position at a bar is that bar's signal when it has one and
    the position of the previous bar otherwise (0 before the first
    signal); the returns up to bar i do not depend on the signals from bar
    i on; and a signal at bar 0 does change the return of bar 1. *)
Theorem strategy_return_one_bar_lag :
  forall (sqrt_ : Qc -> Qc) (df : DataFrame) (cap : Qc) (signals : list Z)
         (r : Result),
    List.length signals = List.length df ->
    simple_backtest sqrt_ df cap signals None None = Some r ->
    (forall i, (S i < List.length df)%nat ->
       iloc (returns r) (S i) =
       fmul (iloc (positions_of signals) i)
            (fsub (fdiv (close_at df (S i)) (close_at df i)) (Fin 1))) /\
    (forall i, (i < List.length df)%nat ->
       iloc (positions_of signals) i =
       if (nth i signals 0 =? 0)%Z then
         match i with
         | O => Fin 0
         | S j => iloc (positions_of signals) j
         end
       else fz (nth i signals 0%Z)) /\
    (forall (signals' : list Z) (r' : Result) (i : nat),
       List.length signals' = List.length df ->
       simple_backtest sqrt_ df cap signals' None None = Some r' ->
       (forall j, (j < i)%nat -> nth j signals' 0%Z = nth j signals 0%Z) ->
       forall k, (k <= i)%nat -> iloc (returns r') k = iloc (returns r) k) /\
    iloc (strategy_returns_of [1; 0]%Z (col Close (history [100; 110]%Z))) 1
    <> iloc (strategy_returns_of [0; 0]%Z (col Close (history [100; 110]%Z))) 1.
Proof.
  intros sqrt_ df cap signals r HL Hr.
  destruct (simple_backtest_fields _ _ _ _ _ Hr) as (_ & Hs & _ & _).
  rewrite Hs. split; [|split; [|split]].
  - intros i Hi. apply iloc_strategy_returns_S;
      unfold col; rewrite length_map; assumption.
  - intros i Hi. apply positions_step. lia.
  - intros signals' r' i HL' Hr' Hag k Hk.
    destruct (simple_backtest_fields _ _ _ _ _ Hr') as (_ & Hs' & _ & _).
    rewrite Hs'. apply (returns_agree signals signals' _ i k);
      try assumption; unfold col; rewrite length_map; assumption.
  - assert (A : iloc (strategy_returns_of [1; 0]%Z
                        (col Close (history [100; 110]%Z))) 1
                = Fin (qfrac 1 10)) by value_eval.
    assert (B : iloc (strategy_returns_of [0; 0]%Z
                        (col Close (history [100; 110]%Z))) 1
                = Fin 0) by value_eval.
    rewrite A, B. intro H. inversion H.
Qed.

Lemma strategy_return_one_bar_lag_two_bars :
  exists r,
    simple_backtest ident (history [100; 110]%Z) (qz 10000) [1; 0]%Z
      None None = Some r /\
    iloc (returns r) 1 =
    fmul (iloc (positions_of [1; 0]%Z) 0)
         (fsub (fdiv (close_at (history [100; 110]%Z) 1)
                     (close_at (history [100; 110]%Z) 0)) (Fin 1)).
Proof.
  destruct (simple_backtest_total ident (history [100; 110]%Z) (qz 10000)
              [1; 0]%Z) as [r Hr]; [discriminate | reflexivity |].
  exists r. split; [exact Hr|].
  apply (proj1 (strategy_return_one_bar_lag ident (history [100; 110]%Z)
                  (qz 10000) [1; 0]%Z r eq_refl Hr)).
  simpl. lia.
Defined.

(** X2.  Compounding from the initial capital: on a history whose closes
    are not zero, the equity at bar 1 is the initial capital times
    (1 + strategy return of bar 1), the equity at every later bar is the
    equity of the bar before times (1 + strategy return of the bar), and
    every equity entry after the first is finite. *)
Theorem equity_compounds_from_initial_capital :
  forall (sqrt_ : Qc -> Qc) (df : DataFrame) (cap : Qc) (signals : list Z)
         (r : Result),
    Forall (fun b => Close b <> 0%Qc) df ->
    List.length signals = List.length df ->
    simple_backtest sqrt_ df cap signals None None = Some r ->
    ((1 < List.length df)%nat ->
     iloc (equity_curve r) 1 =
     fmul (Fin cap) (fadd (Fin 1) (iloc (returns r) 1))) /\
    (forall i, (S (S i) < List.length df)%nat ->
       iloc (equity_curve r) (S (S i)) =
       fmul (iloc (equity_curve r) (S i))
            (fadd (Fin 1) (iloc (returns r) (S (S i))))) /\
    (forall i, (S i < List.length df)%nat ->
       isfinite (iloc (equity_curve r) (S i)) = true).
Proof.
  intros sqrt_ df cap signals r Hc HL Hr.
  destruct (simple_backtest_fields _ _ _ _ _ Hr) as (He & Hs & _ & _).
  rewrite He, Hs. split; [|split].
  - now apply equity_seed.
  - intros i Hi. now apply equity_step.
  - intros i Hi. now apply equity_finite.
Qed.

Lemma equity_compounds_three_bars :
  exists r,
    simple_backtest ident (history [100; 110; 121]%Z) (qz 10000) [1; 0; 0]%Z
      None None = Some r /\
    iloc (equity_curve r) 2 =
    fmul (iloc (equity_curve r) 1) (fadd (Fin 1) (iloc (returns r) 2)).
Proof.
  destruct (simple_backtest_total ident (history [100; 110; 121]%Z)
              (qz 10000) [1; 0; 0]%Z) as [r Hr];
    [discriminate | reflexivity |].
  exists r. split; [exact Hr|].
  assert (Hc : Forall (fun b => Close b <> 0%Qc) (history [100; 110; 121]%Z)).
  { repeat constructor; apply Qc_eqb_neq; reflexivity. }
  apply (proj1 (proj2 (equity_compounds_from_initial_capital ident
                  (history [100; 110; 121]%Z) (qz 10000) [1; 0; 0]%Z r
                  Hc eq_refl Hr))).
  simpl. lia.
Defined.

(** X3.  A stream without any signal over at least three bars with
    non-zero closes and a non-zero initial capital reports no trade, a
    win rate of 0, a Sharpe ratio of 0 and a total return of 0 (for a
    square root that maps 0 to 0). *)
Theorem flat_signals_report_zeros :
  forall (sqrt_ : Qc -> Qc) (df : DataFrame) (cap : Qc) (signals : list Z),
    sqrt_ 0%Qc = 0%Qc -> cap <> 0%Qc ->
    Forall (fun b => Close b <> 0%Qc) df ->
    Forall (fun z => z = 0%Z) signals ->
    List.length signals = List.length df ->
    (3 <= List.length df)%nat ->
    exists r,
      simple_backtest sqrt_ df cap signals None None = Some r /\
      trades r = 0%nat /\ win_rate_pct r = Fin 0 /\
      sharpe r = Fin 0 /\ total_return_pct r = Fin 0.
Proof.
  intros sqrt_ df cap signals H0 Hcap Hc Hz HL Hn.
  destruct (simple_backtest_total sqrt_ df cap signals) as [r Hr];
    [destruct df; [simpl in Hn; lia | discriminate] | assumption |].
  exists r. split; [assumption|].
  destruct (simple_backtest_fields _ _ _ _ _ Hr) as (_ & _ & _ & Hf).
  destruct (simple_backtest_summary _ _ _ _ _ Hr)
    as (Ht & Hw & Hs & _ & Hp & _).
  rewrite Ht, Hw, Hs, Hp, (no_trades df signals HL Hz).
  rewrite (returns_flat df signals Hc HL Hz) by lia.
  rewrite sharpe_zeros by (assumption || lia).
  assert (Hlen : List.length (equity_of cap signals (col Close df))
                 = List.length df).
  { rewrite equity_length; unfold col; rewrite length_map; auto. }
  assert (Hfin : final_equity r = Fin cap).
  { rewrite (iloc_last_iloc _ _ Hf), Hlen.
    replace (List.length df - 1)%nat with (S (List.length df - 2)) by lia.
    apply (equity_flat df cap signals Hc HL Hz). lia. }
  rewrite Hfin. rewrite fdiv_Fin by assumption.
  split; [reflexivity|]. split; [reflexivity|]. split; [reflexivity|].
  unfold fz, fsub. cbn [fneg fadd fmul]. f_equal.
  unfold Qcdiv. rewrite Qcmult_inv_r by assumption. ring.
Qed.

Lemma flat_signals_report_zeros_three_bars :
  exists r,
    simple_backtest ident (history [100; 101; 102]%Z) (qz 10000) [0; 0; 0]%Z
      None None = Some r /\
    trades r = 0%nat /\ win_rate_pct r = Fin 0 /\
    sharpe r = Fin 0 /\ total_return_pct r = Fin 0.
Proof.
  apply (flat_signals_report_zeros ident (history [100; 101; 102]%Z)
           (qz 10000) [0; 0; 0]%Z).
  - reflexivity.
  - apply Qc_eqb_neq. reflexivity.
  - repeat constructor; apply Qc_eqb_neq; reflexivity.
  - repeat constructor.
  - reflexivity.
  - simpl. lia.
Defined.

End Claims.

(* ================================================================== *)
(** ** Further properties of the engines *)
(* ================================================================== *)

Module Properties.
Import Float Pandas AnalysisEngine BacktestEngine Spec Props Examples.
Import FloatFacts PandasFacts CrossoverFacts MovingAverageFacts RsiFacts.
Import TradeFacts BacktestFacts TradeLogFacts OrderFacts StrategyFacts.
Import FailureFacts RsiRangeFacts AverageFacts MacdFacts OscillatorFacts.
Import VolatilityFacts BandFacts PatternFacts SummaryFacts HoldFacts.
Import CrossingFacts AverageTradeFacts LagFacts FlatFacts SmoothingFacts.
Import ExecutionFacts.

(** *** backtest_engine.py *)

(** X4.  The entry and exit bars of the trade log of [simple_backtest]
    are those of a two-state machine run over the raw signals: flat
    until a signal 1, long until a signal -1.  A 1 while long, a -1
    while flat and any other value leave the log unchanged, and a
    position still open at the last bar gives no record.  This holds
    for any price series. *)
Theorem trade_log_follows_signal_state_machine :
  forall (sqrt_ : Qc -> Qc) (df : DataFrame) (cap : Qc) (signals : list Z)
         (ep xp : option Series) (r : Result),
    simple_backtest sqrt_ df cap signals ep xp = Some r ->
    map trade_bars (trades_detail r) = round_trips signals.
Proof.
  intros sqrt_ df cap signals ep xp r Hr.
  destruct (simple_backtest_trades _ _ _ _ _ _ _ Hr) as (Ht & _).
  rewrite Ht. apply calculate_trades_round_trips.
Qed.

Lemma trade_log_follows_signal_state_machine_five_bars :
  exists r,
    simple_backtest ident (history [100; 110; 121; 100; 90]%Z) (qz 10000)
      [1; 1; -1; -1; 1]%Z None None = Some r /\
    map trade_bars (trades_detail r) = [(0, 2)]%nat.
Proof.
  destruct (simple_backtest_total ident (history [100; 110; 121; 100; 90]%Z)
              (qz 10000) [1; 1; -1; -1; 1]%Z) as [r Hr];
    [discriminate | reflexivity |].
  exists r. split; [exact Hr|].
  exact (trade_log_follows_signal_state_machine ident
           (history [100; 110; 121; 100; 90]%Z) (qz 10000)
           [1; 1; -1; -1; 1]%Z None None r Hr).
Defined.

(** X5.  The records of the trade log are numbered 1, 2, ... in order,
    each trade is entered strictly before it is left and after the one
    before it was left, every exit bar lies within the signal series,
    and each record tells the duration [exit_idx - entry_idx], the two
    prices at its bars, the percentage and the amount between them,
    each figure within a cent (the code rounds it to two decimals), and
    the sign of the percentage as its win flag. *)
Theorem trade_log_records_in_sequence :
  forall (sqrt_ : Qc -> Qc) (df : DataFrame) (cap : Qc) (signals : list Z)
         (ep xp : option Series) (r : Result),
    simple_backtest sqrt_ df cap signals ep xp = Some r ->
    trades_in_sequence (trades_detail r) /\
    Forall (record_of_bars (price_or_close df ep) (price_or_close df xp))
           (trades_detail r) /\
    Forall (fun t => (exit_idx t < List.length signals)%nat)
           (trades_detail r).
Proof.
  intros sqrt_ df cap signals ep xp r Hr.
  destruct (simple_backtest_trades _ _ _ _ _ _ _ Hr) as (Ht & _).
  rewrite Ht.
  destruct (calculate_trades_log df signals (price_or_close df ep)
              (price_or_close df xp)) as (H1 & H2 & H3).
  split; [exact H2|]. split; [|exact H3].
  eapply Forall_impl; [|exact H1]. apply record_within_a_cent.
Qed.

Lemma trade_log_records_in_sequence_five_bars :
  exists r,
    simple_backtest ident (history [100; 110; 121; 100; 90]%Z) (qz 10000)
      [1; -1; 1; 0; -1]%Z None None = Some r /\
    trades_in_sequence (trades_detail r) /\
    Forall (record_of_bars
              (price_or_close (history [100; 110; 121; 100; 90]%Z) None)
              (price_or_close (history [100; 110; 121; 100; 90]%Z) None))
           (trades_detail r) /\
    Forall (fun t => (exit_idx t < 5)%nat) (trades_detail r).
Proof.
  destruct (simple_backtest_total ident (history [100; 110; 121; 100; 90]%Z)
              (qz 10000) [1; -1; 1; 0; -1]%Z) as [r Hr];
    [discriminate | reflexivity |].
  exists r. split; [exact Hr|].
  exact (trade_log_records_in_sequence ident
           (history [100; 110; 121; 100; 90]%Z) (qz 10000)
           [1; -1; 1; 0; -1]%Z None None r Hr).
Defined.

(** X6.  In the result of [simple_backtest] the winning and the losing
    trades add up to the number of trades, and the win rate is a finite
    percentage between 0 and 100 equal to the share of winning trades
    (0 when there is no trade). *)
Theorem wins_and_losses_partition_trades :
  forall (sqrt_ : Qc -> Qc) (df : DataFrame) (cap : Qc) (signals : list Z)
         (ep xp : option Series) (r : Result),
    simple_backtest sqrt_ df cap signals ep xp = Some r ->
    (winning_trades r + losing_trades r = trades r)%nat /\
    exists q,
      win_rate_pct r = Fin q /\
      (0 <= q <= qz 100)%Qc /\
      (q * qz (Z.of_nat (trades r)) =
       qz 100 * qz (Z.of_nat (winning_trades r)))%Qc /\
      (trades r = 0%nat -> q = 0%Qc).
Proof.
  intros sqrt_ df cap signals ep xp r Hr.
  destruct (simple_backtest_trades _ _ _ _ _ _ _ Hr)
    as (_ & Hn & Hw & Hl & Hrate).
  rewrite Hn, Hw, Hl, Hrate. generalize (trades_detail r). intro T.
  assert (Hsplit : (List.length (filter win T)
                    + List.length (filter (fun t => negb (win t)) T)
                    = List.length T)%nat).
  { induction T as [|t T IH]; [reflexivity|].
    cbn [filter]. destruct (win t); cbn [negb List.length]; lia. }
  split; [exact Hsplit|].
  unfold _calculate_win_rate.
  destruct T as [|t T].
  - exists 0%Qc. cbn. split; [reflexivity|].
    split; [split; [apply Qcle_refl | now apply Qc_leb_le]|].
    split; reflexivity.
  - set (L := t :: T) in *.
    assert (H1 : (1 <= List.length L)%nat) by (cbn; lia).
    replace (List.length L =? 0)%nat with false
      by (symmetry; apply Nat.eqb_neq; lia).
    unfold fz. rewrite fdiv_Fin by (apply qz_pos_neq0; lia).
    cbn [fmul]. eexists. split; [reflexivity|]. split; [|split].
    + apply share_pct_bounds; lia.
    + field. apply qz_pos_neq0. lia.
    + intro H0. lia.
Qed.

Lemma wins_and_losses_partition_trades_five_bars :
  exists r,
    simple_backtest ident (history [100; 110; 121; 100; 90]%Z) (qz 10000)
      [1; -1; 1; 0; -1]%Z None None = Some r /\
    (winning_trades r + losing_trades r = trades r)%nat.
Proof.
  destruct (simple_backtest_total ident (history [100; 110; 121; 100; 90]%Z)
              (qz 10000) [1; -1; 1; 0; -1]%Z) as [r Hr];
    [discriminate | reflexivity |].
  exists r. split; [exact Hr|].
  exact (proj1 (wins_and_losses_partition_trades ident
                  (history [100; 110; 121; 100; 90]%Z) (qz 10000)
                  [1; -1; 1; 0; -1]%Z None None r Hr)).
Defined.

(** X7.  On a history of positive closes, with the default prices, a
    trade of the log is flagged as a win exactly when the close of its
    exit bar is above the close of its entry bar. *)
Theorem win_flag_compares_exit_to_entry_close :
  forall (sqrt_ : Qc -> Qc) (df : DataFrame) (cap : Qc) (signals : list Z)
         (r : Result),
    Forall (fun b => (0 < Close b)%Qc) df ->
    List.length signals = List.length df ->
    simple_backtest sqrt_ df cap signals None None = Some r ->
    Forall (fun t =>
              win t = true <->
              (price_at (map Close df) (entry_idx t)
               < price_at (map Close df) (exit_idx t))%Qc)
           (trades_detail r).
Proof.
  intros sqrt_ df cap signals r Hpos HL Hr.
  destruct (simple_backtest_trades _ _ _ _ _ _ _ Hr) as (Ht & _).
  rewrite Ht. cbn [price_or_close].
  destruct (calculate_trades_log df signals (col Close df) (col Close df))
    as (Hrec & _ & Hin).
  rewrite Forall_forall in *. intros t Hin_t.
  specialize (Hrec t Hin_t). specialize (Hin t Hin_t). cbn beta in Hin.
  destruct Hrec as (Hlt & _ & _ & _ & _ & _ & Hwin).
  rewrite Hwin, col_as_prices.
  rewrite !iloc_prices by (rewrite length_map; lia).
  rewrite pct_gain_positive.
  - apply Qc_ltb_lt.
  - unfold price_at.
    assert (Hi : (entry_idx t < List.length df)%nat) by lia.
    destruct (nth_error df (entry_idx t)) as [b|] eqn:E;
      [|apply nth_error_None in E; lia].
    rewrite (nth_indep _ 0%Qc (Close b)) by (rewrite length_map; lia).
    rewrite map_nth. apply Hpos. apply nth_In. assumption.
Qed.

Lemma win_flag_compares_exit_to_entry_close_five_bars :
  exists r,
    simple_backtest ident (history [100; 110; 121; 100; 90]%Z) (qz 10000)
      [1; -1; 1; 0; -1]%Z None None = Some r /\
    Forall (fun t =>
              win t = true <->
              (price_at (map Close (history [100; 110; 121; 100; 90]%Z))
                 (entry_idx t)
               < price_at (map Close (history [100; 110; 121; 100; 90]%Z))
                   (exit_idx t))%Qc)
           (trades_detail r).
Proof.
  destruct (simple_backtest_total ident (history [100; 110; 121; 100; 90]%Z)
              (qz 10000) [1; -1; 1; 0; -1]%Z) as [r Hr];
    [discriminate | reflexivity |].
  exists r. split; [exact Hr|].
  apply (win_flag_compares_exit_to_entry_close ident
           (history [100; 110; 121; 100; 90]%Z) (qz 10000)
           [1; -1; 1; 0; -1]%Z r).
  - repeat constructor; apply Qc_ltb_lt; reflexivity.
  - reflexivity.
  - exact Hr.
Defined.

(** X8.  The backtests raise exactly on an empty history, where
    [equity.iloc[-1]] has nothing to read; the MACD strategy also raises
    when one of its three spans is 0, which [ewm] rejects. *)
Theorem backtests_raise_on_empty_history :
  forall (sqrt_ : Qc -> Qc) (df : DataFrame) (cap : Qc),
    (forall signals, List.length signals = List.length df ->
       (simple_backtest sqrt_ df cap signals None None = None <-> df = []))
    /\
    (forall fast slow,
       sma_crossover_backtest sqrt_ df cap fast slow = None <-> df = []) /\
    (forall fast slow signal,
       macd_crossover_backtest sqrt_ df cap fast slow signal = None <->
       df = [] \/ fast = 0%nat \/ slow = 0%nat \/ signal = 0%nat) /\
    (forall R period oversold overbought,
       rsi_strategy_backtest sqrt_ false R df cap period oversold overbought
         = None <-> df = []) /\
    (forall entry_condition exit_condition,
       custom_strategy_backtest sqrt_ df cap entry_condition exit_condition
         = None <-> df = []).
Proof.
  intros sqrt_ df cap.
  split; [intros signals HL; now apply simple_backtest_none|].
  split; [intros fast slow; apply simple_backtest_none;
          apply sma_crossover_signals_length|].
  split.
  - intros fast slow signal. unfold macd_crossover_backtest, bind.
    destruct (macd_crossover_signals df fast slow signal) as [s|] eqn:E.
    + pose proof (macd_crossover_signals_length _ _ _ _ _ E) as HL.
      rewrite (simple_backtest_none sqrt_ df cap s HL).
      split; [now left|]. intros [H|H]; [assumption|].
      rewrite macd_crossover_is_crossover in E.
      apply (proj2 (macd_none fast slow signal df)) in H.
      now rewrite H in E.
    + split; [|reflexivity]. intros _. right.
      rewrite macd_crossover_is_crossover in E.
      apply (proj1 (macd_none fast slow signal df)).
      now destruct (macd fast slow signal df).
  - split.
    + intros R period oversold overbought.
      apply simple_backtest_none. apply rsi_signals_length.
    + intros entry_condition exit_condition.
      apply simple_backtest_none.
      apply (custom_signals df entry_condition exit_condition).
Qed.

(** X9.  The signals [custom_strategy_backtest] builds have one entry
    per bar, never signal at bar 0, take only the values 0, 1 and -1,
    and their non-zero entries alternate, starting with a 1; a 1 stands
    at a bar where the entry condition holds and a -1 at a bar where
    the exit condition holds.  Hence every -1 closes a trade: the
    number of trades reported is the number of -1 signals. *)
Theorem custom_strategy_signals_alternate :
  forall (sqrt_ : Qc -> Qc) (df : DataFrame) (cap : Qc)
         (entry_condition exit_condition : DataFrame -> nat -> bool),
    let s := custom_strategy_signals df entry_condition exit_condition in
    List.length s = List.length df /\
    alternates false s = true /\
    nth 0 s 0%Z = 0%Z /\
    (forall j,
       (nth j s 0%Z = 1%Z -> entry_condition df j = true) /\
       (nth j s 0%Z = (-1)%Z -> exit_condition df j = true) /\
       (nth j s 0%Z = 0%Z \/ nth j s 0%Z = 1%Z \/ nth j s 0%Z = (-1)%Z)) /\
    (forall r,
       custom_strategy_backtest sqrt_ df cap entry_condition exit_condition
         = Some r ->
       trades r = count_exits s).
Proof.
  intros sqrt_ df cap entry_condition exit_condition s.
  destruct (custom_signals df entry_condition exit_condition)
    as (Hlen & Halt & H0 & Hc).
  fold s in Hlen, Halt, H0, Hc.
  split; [assumption|]. split; [assumption|]. split; [assumption|].
  split; [assumption|].
  intros r Hr. unfold custom_strategy_backtest in Hr. fold s in Hr.
  destruct (simple_backtest_trades _ _ _ _ _ _ _ Hr) as (Ht & Hn & _).
  rewrite Hn, <- (length_map trade_bars), Ht.
  rewrite calculate_trades_round_trips.
  apply (length_round_trips s 0 None false); [|assumption].
  split; [discriminate | intro H; now elim H].
Qed.

(** X10.  Without the [ta] package, the signal of the RSI strategy at a
    bar is -1 when the RSI is above [overbought], otherwise 1 when it is
    below [oversold], otherwise 0: the sell assignment is made last and
    wins where both thresholds are crossed, and a bar whose RSI is
    undefined gets no signal. *)
Theorem rsi_strategy_signal_thresholds :
  forall (R : Series -> nat -> Series) (df : DataFrame) (period : nat)
         (oversold overbought : Qc) (i : nat),
    (i < List.length df)%nat ->
    nth i (rsi_strategy_signals false R df period oversold overbought) 0%Z =
    (if fgt (iloc (rsi false R period df) i) (Fin overbought) then (-1)%Z
     else if flt (iloc (rsi false R period df) i) (Fin oversold) then 1%Z
     else 0%Z) /\
    (isnan (iloc (rsi false R period df) i) = true ->
     nth i (rsi_strategy_signals false R df period oversold overbought) 0%Z
     = 0%Z).
Proof.
  intros R df period oversold overbought i Hi.
  rewrite rsi_signals_nth by assumption.
  split; [reflexivity|].
  destruct (iloc (rsi false R period df) i); try discriminate. reflexivity.
Qed.

Lemma rsi_strategy_signal_thresholds_three_bars :
  nth 2 (rsi_strategy_signals false (fun s _ => s)
           (history [100; 90; 80]%Z) 2 (qz 30) (qz 70)) 0%Z =
  (if fgt (iloc (rsi false (fun s _ => s) 2 (history [100; 90; 80]%Z)) 2)
          (Fin (qz 70))
   then (-1)%Z
   else if flt (iloc (rsi false (fun s _ => s) 2 (history [100; 90; 80]%Z)) 2)
               (Fin (qz 30))
        then 1%Z else 0%Z).
Proof.
  assert (H : (2 < List.length (history [100; 90; 80]%Z))%nat)
    by (simpl; lia).
  exact (proj1 (rsi_strategy_signal_thresholds (fun s _ => s)
                  (history [100; 90; 80]%Z) 2 (qz 30) (qz 70) 2 H)).
Defined.


(** *** analysis_engine.py: averages and momentum *)

(** X11.  Without the [ta] package and for a positive period, every
    value of the RSI is either undefined or a finite number between 0
    and 100; it is undefined at every bar of a history whose closes are
    all equal, where both rolling averages are 0 and their quotient is
    0/0. *)
Theorem manual_rsi_between_0_and_100 :
  forall (R : Series -> nat -> Series) (period : nat) (df : DataFrame)
         (i : nat),
    (1 <= period)%nat -> (i < List.length df)%nat ->
    nan_or_within 0%Qc (qz 100) (iloc (rsi false R period df) i) /\
    (forall c, Forall (fun b => Close b = c) df ->
               iloc (rsi false R period df) i = NaN).
Proof.
  intros R period df i Hp Hi.
  rewrite rsi_manual_at by assumption. split.
  - apply rsi_simple_range. assumption.
  - intros c Hc. now apply (rsi_simple_flat period df c).
Qed.

Lemma manual_rsi_between_0_and_100_three_bars :
  nan_or_within 0%Qc (qz 100)
    (iloc (rsi false (fun s _ => s) 2 (history [100; 90; 95]%Z)) 2).
Proof.
  apply (manual_rsi_between_0_and_100 (fun s _ => s) 2
           (history [100; 90; 95]%Z) 2); simpl; lia.
Defined.

(** X12.  On a history whose [column] values all lie between [lo] and
    [hi], each of the three moving averages of a positive period lies
    between [lo] and [hi] wherever it is defined: the simple and the
    weighted one from bar [period - 1] on, the exponential one at every
    bar.  In particular the averages of a constant price are that
    price. *)
Theorem moving_averages_within_price_range :
  forall (period : nat) (column : Bar -> Qc) (df : DataFrame) (lo hi : Qc),
    (1 <= period)%nat ->
    Forall (fun b => within lo hi (column b)) df ->
    (forall i, (period - 1 <= i < List.length df)%nat ->
       exists q, iloc (sma period column df) i = Fin q /\ within lo hi q) /\
    (forall i, (period - 1 <= i < List.length df)%nat ->
       exists q, iloc (wma period column df) i = Fin q /\ within lo hi q) /\
    (exists e, ema period column df = Some e /\
       forall i, (i < List.length df)%nat ->
         exists q, iloc e i = Fin q /\ within lo hi q).
Proof.
  intros period column df lo hi Hp Hc.
  assert (Hq : Forall (within lo hi) (map column df)).
  { apply Forall_map. exact Hc. }
  assert (Hwin : forall i, (period - 1 <= i < List.length df)%nat ->
            Forall (within lo hi)
              (firstn period (skipn (S i - period) (map column df)))).
  { intros i Hi. apply Forall_forall. intros x Hx.
    rewrite Forall_forall in Hq. apply Hq.
    destruct (rolling_finite_window period i (fun _ => NaN)
                (map column df)) as (_ & _ & Hincl);
      [lia | rewrite length_map; lia | now apply Hincl]. }
  split; [|split].
  - intros i Hi. unfold sma, rolling_mean. rewrite col_as_prices.
    destruct (rolling_finite_window period i
                (fun win => fdiv (fsum win) (fz (Z.of_nat period)))
                (map column df)) as (Hv & Hlen & _);
      [lia | rewrite length_map; lia |].
    rewrite Hv. specialize (Hwin i Hi). revert Hlen Hwin.
    generalize (firstn period (skipn (S i - period) (map column df))).
    intros win Hlen Hwin. rewrite <- Hlen.
    apply mean_of_window_bounds; [lia | assumption].
  - intros i Hi. unfold wma. rewrite col_as_prices.
    destruct (rolling_finite_window period i
                (fun x => fdiv (dot x (arange1 period))
                            (fz (fold_left Z.add (arange1 period) 0%Z)))
                (map column df)) as (Hv & Hlen & _);
      [lia | rewrite length_map; lia |].
    rewrite Hv.
    apply weighted_window_bounds; [assumption | assumption | now apply Hwin].
  - unfold ema. rewrite col_as_prices.
    destruct (ewm_mean_within lo hi period (map column df) Hp Hq)
      as (e & He & _ & Hb).
    exists e. split; [assumption|]. intros i Hi. apply Hb.
    now rewrite length_map.
Qed.

Lemma moving_averages_within_price_range_three_bars :
  exists q,
    iloc (sma 2 Close (history [10; 12; 11]%Z)) 2 = Fin q /\
    within (qz 10) (qz 12) q.
Proof.
  apply (proj1 (moving_averages_within_price_range 2 Close
                  (history [10; 12; 11]%Z) (qz 10) (qz 12)
                  ltac:(lia)
                  ltac:(repeat constructor; apply Qc_leb_le; reflexivity))).
  simpl. lia.
Defined.

(** X13.  For three positive spans [macd] returns three finite series
    with one entry per bar; the histogram is, bar by bar, the MACD line
    minus the signal line; the MACD line and the signal line are 0 at
    the first bar; and on closes between [lo] and [hi] neither line
    leaves the interval from [lo - hi] to [hi - lo], so that on a
    constant price all three series are 0. *)
Theorem macd_is_bounded_by_price_range :
  forall (fast slow signal : nat) (df : DataFrame) (lo hi : Qc),
    (1 <= fast)%nat -> (1 <= slow)%nat -> (1 <= signal)%nat ->
    Forall (fun b => within lo hi (Close b)) df ->
    exists m,
      macd fast slow signal df = Some m /\
      List.length (macd_line m) = List.length df /\
      List.length (signal_line m) = List.length df /\
      List.length (histogram m) = List.length df /\
      (forall i, (i < List.length df)%nat ->
         exists l s,
           iloc (macd_line m) i = Fin l /\
           iloc (signal_line m) i = Fin s /\
           iloc (histogram m) i = Fin (l - s) /\
           within (lo - hi) (hi - lo) l /\
           within (lo - hi) (hi - lo) s /\
           (i = 0%nat -> l = 0%Qc /\ s = 0%Qc)).
Proof.
  intros fast slow signal df lo hi Hf Hs Hg Hc.
  destruct (macd_within fast slow signal df lo hi Hf Hs Hg Hc)
    as (ls & ss & Hm & Ll & Ls & Bl & Bs & L0 & S0).
  eexists. split; [exact Hm|]. cbn [macd_line signal_line histogram].
  rewrite !length_map, map2_length, Ll, Ls, Nat.min_id.
  split; [reflexivity|]. split; [reflexivity|]. split; [reflexivity|].
  intros i Hi. exists (nth i ls 0%Qc), (nth i ss 0%Qc).
  assert (Hfin : forall qs, (i < List.length qs)%nat ->
                   iloc (map Fin qs) i = Fin (nth i qs 0%Qc)).
  { intros qs Hq. unfold iloc.
    rewrite (nth_indep _ NaN (Fin 0%Qc)) by now rewrite length_map.
    apply map_nth. }
  rewrite !Hfin by (rewrite ?map2_length; lia).
  rewrite (nth_map2 Qcminus ls ss i 0%Qc 0%Qc 0%Qc) by lia.
  rewrite Forall_forall in Bl, Bs.
  split; [reflexivity|]. split; [reflexivity|]. split; [reflexivity|].
  split; [apply Bl, nth_In; lia|]. split; [apply Bs, nth_In; lia|].
  intros ->. now split.
Qed.

Lemma macd_is_bounded_by_price_range_two_bars :
  exists m,
    macd 1 2 1 (history [10; 12]%Z) = Some m /\
    List.length (histogram m) = 2%nat.
Proof.
  destruct (macd_is_bounded_by_price_range 1 2 1 (history [10; 12]%Z)
              (qz 10) (qz 12) ltac:(lia) ltac:(lia) ltac:(lia)
              ltac:(repeat constructor; apply Qc_leb_le; reflexivity))
    as (m & Hm & _ & _ & Hh & _).
  exists m. split; [exact Hm | exact Hh].
Defined.


(** *** analysis_engine.py: oscillators, volatility and volume *)

(** X14.  On bars whose close lies between their low and their high,
    every value of the stochastic %K and of its average %D is either
    undefined or a finite number between 0 and 100; %K is undefined on
    the first [k_period - 1] bars (and everywhere for a period of 0). *)
Theorem stochastic_between_0_and_100 :
  forall (k_period d_period : nat) (df : DataFrame) (i : nat),
    Forall (fun b => (Low b <= Close b)%Qc /\ (Close b <= High b)%Qc) df ->
    (i < List.length df)%nat ->
    nan_or_within 0%Qc (qz 100)
      (iloc (stoch_k (stochastic k_period d_period df)) i) /\
    nan_or_within 0%Qc (qz 100)
      (iloc (stoch_d (stochastic k_period d_period df)) i) /\
    ((k_period = 0 \/ S i < k_period)%nat ->
     iloc (stoch_k (stochastic k_period d_period df)) i = NaN).
Proof.
  intros k d df i Hbars Hi. split; [|split].
  - now apply stochastic_k_range.
  - change (stoch_d (stochastic k d df))
      with (rolling_mean d (stoch_k (stochastic k d df))).
    pose proof (proj1 (stochastic_lengths k d df)) as HL.
    apply rolling_mean_nan_or_within; [|now rewrite HL].
    intros j Hj. rewrite HL in Hj. now apply stochastic_k_range.
  - intro Hk. rewrite stochastic_k_at by assumption.
    unfold rolling_min.
    rewrite (rolling_undefined k i nanmin) by (auto; reflexivity).
    unfold fsub. cbn [fneg]. rewrite !fadd_nan_r. reflexivity.
Qed.

Lemma stochastic_between_0_and_100_two_bars :
  nan_or_within 0%Qc (qz 100)
    (iloc (stoch_k (stochastic 2 1 (history [10; 12]%Z))) 1).
Proof.
  apply (stochastic_between_0_and_100 2 1 (history [10; 12]%Z) 1).
  - repeat constructor; apply Qc_leb_le; reflexivity.
  - simpl. lia.
Defined.

(** X15.  The true range of the first bar is its high minus its low
    (the two distances to the missing previous close are skipped); the
    true range of a later bar is the largest of high minus low and of
    the distances of the high and of the low to the previous close.
    The average true range is undefined on the first [period - 1] bars
    and, on bars whose high is not below their low, finite and not
    negative from then on. *)
Theorem true_range_and_its_average :
  forall (df : DataFrame),
    (forall b, nth_error df 0 = Some b ->
       iloc (true_range df) 0 = Fin (High b - Low b)) /\
    (forall j p b,
       nth_error df j = Some p -> nth_error df (S j) = Some b ->
       iloc (true_range df) (S j) =
       Fin (qmax (qmax (High b - Low b) (qabs (High b - Close p)))
                 (qabs (Low b - Close p)))) /\
    (forall period i, (i < period - 1)%nat -> iloc (atr period df) i = NaN)
    /\
    (forall period i,
       (1 <= period)%nat -> Forall (fun b => (Low b <= High b)%Qc) df ->
       (period - 1 <= i < List.length df)%nat ->
       exists q, iloc (atr period df) i = Fin q /\ (0 <= q)%Qc).
Proof.
  intro df. split; [|split; [|split]].
  - intros b Hb. now apply true_range_first.
  - intros j p b Hp Hb. now apply (true_range_next df j p b).
  - intros period i Hi. unfold atr, rolling_mean.
    now apply rolling_apply_prefix.
  - intros period i Hp Hbars Hi. now apply atr_nonneg.
Qed.

(** X16.  The on-balance volume has one finite entry per bar, starts at
    0, and from one bar to the next adds the volume of the bar when its
    close is above the previous close, subtracts it when the close is
    below, and stays unchanged when the close is the same. *)
Theorem obv_accumulates_signed_volume :
  forall (df : DataFrame),
    List.length (obv df) = List.length df /\
    ((0 < List.length df)%nat -> iloc (obv df) 0 = Fin 0) /\
    (forall j p b,
       nth_error df j = Some p -> nth_error df (S j) = Some b ->
       iloc (obv df) (S j) =
       fadd (iloc (obv df) j)
            (Fin (qz (flow_sign (Close b - Close p)) * Volume b))) /\
    (forall i, (i < List.length df)%nat ->
       isfinite (iloc (obv df) i) = true).
Proof.
  intro df. split; [apply obv_length|]. split; [apply obv_first|].
  split.
  - intros j p b Hp Hb. now apply obv_next.
  - intros i Hi. destruct (obv_finite df i Hi) as [q Hq]. now rewrite Hq.
Qed.

(** X17.  At every bar the middle Bollinger band is the simple moving
    average.  For a period of at least 2 and from bar [period - 1] on,
    the middle band is the mean of the last [period] closes and the
    upper and the lower band lie at [std_dev] times the square root of
    the sample variance (divisor [period - 1]) of these closes above and
    below it.  Both are undefined on the first [period - 1] bars, and at
    every bar when the period is 0 or 1: one observation has no sample
    standard deviation. *)
Theorem bollinger_bands_around_average :
  forall (sqrt_ : Qc -> Qc) (period : nat) (std_dev : Qc) (df : DataFrame)
         (i : nat),
    (i < List.length df)%nat ->
    iloc (middle (bollinger_bands sqrt_ period std_dev df)) i =
      iloc (sma period Close df) i /\
    ((period <= 1 \/ S i < period)%nat ->
     iloc (upper (bollinger_bands sqrt_ period std_dev df)) i = NaN /\
     iloc (lower (bollinger_bands sqrt_ period std_dev df)) i = NaN) /\
    ((2 <= period <= S i)%nat ->
     (0 <= window_variance (map Close df) period i)%Qc /\
     iloc (middle (bollinger_bands sqrt_ period std_dev df)) i =
       Fin (simple_mean (price_at (map Close df)) period i) /\
     iloc (upper (bollinger_bands sqrt_ period std_dev df)) i =
       Fin (simple_mean (price_at (map Close df)) period i
            + sqrt_ (window_variance (map Close df) period i) * std_dev) /\
     iloc (lower (bollinger_bands sqrt_ period std_dev df)) i =
       Fin (simple_mean (price_at (map Close df)) period i
            - sqrt_ (window_variance (map Close df) period i) * std_dev)).
Proof.
  intros sqrt_ period k df i Hi.
  destruct (bands_at sqrt_ period k df i Hi) as (Hm & Hu & Hl).
  split; [exact Hm|]. rewrite Hm, Hu, Hl. split.
  - intros [Hp | Hp].
    + rewrite rolling_std_short by assumption.
      cbn [fmul]. unfold fsub. cbn [fneg]. rewrite !fadd_nan_r. now split.
    + unfold sma, rolling_mean. rewrite rolling_apply_prefix by lia.
      split; reflexivity.
  - intro Hp.
    rewrite sma_value by (assumption || lia).
    rewrite col_as_prices.
    rewrite rolling_std_value by (rewrite ?length_map; assumption || lia).
    split; [apply window_variance_nonneg; lia|].
    split; [reflexivity|]. split; reflexivity.
Qed.

(** On the closes 9, 10, 11 with period 3 and two deviations the mean
    is 10 and the sample variance 1, whose square root is 1: the bands
    at the last bar are 12, 10 and 8. *)
Lemma bollinger_bands_around_average_three_bars :
  iloc (middle (bollinger_bands ident 3 (qz 2) (history [9; 10; 11]%Z))) 2
    = Fin (qz 10) /\
  iloc (upper (bollinger_bands ident 3 (qz 2) (history [9; 10; 11]%Z))) 2
    = Fin (qz 12) /\
  iloc (lower (bollinger_bands ident 3 (qz 2) (history [9; 10; 11]%Z))) 2
    = Fin (qz 8).
Proof.
  destruct (bollinger_bands_around_average ident 3 (qz 2)
              (history [9; 10; 11]%Z) 2) as (_ & _ & H); [simpl; lia|].
  destruct H as (_ & Hm & Hu & Hl); [lia|].
  rewrite Hm, Hu, Hl.
  split; [apply fsame_eq; vm_compute; reflexivity|].
  split; apply fsame_eq; vm_compute; reflexivity.
Defined.


(** *** analysis_engine.py: patterns, statistics, summary, validation *)


(** X19.  [calculate_statistics] raises exactly on an empty history.
    Otherwise the current price is the last close and the price change
    is the percentage from the first to the last close; with fewer than
    three bars there is at most one return, so that the standard
    deviation and the volatility are undefined and the Sharpe ratio is
    0 by its guard; with a single bar the mean, the largest gain and
    the largest loss are undefined as well. *)
Theorem statistics_on_short_histories :
  forall (sqrt_ : Qc -> Qc) (df : DataFrame),
    (calculate_statistics sqrt_ df = None <-> df = []) /\
    (forall st, calculate_statistics sqrt_ df = Some st ->
       (exists first last_bar,
          nth_error df 0 = Some first /\
          nth_error df (List.length df - 1) = Some last_bar /\
          current_price st = Fin (Close last_bar) /\
          price_change_pct st =
            fmul (fdiv (fsub (Fin (Close last_bar)) (Fin (Close first)))
                       (Fin (Close first)))
                 (fz 100)) /\
       ((List.length df <= 2)%nat ->
          std_return st = NaN /\ sharpe_ratio st = Fin 0 /\
          volatility st = NaN) /\
       (List.length df = 1%nat ->
          mean_return st = NaN /\ max_gain st = NaN /\ max_loss st = NaN)).
Proof.
  intros sqrt_ df. split; [apply calculate_statistics_none|].
  intros st Hst.
  assert (Hn : (1 <= List.length df)%nat).
  { destruct df; [discriminate | simpl; lia]. }
  destruct (calculate_statistics_fields sqrt_ df st Hst)
    as (Hmean & Hstd & Hsh & Hmax & Hmin & Hvol & Hcur & Hchg).
  pose proof (returns_length (col Close df)) as HL.
  rewrite col_length in HL.
  split; [|split].
  - destruct (bar_at df 0 ltac:(lia)) as [first Hf].
    destruct (bar_at df (List.length df - 1) ltac:(lia)) as [last_bar Hl].
    exists first, last_bar.
    split; [assumption|]. split; [assumption|].
    rewrite Hcur, Hchg.
    rewrite (iloc_col Close df _ last_bar Hl), (iloc_col Close df _ first Hf).
    split; reflexivity.
  - intro H2.
    assert (Hs : std sqrt_ (dropna (pct_change (col Close df))) = NaN)
      by (apply std_short; lia).
    rewrite Hstd, Hsh, Hvol, Hs. now split.
  - intro H1.
    assert (He : dropna (pct_change (col Close df)) = []).
    { destruct (dropna (pct_change (col Close df))); [reflexivity|].
      simpl in HL. lia. }
    rewrite Hmean, Hmax, Hmin, He. now split.
Qed.

(** X20.  Without the [ta] package, [get_summary] raises exactly on an
    empty history.  Otherwise it returns the statistics, the levels of
    [find_support_resistance] with its defaults and the patterns, and
    each indicator is present exactly when the history has enough bars
    (14 for the RSI, 20 and 50 for the two averages): the averages are
    then finite, and the RSI is undefined or between 0 and 100. *)
Theorem summary_indicators_need_enough_bars :
  forall (sqrt_ : Qc -> Qc) (R : Series -> nat -> Series) (df : DataFrame),
    (get_summary sqrt_ false R df = None <-> df = []) /\
    (forall s, get_summary sqrt_ false R df = Some s ->
       calculate_statistics sqrt_ df = Some (statistics s) /\
       support_resistance s = find_support_resistance 5 2 df /\
       patterns s = detect_patterns df /\
       (ind_rsi (indicators s) = None <-> (List.length df < 14)%nat) /\
       (ind_sma_20 (indicators s) = None <-> (List.length df < 20)%nat) /\
       (ind_sma_50 (indicators s) = None <-> (List.length df < 50)%nat) /\
       (forall v, ind_rsi (indicators s) = Some v ->
                  nan_or_within 0%Qc (qz 100) v) /\
       (forall v, ind_sma_20 (indicators s) = Some v \/
                  ind_sma_50 (indicators s) = Some v ->
                  isfinite v = true)).
Proof.
  intros sqrt_ R df.
  destruct (calculate_statistics sqrt_ df) as [st|] eqn:Hst.
  - rewrite (get_summary_value sqrt_ R df st Hst).
    assert (Hn : (1 <= List.length df)%nat).
    { destruct df; [discriminate | simpl; lia]. }
    split.
    { split; [discriminate|]. intros ->. discriminate Hst. }
    intros s Hs. apply (f_equal (fun o => match o with
                                           | Some x => x
                                           | None => s
                                           end)) in Hs.
    cbv beta iota in Hs. subst s.
    cbv beta iota delta [statistics support_resistance patterns indicators
                           ind_rsi ind_sma_20 ind_sma_50].
    split; [reflexivity|]. split; [reflexivity|]. split; [reflexivity|].
    assert (Hbars : forall k (x : fval),
              (if (k <=? List.length df)%nat then Some x else None) = None
              <-> (List.length df < k)%nat).
    { intros k x. destruct (Nat.leb_spec k (List.length df)); split;
        try discriminate; try reflexivity; lia. }
    split; [exact (Hbars 14%nat _)|]. split; [exact (Hbars 20%nat _)|].
    split; [exact (Hbars 50%nat _)|].
    split.
    + intros v Hv.
      revert Hv. destruct (Nat.leb_spec 14 (List.length df)); intro Hv;
        [|discriminate Hv].
      assert (Ev : v = iloc (rsi false R 14 df) (List.length df - 1))
        by congruence.
      subst v. rewrite rsi_manual_at by lia.
      apply rsi_simple_range. lia.
    + intros v [Hv | Hv].
      * revert Hv. destruct (Nat.leb_spec 20 (List.length df)); intro Hv;
        [|discriminate Hv].
        assert (Ev : v = iloc (sma 20 Close df) (List.length df - 1))
          by congruence.
        subst v.
        destruct (sma_defined 20 Close df (List.length df - 1))
          as [m Hm]; [lia | lia |].
        now rewrite Hm.
      * revert Hv. destruct (Nat.leb_spec 50 (List.length df)); intro Hv;
        [|discriminate Hv].
        assert (Ev : v = iloc (sma 50 Close df) (List.length df - 1))
          by congruence.
        subst v.
        destruct (sma_defined 50 Close df (List.length df - 1))
          as [m Hm]; [lia | lia |].
        now rewrite Hm.
  - apply calculate_statistics_none in Hst. subst df.
    split; [now split|]. intros s Hs. discriminate.
Qed.

(** X21.  [_validate_data] accepts the columns exactly when each of
    Open, High, Low, Close and Volume is among them; otherwise the
    error lists the required columns that are absent, and only those. *)
Theorem validation_reports_missing_columns :
  forall (columns : list String.string),
    (Columns._validate_data columns = inr tt <->
     forall c, In c Columns.required -> In c columns) /\
    (forall missing, Columns._validate_data columns = inl missing ->
       missing <> [] /\
       forall c, In c missing <-> In c Columns.required /\ ~ In c columns).
Proof.
  intro columns. unfold Columns._validate_data.
  pose proof (missing_columns columns) as Hm.
  destruct (filter _ Columns.required) as [|x m] eqn:E.
  - split.
    + split; [|reflexivity]. intros _ c Hc.
      destruct (in_dec String.string_dec c columns) as [Hin|Hout];
        [assumption|].
      exfalso. apply (proj2 (Hm c)). now split.
    + intros missing H. discriminate.
  - split.
    + split; [discriminate|]. intro H. exfalso.
      destruct (proj1 (Hm x) (or_introl eq_refl)) as [Hr Hc].
      apply Hc. now apply H.
    + intros missing H. injection H as <-.
      split; [discriminate | exact Hm].
Qed.

(** X22.  On a history of at most [2 * window] bars the loops of
    [find_support_resistance] have no bar to visit, and both lists of
    levels are empty: with the default window of 5, a history under 11
    bars has no level. *)
Theorem no_levels_on_short_history :
  forall (window min_touches : nat) (df : DataFrame),
    (List.length df <= 2 * window)%nat ->
    support (find_support_resistance window min_touches df) = [] /\
    resistance (find_support_resistance window min_touches df) = [].
Proof.
  intros window min_touches df H. unfold find_support_resistance.
  cbn [support resistance].
  rewrite !scan_levels_short by assumption. split; reflexivity.
Qed.

Lemma no_levels_on_short_history_three_bars :
  support (find_support_resistance 5 2 (history [10; 12; 11]%Z)) = [] /\
  resistance (find_support_resistance 5 2 (history [10; 12; 11]%Z)) = [].
Proof.
  apply (no_levels_on_short_history 5 2 (history [10; 12; 11]%Z)).
  simpl. lia.
Defined.

(** *** backtest_engine.py: drawdown *)

(** X23.  On an equity curve whose defined entries are positive, the
    maximum drawdown is a finite percentage between 0 and 100, or
    undefined when no entry of the curve is defined (0 for an empty
    curve). *)
Theorem max_drawdown_between_0_and_100 :
  forall (equity : Series),
    Forall (fun x => x = NaN \/ exists q, x = Fin q /\ (0 < q)%Qc) equity ->
    nan_or_within 0%Qc (qz 100) (_calculate_max_drawdown equity) /\
    (equity = [] -> _calculate_max_drawdown equity = Fin 0) /\
    (equity <> [] -> Forall (fun x => x = NaN) equity ->
     _calculate_max_drawdown equity = NaN).
Proof.
  intros equity Hs. split; [now apply max_drawdown_range|]. split.
  - intros ->. reflexivity.
  - intros Hne Hnan. unfold _calculate_max_drawdown.
    replace (List.length equity =? 0)%nat with false
      by (symmetry; apply Nat.eqb_neq; destruct equity;
          [contradiction | discriminate]).
    assert (Hdd : forall (m : Series),
              dropna (map2 (fun e m => fmul (fdiv (fsub e m) m) (fz 100))
                        equity m) = []).
    { clear Hs Hne. induction Hnan as [|x s -> _ IH]; intros [|y m];
        try reflexivity.
      cbn [map2]. unfold dropna in *. cbn. apply IH. }
    unfold nanmin. rewrite Hdd. reflexivity.
Qed.

Lemma max_drawdown_between_0_and_100_three_bars :
  nan_or_within 0%Qc (qz 100)
    (_calculate_max_drawdown [NaN; fz 11000; fz 9900]).
Proof.
  apply (max_drawdown_between_0_and_100 [NaN; fz 11000; fz 9900]).
  constructor; [now left|].
  constructor; [right; eexists; split; [reflexivity|];
                apply Qc_ltb_lt; reflexivity|].
  constructor; [right; eexists; split; [reflexivity|];
                apply Qc_ltb_lt; reflexivity|].
  constructor.
Defined.


(** *** backtest_engine.py: whole strategies *)

(** X24.  Buying once and holding.  On non-zero closes, when the only
    signal is a 1 at bar [k], the backtest reports no trade, the equity
    stays at the initial capital up to bar [k] and from then on follows
    the close, [initial_capital * close[i] / close[k]]; the final
    equity is that value at the last bar and, for a non-zero capital,
    the total return is the percentage it stands above the capital. *)
Theorem buy_and_hold_follows_the_close :
  forall (sqrt_ : Qc -> Qc) (df : DataFrame) (cap : Qc) (signals : list Z)
         (k : nat) (r : Result),
    Forall (fun b => Close b <> 0%Qc) df ->
    List.length signals = List.length df ->
    nth k signals 0%Z = 1%Z ->
    (forall j, j <> k -> nth j signals 0%Z = 0%Z) ->
    simple_backtest sqrt_ df cap signals None None = Some r ->
    trades r = 0%nat /\
    (forall i, (1 <= i < List.length df)%nat ->
       iloc (equity_curve r) i = Fin (hold_value cap (map Close df) k i)) /\
    ((2 <= List.length df)%nat ->
     final_equity r =
       Fin (hold_value cap (map Close df) k (List.length df - 1)) /\
     (cap <> 0%Qc ->
      total_return_pct r =
        Fin ((hold_value cap (map Close df) k (List.length df - 1) / cap - 1)
             * qz 100))).
Proof.
  intros sqrt_ df cap signals k r Hc HL Hbuy Hhold Hr.
  destruct (simple_backtest_fields _ _ _ _ _ Hr) as (He & _ & _ & Hf).
  destruct (simple_backtest_trades _ _ _ _ _ _ _ Hr) as (Ht & Hn & _).
  destruct (simple_backtest_summary _ _ _ _ _ Hr)
    as (_ & _ & _ & _ & Hret & _).
  assert (Heq : forall i, (1 <= i < List.length df)%nat ->
            iloc (equity_of cap signals (col Close df)) i =
            Fin (hold_value cap (map Close df) k i)).
  { intros i Hi. destruct i as [|i]; [lia|].
    rewrite (hold_equity df cap signals k Hc HL Hbuy Hhold) by lia.
    reflexivity. }
  split; [|split].
  - rewrite Hn, <- (length_map trade_bars), Ht.
    rewrite calculate_trades_round_trips.
    unfold round_trips. rewrite round_trips_without_exit; [reflexivity|].
    now apply (hold_no_exit signals k).
  - intros i Hi. rewrite He. now apply Heq.
  - intro H2.
    assert (Hfin : final_equity r =
              Fin (hold_value cap (map Close df) k (List.length df - 1))).
    { rewrite (iloc_last_iloc _ _ Hf).
      rewrite equity_length by (now rewrite col_length).
      rewrite col_length. apply Heq. lia. }
    split; [exact Hfin|]. intro Hcap.
    rewrite Hret, Hfin. rewrite fdiv_Fin by assumption. reflexivity.
Qed.

Lemma buy_and_hold_follows_the_close_three_bars :
  exists r,
    simple_backtest ident (history [100; 110; 121]%Z) (qz 10000)
      [1; 0; 0]%Z None None = Some r /\
    trades r = 0%nat /\
    iloc (equity_curve r) 2 =
      Fin (hold_value (qz 10000) (map Close (history [100; 110; 121]%Z)) 0 2).
Proof.
  destruct (simple_backtest_total ident (history [100; 110; 121]%Z)
              (qz 10000) [1; 0; 0]%Z) as [r Hr];
    [discriminate | reflexivity |].
  exists r. split; [exact Hr|].
  destruct (buy_and_hold_follows_the_close ident (history [100; 110; 121]%Z)
              (qz 10000) [1; 0; 0]%Z 0 r) as (Ht & He & _).
  - repeat constructor; apply Qc_eqb_neq; reflexivity.
  - reflexivity.
  - reflexivity.
  - intros [|[|[|[|j]]]] Hj; try reflexivity. contradiction.
  - exact Hr.
  - split; [exact Ht|]. apply He. simpl. lia.
Defined.

(** X25.  Every trade of the SMA crossover strategy is entered at a bar
    where the fast average crosses above the slow one and is left at the
    first bar after it where the fast average crosses below; the same
    holds for the MACD strategy with the MACD line and its signal
    line. *)
Theorem crossover_trades_run_between_crossings :
  forall (sqrt_ : Qc -> Qc) (df : DataFrame) (cap : Qc),
    (forall fast slow r,
       sma_crossover_backtest sqrt_ df cap fast slow = Some r ->
       Forall (between_crossings (sma fast Close df) (sma slow Close df))
              (trades_detail r)) /\
    (forall fast slow signal m r,
       macd fast slow signal df = Some m ->
       macd_crossover_backtest sqrt_ df cap fast slow signal = Some r ->
       Forall (between_crossings (macd_line m) (signal_line m))
              (trades_detail r)).
Proof.
  intros sqrt_ df cap. split.
  - intros fast slow r Hr. unfold sma_crossover_backtest in Hr.
    rewrite sma_crossover_is_crossover in Hr.
    apply (crossover_trades sqrt_ df cap _ _ r); try assumption;
      apply sma_length.
  - intros fast slow signal m r Hm Hr.
    unfold macd_crossover_backtest, bind in Hr.
    rewrite macd_crossover_is_crossover, Hm in Hr.
    destruct (macd_lengths _ _ _ _ _ Hm) as [Hl Hs].
    now apply (crossover_trades sqrt_ df cap _ _ r).
Qed.

(** X26.  On non-zero closes, with the default prices, the average win
    and the average loss of the result are finite, the average win is
    not negative and the average loss is not positive (both are 0 when
    there is no trade of their kind). *)
Theorem average_win_and_loss_have_their_sign :
  forall (sqrt_ : Qc -> Qc) (df : DataFrame) (cap : Qc) (signals : list Z)
         (r : Result),
    Forall (fun b => Close b <> 0%Qc) df ->
    List.length signals = List.length df ->
    simple_backtest sqrt_ df cap signals None None = Some r ->
    exists w l,
      avg_win_pct r = Fin w /\ (0 <= w)%Qc /\
      avg_loss_pct r = Fin l /\ (l <= 0)%Qc /\
      (winning_trades r = 0%nat -> w = 0%Qc) /\
      (losing_trades r = 0%nat -> l = 0%Qc).
Proof.
  intros sqrt_ df cap signals r Hc HL Hr.
  destruct (simple_backtest_summary _ _ _ _ _ Hr)
    as (_ & _ & _ & _ & _ & Hw & Hl & _ & _ & Hnw & Hnl).
  cbv zeta in Hw, Hl, Hnw, Hnl.
  destruct (calculate_trades_log df signals (col Close df) (col Close df))
    as (Hrec & _ & Hin).
  destruct (trade_statistics_signs
              (_calculate_trades df (positions_of signals) (col Close df)
                 (col Close df))) as (a & b & Ea & Ha & Eb & Hb).
  { rewrite Forall_forall in *. intros t Ht.
    specialize (Hrec t Ht). specialize (Hin t Ht). cbn beta in Hin.
    destruct Hrec as (Hlt & _ & _ & _ & Hpnl & _ & Hwin).
    rewrite col_as_prices in Hpnl, Hwin.
    rewrite !iloc_prices in Hpnl, Hwin by (rewrite length_map; lia).
    assert (He : price_at (map Close df) (entry_idx t) <> 0%Qc).
    { apply (price_nonzero df); [|lia].
      apply Forall_forall. exact Hc. }
    unfold fsub in Hpnl, Hwin. cbn [fneg fadd] in Hpnl, Hwin.
    rewrite fdiv_Fin in Hpnl, Hwin by assumption.
    unfold fz in Hpnl, Hwin. cbn [fmul round2] in Hpnl, Hwin.
    unfold fgt in Hwin. cbn [flt] in Hwin.
    eexists. split; [exact Hpnl|]. rewrite Hwin. split; intro E.
    - apply round2q_nonneg. apply Qclt_le_weak. now apply Qc_ltb_lt.
    - apply round2q_nonpos. now apply Qc_ltb_ge. }
  destruct (trade_statistics_zero
              (_calculate_trades df (positions_of signals) (col Close df)
                 (col Close df))) as (Za & Zb).
  assert (Hfw : forall T : list Trade,
             match T with
             | _ :: _ => List.length (filter win T)
             | [] => 0%nat
             end = 0%nat -> filter win T = []).
  { intros [|t T] H0; [reflexivity|].
    now destruct (filter win (t :: T)). }
  assert (Hfl : forall T : list Trade,
             match T with
             | _ :: _ => List.length (filter (fun t => negb (win t)) T)
             | [] => 0%nat
             end = 0%nat -> filter (fun t => negb (win t)) T = []).
  { intros [|t T] H0; [reflexivity|].
    now destruct (filter (fun t => negb (win t)) (t :: T)). }
  rewrite Hw, Hl, Hnw, Hnl, Ea, Eb. cbn [round2].
  exists (round2q a), (round2q b).
  split; [reflexivity|]. split; [now apply round2q_nonneg|].
  split; [reflexivity|]. split; [now apply round2q_nonpos|].
  split; intro H0.
  - apply Hfw in H0. apply Za in H0. rewrite Ea in H0.
    injection H0 as ->. apply round2q_zero.
  - apply Hfl in H0. apply Zb in H0. rewrite Eb in H0.
    injection H0 as ->. apply round2q_zero.
Qed.

Lemma average_win_and_loss_have_their_sign_five_bars :
  exists r,
    simple_backtest ident (history [100; 110; 121; 100; 90]%Z) (qz 10000)
      [1; -1; 1; 0; -1]%Z None None = Some r /\
    exists w l,
      avg_win_pct r = Fin w /\ (0 <= w)%Qc /\
      avg_loss_pct r = Fin l /\ (l <= 0)%Qc /\
      (winning_trades r = 0%nat -> w = 0%Qc) /\
      (losing_trades r = 0%nat -> l = 0%Qc).
Proof.
  destruct (simple_backtest_total ident (history [100; 110; 121; 100; 90]%Z)
              (qz 10000) [1; -1; 1; 0; -1]%Z) as [r Hr];
    [discriminate | reflexivity |].
  exists r. split; [exact Hr|].
  apply (average_win_and_loss_have_their_sign ident
           (history [100; 110; 121; 100; 90]%Z) (qz 10000)
           [1; -1; 1; 0; -1]%Z r).
  - repeat constructor; apply Qc_eqb_neq; reflexivity.
  - reflexivity.
  - exact Hr.
Defined.


(** X27.  On a history of finite prices the exponential moving average
    starts at the first price and then follows the recurrence
    [ema[i+1] = (1 - a) * ema[i] + a * price[i+1]] with the smoothing
    factor [a = 2 / (period + 1)]. *)
Theorem ema_follows_its_recurrence :
  forall (period : nat) (column : Bar -> Qc) (df : DataFrame) (e : Series),
    ema period column df = Some e ->
    (forall b, nth_error df 0 = Some b -> iloc e 0 = Fin (column b)) /\
    (forall i b, nth_error df (S i) = Some b ->
       exists x,
         iloc e i = Fin x /\
         iloc e (S i) =
         Fin ((1 - smoothing period) * x + smoothing period * column b)).
Proof.
  intros period column df e He. unfold ema, ewm_mean in He.
  destruct (period <? 1)%nat; [discriminate|].
  rewrite col_as_prices in He.
  destruct df as [|b0 df].
  - split; [intros b Hb; discriminate|]. intros i b Hb. discriminate.
  - cbn [map] in He. injection He as <-. split.
    + intros b Hb. injection Hb as <-. reflexivity.
    + intros i b Hb. cbn [nth_error] in Hb.
      assert (Hi : (i < List.length (map column df))%nat).
      { rewrite length_map. apply nth_error_Some. congruence. }
      destruct (ewm_run_recurrence (smoothing period) (map column df)
                  (column b0) i Hi) as (x & Hx & Hn).
      exists x. split; [exact Hx|].
      unfold smoothing in *. rewrite Hn. do 3 f_equal.
      apply nth_error_nth. now rewrite nth_error_map, Hb.
Qed.

Lemma ema_follows_its_recurrence_two_bars :
  exists e,
    ema 3 Close (history [10; 11]%Z) = Some e /\
    exists x,
      iloc e 0 = Fin x /\
      iloc e 1 = Fin ((1 - smoothing 3) * x + smoothing 3 * qz 11).
Proof.
  destruct (ema 3 Close (history [10; 11]%Z)) as [e|] eqn:He;
    [|discriminate He].
  exists e. split; [reflexivity|].
  exact (proj2 (ema_follows_its_recurrence 3 Close (history [10; 11]%Z) e He)
               0%nat (flat_bar (qz 11)) eq_refl).
Defined.

End Properties.
